(** * pyvideochat: the framed streaming transport of [hosting.py]

    A shallow embedding of [pyvideochat/hosting.py] (classes [_Socket],
    [Server], [Client]) together with the parts of [video.py] it calls.
    Python methods become functions in a state-and-exception monad over
    the endpoint object and the operating-system state it talks to; the
    [while] loops take a fuel argument, and the recursive [connect] takes
    the depth of recursion the interpreter still allows. *)

From Stdlib Require Import ZArith Lia Bool String.
From stdpp Require Import base list relations.

Local Open Scope Z_scope.

Abbreviation byte := Byte.byte.
Abbreviation bytes := (list Byte.byte).

(** ** Python slicing with an integer bound: [data[:n]] and [data[n:]] *)

Fixpoint slice_to {A} (n : Z) (l : list A) : list A :=
  match l with
  | [] => []
  | x :: t => if n <=? 0 then [] else x :: slice_to (n - 1) t
  end.

Fixpoint slice_from {A} (n : Z) (l : list A) : list A :=
  match l with
  | [] => []
  | x :: t => if n <=? 0 then l else slice_from (n - 1) t
  end.

Definition len {A} (l : list A) : Z := Z.of_nat (length l).

(** ** [struct.pack("Q", n)] and [struct.unpack("Q", b)]

    Format ["Q"] without a prefix character is an unsigned 64-bit integer
    in the byte order of the host. *)

Module Struct.

Inductive byteorder := little | big.

Definition byte_of_Z (z : Z) : byte :=
  match Byte.of_N (Z.to_N z) with
  | Some b => b
  | None => Byte.x00
  end.

Definition Z_of_byte (b : byte) : Z := Z.of_N (Byte.to_N b).

Fixpoint le_bytes (k : nat) (n : Z) : bytes :=
  match k with
  | O => []
  | S k' => byte_of_Z (n mod 256) :: le_bytes k' (n / 256)
  end.

Fixpoint le_value (bs : bytes) : Z :=
  match bs with
  | [] => 0
  | b :: t => Z_of_byte b + 256 * le_value t
  end.

(** [struct.calcsize("Q")] *)
Definition calcsize_Q : nat := 8.

(** [None] stands for [struct.error] (argument out of range). *)
Definition pack_Q (bo : byteorder) (n : Z) : option bytes :=
  if (0 <=? n) && (n <? 2 ^ 64) then
    Some (match bo with
          | little => le_bytes calcsize_Q n
          | big => rev (le_bytes calcsize_Q n)
          end)
  else None.

(** [None] stands for [struct.error] (buffer is not exactly 8 bytes). *)
Definition unpack_Q (bo : byteorder) (b : bytes) : option Z :=
  if Nat.eqb (length b) calcsize_Q then
    Some (le_value (match bo with little => b | big => rev b end))
  else None.

End Struct.

(** ** External collaborators: [pickle] on frames, [cv2.resize], [int] *)

Class Externals := {
  ndarray : Type;
  (** [pickle.dumps(frame)] *)
  pickle_dumps : ndarray -> bytes;
  (** [pickle.loads(data)]; [None] when it raises *)
  pickle_loads : bytes -> option ndarray;
  (** [cv2.resize(src=frame, dsize=(w, h))]; [None] when it raises *)
  cv2_resize : ndarray -> Z -> Z -> option ndarray;
  (** the builtin [int(s)] on a string; [None] when it raises *)
  py_int : string -> option Z
}.

(** ** Exceptions and outcomes *)

Inductive exn :=
| AttributeError | TypeError | ValueError | OverflowError
| OSError | EOFError | StructError | PickleError | SystemExit
| RecursionError.

(** The result of running a piece of code from a state [S]: it returns,
    it raises, or the fuel given to its loops is used up. *)
Inductive outcome (S A : Type) :=
| Done (a : A) (s : S)
| Raised (e : exn) (s : S)
| OutOfFuel.
Arguments Done {S A} a s.
Arguments Raised {S A} e s.
Arguments OutOfFuel {S A}.

Definition M (S A : Type) : Type := S -> outcome S A.

Definition ret {S A} (a : A) : M S A := fun s => Done a s.

Definition bind {S A B} (m : M S A) (k : A -> M S B) : M S B :=
  fun s =>
    match m s with
    | Done a s' => k a s'
    | Raised e s' => Raised e s'
    | OutOfFuel => OutOfFuel
    end.

Definition raise {S A} (e : exn) : M S A := fun s => Raised e s.

Definition out_of_fuel {S A} : M S A := fun _ => OutOfFuel.

(** [try: body  except: handler] with a bare [except], which catches
    every exception, [SystemExit] included. *)
Definition try_except {S A} (body handler : M S A) : M S A :=
  fun s =>
    match body s with
    | Raised _ s' => handler s'
    | r => r
    end.

Definition gets {S A} (f : S -> A) : M S A := fun s => Done (f s) s.
Definition modify {S} (f : S -> S) : M S unit := fun s => Done tt (f s).

Definition of_option {S A} (e : exn) (o : option A) : M S A :=
  match o with
  | Some a => ret a
  | None => raise e
  end.

Notation "'let*' x := m 'in' k" := (bind m (fun x => k))
  (at level 10, x pattern, m at level 100, k at level 200).
Notation "m ;; k" := (bind m (fun _ => k))
  (at level 100, k at level 200, right associativity).

(** ** The operating system as the endpoint sees it *)

Definition sock_id := nat.

(** What the peer and the network make of successive [recv] calls: a
    non-empty segment of bytes becomes available, or the call raises
    (time-out, reset).  When the list is used up the peer has closed the
    stream and [recv] returns [b""]. *)
Inductive rx_event :=
| Segment (b : byte) (bs : bytes)
| RxError.

(** What a freshly established connection will go through: the inbound
    events, and for each [sendall] whether it succeeds ([None]) or raises
    after that many bytes went out. *)
Record PeerScript := {
  peer_rx : list rx_event;
  peer_tx : list (option nat)
}.

Record SockState := {
  closed : bool;
  connected : bool;
  so_timeout : option Z;
  inbound : list rx_event;
  tx_script : list (option nat);
  outbound : bytes
}.

Definition fresh_socket : SockState :=
  {| closed := false; connected := false; so_timeout := None;
     inbound := []; tx_script := []; outbound := [] |}.

Definition established (p : PeerScript) (st : SockState) : SockState :=
  {| closed := closed st; connected := true; so_timeout := so_timeout st;
     inbound := peer_rx p; tx_script := peer_tx p; outbound := outbound st |}.

Definition with_closed (st : SockState) : SockState :=
  {| closed := true; connected := connected st; so_timeout := so_timeout st;
     inbound := inbound st; tx_script := tx_script st; outbound := outbound st |}.

Definition with_timeout (t : Z) (st : SockState) : SockState :=
  {| closed := closed st; connected := connected st; so_timeout := Some t;
     inbound := inbound st; tx_script := tx_script st; outbound := outbound st |}.

Definition with_inbound (i : list rx_event) (st : SockState) : SockState :=
  {| closed := closed st; connected := connected st; so_timeout := so_timeout st;
     inbound := i; tx_script := tx_script st; outbound := outbound st |}.

Definition with_sent (script : list (option nat)) (out : bytes) (st : SockState)
  : SockState :=
  {| closed := closed st; connected := connected st; so_timeout := so_timeout st;
     inbound := inbound st; tx_script := script; outbound := outbound st ++ out |}.

(** The screen resolution is a pair or the string ['fullscreen']. *)
Inductive Resolution := WH (w h : Z) | FULLSCREEN.

Inductive level := TEXT | SUCCESS | WARNING | LOADING | INFO | ERROR.

Inductive message :=
| MsgIPAddress (ip : string)
| MsgCaptureEnabled
| MsgInitializingOpenCV
| MsgOpenCVInitialized
| MsgUnableToOpen (source : Z)
| MsgListening (ip : string) (port : Z)
| MsgGotConnection (addr : string)
| MsgConnecting (ip : option string) (port : option Z)
| MsgConnected (ip : option string)
| MsgTimedOut
| MsgStopped (socket_type : string)
| MsgSelectPort (socket_type : string)
| MsgSelectIP (socket_type : string)
| MsgPortMustBeInt
| MsgPortMustBeInt4.

Section Model.
Context `{Externals}.

(** Observable actions, most recent first in the trace. *)
Inductive event :=
| EvLog (l : level) (m : message)
| EvPrompt (m : message)
| EvSleep (secs : Z)
| EvAccept (s : sock_id)
| EvConnect (s : sock_id)
| EvNamedWindow (win : string)
| EvImshow (win : string) (frame : ndarray)
| EvDestroyAllWindows.

Record World := {
  byteorder : Struct.byteorder;
  hostname : string;
  (** result of [gethostbyname]; [None] when it raises *)
  hostip : option string;
  sockets : list SockState;
  (** outcome of successive [bind] calls; success when used up *)
  bind_script : list bool;
  (** outcome of the n-th [accept]; [None] when it raises *)
  accept_script : nat -> option (string * PeerScript);
  accept_calls : nat;
  (** outcome of the n-th [connect]; [None] when it raises *)
  dial_script : nat -> option PeerScript;
  dial_calls : nat;
  (** does [cv2.VideoCapture(source)] open the device *)
  camera_opens : bool;
  (** successive [read()] results; [(False, None)] when used up *)
  camera : list (option ndarray);
  (** for successive [waitKey(30)]: was ESC (27) pressed *)
  keys : list bool;
  (** lines typed at successive [input()] prompts; end of file after *)
  stdin : list string;
  trace : list event
}.

Definition set_sockets (x : list SockState) (w : World) : World :=
  {| byteorder := byteorder w; hostname := hostname w; hostip := hostip w;
     sockets := x; bind_script := bind_script w;
     accept_script := accept_script w; accept_calls := accept_calls w;
     dial_script := dial_script w; dial_calls := dial_calls w;
     camera_opens := camera_opens w; camera := camera w; keys := keys w;
     stdin := stdin w; trace := trace w |}.

Definition set_bind_script (x : list bool) (w : World) : World :=
  {| byteorder := byteorder w; hostname := hostname w; hostip := hostip w;
     sockets := sockets w; bind_script := x;
     accept_script := accept_script w; accept_calls := accept_calls w;
     dial_script := dial_script w; dial_calls := dial_calls w;
     camera_opens := camera_opens w; camera := camera w; keys := keys w;
     stdin := stdin w; trace := trace w |}.

Definition set_accept_calls (x : nat) (w : World) : World :=
  {| byteorder := byteorder w; hostname := hostname w; hostip := hostip w;
     sockets := sockets w; bind_script := bind_script w;
     accept_script := accept_script w; accept_calls := x;
     dial_script := dial_script w; dial_calls := dial_calls w;
     camera_opens := camera_opens w; camera := camera w; keys := keys w;
     stdin := stdin w; trace := trace w |}.

Definition set_dial_calls (x : nat) (w : World) : World :=
  {| byteorder := byteorder w; hostname := hostname w; hostip := hostip w;
     sockets := sockets w; bind_script := bind_script w;
     accept_script := accept_script w; accept_calls := accept_calls w;
     dial_script := dial_script w; dial_calls := x;
     camera_opens := camera_opens w; camera := camera w; keys := keys w;
     stdin := stdin w; trace := trace w |}.

Definition set_camera (x : list (option ndarray)) (w : World) : World :=
  {| byteorder := byteorder w; hostname := hostname w; hostip := hostip w;
     sockets := sockets w; bind_script := bind_script w;
     accept_script := accept_script w; accept_calls := accept_calls w;
     dial_script := dial_script w; dial_calls := dial_calls w;
     camera_opens := camera_opens w; camera := x; keys := keys w;
     stdin := stdin w; trace := trace w |}.

Definition set_keys (x : list bool) (w : World) : World :=
  {| byteorder := byteorder w; hostname := hostname w; hostip := hostip w;
     sockets := sockets w; bind_script := bind_script w;
     accept_script := accept_script w; accept_calls := accept_calls w;
     dial_script := dial_script w; dial_calls := dial_calls w;
     camera_opens := camera_opens w; camera := camera w; keys := x;
     stdin := stdin w; trace := trace w |}.

Definition set_trace (x : list event) (w : World) : World :=
  {| byteorder := byteorder w; hostname := hostname w; hostip := hostip w;
     sockets := sockets w; bind_script := bind_script w;
     accept_script := accept_script w; accept_calls := accept_calls w;
     dial_script := dial_script w; dial_calls := dial_calls w;
     camera_opens := camera_opens w; camera := camera w; keys := keys w;
     stdin := stdin w; trace := x |}.

Definition set_stdin (x : list string) (w : World) : World :=
  {| byteorder := byteorder w; hostname := hostname w; hostip := hostip w;
     sockets := sockets w; bind_script := bind_script w;
     accept_script := accept_script w; accept_calls := accept_calls w;
     dial_script := dial_script w; dial_calls := dial_calls w;
     camera_opens := camera_opens w; camera := camera w; keys := keys w;
     stdin := x; trace := trace w |}.

Definition emit (e : event) : M World unit :=
  modify (fun w => set_trace (e :: trace w) w).

(** *** [socket] objects *)

Definition get_sock (s : sock_id) : M World SockState :=
  fun w => match sockets w !! s with
           | Some st => Done st w
           | None => Raised OSError w
           end.

Definition put_sock (s : sock_id) (st : SockState) : M World unit :=
  modify (fun w => set_sockets (<[s := st]> (sockets w)) w).

(** Every operation on a socket fails once it has been closed. *)
Definition live_sock (s : sock_id) : M World SockState :=
  let* st := get_sock s in
  if closed st then raise OSError else ret st.

(** [socket.socket(AF_INET, SOCK_STREAM)] *)
Definition socket_socket : M World sock_id :=
  fun w => Done (length (sockets w)) (set_sockets (sockets w ++ [fresh_socket]) w).

(** [PY_SSIZE_T_MAX] of a 64-bit build: the largest [bufsize] that
    [recv] converts. *)
Definition PY_SSIZE_T_MAX : Z := 2 ^ 63 - 1.

Definition sock_settimeout (s : sock_id) (t : Z) : M World unit :=
  if t <? 0 then raise ValueError
  else let* st := live_sock s in put_sock s (with_timeout t st).

Definition sock_bind (s : sock_id) (ip : string) (port : Z) : M World unit :=
  if (port <? 0) || (65535 <? port) then raise OverflowError
  else
    let* _ := live_sock s in
    let* script := gets bind_script in
    match script with
    | [] => ret tt
    | ok :: rest =>
        modify (set_bind_script rest) ;;
        if ok then ret tt else raise OSError
    end.

Definition sock_listen (s : sock_id) (backlog : Z) : M World unit :=
  let* _ := live_sock s in ret tt.

Definition sock_accept (s : sock_id) : M World (sock_id * string) :=
  let* _ := live_sock s in
  emit (EvAccept s) ;;
  let* n := gets accept_calls in
  modify (set_accept_calls (S n)) ;;
  let* script := gets accept_script in
  match script n with
  | None => raise OSError
  | Some (addr, peer) =>
      let* c := socket_socket in
      put_sock c (established peer fresh_socket) ;;
      ret (c, addr)
  end.

Definition sock_connect (s : sock_id) (ip : option string) (port : option Z)
  : M World unit :=
  match ip, port with
  | Some _, Some _ =>
      let* st := live_sock s in
      emit (EvConnect s) ;;
      let* n := gets dial_calls in
      modify (set_dial_calls (S n)) ;;
      let* script := gets dial_script in
      match script n with
      | None => raise OSError
      | Some peer => put_sock s (established peer st)
      end
  | _, _ => raise TypeError
  end.

Definition requeue (left : bytes) (rest : list rx_event) : list rx_event :=
  match left with
  | [] => rest
  | b :: bs => Segment b bs :: rest
  end.

(** [sock.recv(bufsize)]: at most [bufsize] bytes of what is available;
    [b""] once the peer has closed.  The buffer of [bufsize] bytes that
    the call allocates first is not modelled: a [bufsize] too large for
    the machine's memory fails in the real call below the bound checked
    here, so the results about [recv] are stated for sizes of data that
    is at hand, or for small ones. *)
Definition sock_recv (s : sock_id) (bufsize : Z) : M World bytes :=
  if bufsize <? 0 then raise ValueError
  else if PY_SSIZE_T_MAX <? bufsize then raise OverflowError
  else
    let* st := live_sock s in
    if negb (connected st) then raise OSError
    else
      match inbound st with
      | [] => ret []
      | RxError :: rest => put_sock s (with_inbound rest st) ;; raise OSError
      | Segment b bs :: rest =>
          put_sock s (with_inbound (requeue (slice_from bufsize (b :: bs)) rest) st) ;;
          ret (slice_to bufsize (b :: bs))
      end.

(** [sock.sendall(data)] *)
Definition sock_sendall (s : sock_id) (data : bytes) : M World unit :=
  let* st := live_sock s in
  if negb (connected st) then raise OSError
  else
    match tx_script st with
    | [] => put_sock s (with_sent [] data st)
    | None :: rest => put_sock s (with_sent rest data st)
    | Some k :: rest =>
        put_sock s (with_sent rest (take k data) st) ;; raise OSError
    end.

(** [sock.close()] *)
Definition sock_close (s : sock_id) : M World unit :=
  fun w => match sockets w !! s with
           | Some st => Done tt (set_sockets (<[s := with_closed st]> (sockets w)) w)
           | None => Done tt w
           end.

(** *** [utils._Logger] and [time.sleep] *)

Definition Logger (l : level) (m : message) : M World unit := emit (EvLog l m).

(** [_Logger.input(message)]: the builtin [input], which raises
    [EOFError] when no line is left. *)
Definition Logger_input (m : message) : M World string :=
  emit (EvPrompt m) ;;
  let* lines := gets stdin in
  match lines with
  | [] => raise EOFError
  | l :: rest => modify (set_stdin rest) ;; ret l
  end.

Definition time_sleep (secs : Z) : M World unit := emit (EvSleep secs).

(** *** [video.Video] *)

Record VideoObj := {
  win_name : string;
  source : Z;
  v_verbose : bool;
  resolution : Resolution
}.

(** [Video.__init__]; the handler [except Exception as error: raise(error)]
    re-raises, and [exit()] raises [SystemExit]. *)
Definition Video_init (name : string) (src : Z) (res : Resolution) (vb : bool)
  : M World VideoObj :=
  (if vb then Logger TEXT MsgInitializingOpenCV else ret tt) ;;
  (match res with
   | FULLSCREEN => emit (EvNamedWindow name)
   | WH _ _ => ret tt
   end) ;;
  let* opened := gets camera_opens in
  (if negb opened then Logger ERROR (MsgUnableToOpen src) ;; raise SystemExit
   else ret tt) ;;
  (if vb then Logger SUCCESS MsgOpenCVInitialized else ret tt) ;;
  ret {| win_name := name; source := src; v_verbose := vb; resolution := res |}.

(** [cv2.VideoCapture.read]: [(True, frame)] or [(False, None)] *)
Definition Video_read (v : VideoObj) : M World (option ndarray) :=
  let* cam := gets camera in
  match cam with
  | [] => ret None
  | r :: rest => modify (set_camera rest) ;; ret r
  end.

Definition Video_show (v : VideoObj) (frame : ndarray) : M World unit :=
  emit (EvImshow (win_name v) frame) ;;
  let* ks := gets keys in
  match ks with
  | [] => ret tt
  | esc :: rest =>
      modify (set_keys rest) ;;
      if esc then emit EvDestroyAllWindows ;; raise SystemExit else ret tt
  end.

Definition Video_resize (frame : ndarray) (res : Resolution) : ndarray :=
  match res with
  | WH w h => match cv2_resize frame w h with
              | Some f => f
              | None => frame
              end
  | FULLSCREEN => frame
  end.

Definition Video_stop : M World unit := emit EvDestroyAllWindows.

(** ** The endpoint object

    The attributes of a [_Socket] instance.  Attributes that only some
    code path assigns are optional: reading one that was never assigned
    raises [AttributeError].  [self.socket], [self.server_socket] and
    [self.client_socket] hold references into the socket store, so two
    attributes may name the same socket. *)

Record Endpoint := {
  socket : sock_id;
  host_name : string;
  host_ip : string;
  capture_video : bool;
  screen_resolution : Resolution;
  video_source : Z;
  verbose : bool;
  timed_out : bool;
  video : option VideoObj;
  socket_type : option string;
  server_socket : option sock_id;
  client_socket : option sock_id
}.

Definition set_timed_out (b : bool) (e : Endpoint) : Endpoint :=
  {| socket := socket e; host_name := host_name e; host_ip := host_ip e;
     capture_video := capture_video e; screen_resolution := screen_resolution e;
     video_source := video_source e; verbose := verbose e; timed_out := b;
     video := video e; socket_type := socket_type e;
     server_socket := server_socket e; client_socket := client_socket e |}.

Definition set_server_socket (s : sock_id) (e : Endpoint) : Endpoint :=
  {| socket := socket e; host_name := host_name e; host_ip := host_ip e;
     capture_video := capture_video e; screen_resolution := screen_resolution e;
     video_source := video_source e; verbose := verbose e; timed_out := timed_out e;
     video := video e; socket_type := socket_type e;
     server_socket := Some s; client_socket := client_socket e |}.

Definition set_client_socket (s : sock_id) (e : Endpoint) : Endpoint :=
  {| socket := socket e; host_name := host_name e; host_ip := host_ip e;
     capture_video := capture_video e; screen_resolution := screen_resolution e;
     video_source := video_source e; verbose := verbose e; timed_out := timed_out e;
     video := video e; socket_type := socket_type e;
     server_socket := server_socket e; client_socket := Some s |}.

(** [_Socket.__init__] *)
Definition _Socket_init (name : string) (show_ip capture : bool) (src : Z)
    (vb : bool) (res : Resolution) : M World Endpoint :=
  let* s := socket_socket in
  let* hn := gets hostname in
  let* ip := (let* o := gets hostip in of_option OSError o) in
  (if show_ip then Logger INFO (MsgIPAddress ip) else ret tt) ;;
  let* v := (if capture then
               Logger INFO MsgCaptureEnabled ;;
               let* v := Video_init name src res vb in ret (Some v)
             else ret None) in
  ret {| socket := s; host_name := hn; host_ip := ip;
         capture_video := capture; screen_resolution := res;
         video_source := src; verbose := vb; timed_out := false;
         video := v; socket_type := None;
         server_socket := None; client_socket := None |}.

(** [Server.__init__] *)
Definition Server_init (name : string) (show_ip capture : bool)
    (res : Resolution) (src : Z) (vb : bool) : M World Endpoint :=
  let* e := _Socket_init name show_ip capture src vb res in
  ret (set_server_socket (socket e) e).

(** [Client.__init__] *)
Definition Client_init (name : string) (show_ip capture : bool)
    (res : Resolution) (src : Z) (vb : bool) : M World Endpoint :=
  let* e := _Socket_init name show_ip capture src vb res in
  ret (set_client_socket (socket e) e).

(** ** Methods: code that runs on an endpoint and the system together *)

Record State := { self : Endpoint; os : World }.

Definition sys {A} (m : M World A) : M State A :=
  fun st =>
    match m (os st) with
    | Done a w => Done a {| self := self st; os := w |}
    | Raised e w => Raised e {| self := self st; os := w |}
    | OutOfFuel => OutOfFuel
    end.

Definition attr {A} (f : Endpoint -> A) : M State A :=
  gets (fun st => f (self st)).

Definition need_attr {A} (f : Endpoint -> option A) : M State A :=
  let* o := attr f in of_option AttributeError o.

Definition assign (f : Endpoint -> Endpoint) : M State unit :=
  modify (fun st => {| self := f (self st); os := os st |}).

(** Truth value of an optional [int] and of an optional [str] argument *)
Definition truthy_int (p : option Z) : bool :=
  match p with
  | Some n => negb (n =? 0)
  | None => false
  end.

Definition truthy_str (s : option string) : bool :=
  match s with
  | Some EmptyString | None => false
  | Some _ => true
  end.

(** The loop of [_Socket._set_port].  Each turn evaluates the prompt
    text, reads a line and either leaves with the port or warns and goes
    round again.  A turn that finds no line ends the loop with
    [EOFError], so [turns] only has to cover the lines still to come. *)
Fixpoint port_prompts (turns : nat) : M State Z :=
  let* t := need_attr socket_type in
  let* port := sys (Logger_input (MsgSelectPort t)) in
  let again :=
    match turns with
    | O => out_of_fuel
    | S turns' => port_prompts turns'
    end in
  if Nat.eqb (String.length port) 4 then
    match py_int port with
    | Some p => ret p
    | None => sys (Logger WARNING MsgPortMustBeInt) ;; again
    end
  else sys (Logger WARNING MsgPortMustBeInt4) ;; again.

(** [_Socket._set_port] *)
Definition _set_port : M State Z :=
  let* to_come := sys (gets stdin) in
  port_prompts (length to_come).

(** [Client._set_ip] *)
Definition _set_ip : M State string :=
  let* t := need_attr socket_type in
  sys (Logger_input (MsgSelectIP t)).

Definition default_resolution : Resolution := WH 640 480.

(** The body of the [try] statement of [_Socket.send] *)
Definition transmit (frame : ndarray) (res : Resolution) (show : bool)
  : M State unit :=
  let frame := Video_resize frame res in
  let serialized_frame := pickle_dumps frame in
  let* bo := sys (gets byteorder) in
  let* size := of_option StructError (Struct.pack_Q bo (len serialized_frame)) in
  let message := size ++ serialized_frame in
  (if show then
     let* sres := attr screen_resolution in
     let frame := Video_resize frame sres in
     let* v := need_attr video in
     sys (Video_show v frame)
   else ret tt) ;;
  let* c := need_attr client_socket in
  sys (sock_sendall c message).

(** [_Socket.send].  [capturing] is true exactly when a frame is at hand:
    the one passed in, or the one the camera just delivered. *)
Definition send (frame : option ndarray) (res : Resolution) (show : bool)
  : M State unit :=
  let* capture := attr capture_video in
  let* at_hand :=
    (match frame with
     | None =>
         if capture then let* v := need_attr video in sys (Video_read v)
         else ret None
     | Some f => ret (Some f)
     end) in
  match at_hand with
  | None => ret tt
  | Some frame => try_except (transmit frame res show) (ret tt)
  end.

(** What [receive] hands back: a tuple, or [None] when the function body
    ends without a [return]. *)
Inductive received :=
| RxTuple (ok : bool) (frame : option ndarray)
| RxNone.

Definition payload_size : nat := Struct.calcsize_Q.

(** First loop of [receive]: collect the length prefix. *)
Fixpoint receive_size (fuel : nat) (data : bytes) : M State bytes :=
  match fuel with
  | O => out_of_fuel
  | S fuel' =>
      if (length data <? payload_size)%nat then
        let* c := need_attr client_socket in
        let* packet := sys (sock_recv c (Z.of_nat payload_size)) in
        match packet with
        | [] => ret data
        | _ => receive_size fuel' (data ++ packet)
        end
      else ret data
  end.

(** Second loop of [receive]: collect the payload. *)
Fixpoint receive_payload (fuel : nat) (msg_size : Z) (data : bytes)
  : M State bytes :=
  match fuel with
  | O => out_of_fuel
  | S fuel' =>
      if len data <? msg_size then
        let* c := need_attr client_socket in
        let* packet := sys (sock_recv c msg_size) in
        let data := data ++ packet in
        match data with
        | [] => ret data
        | _ => receive_payload fuel' msg_size data
        end
      else ret data
  end.

(** [_Socket.receive] *)
Definition receive (fuel : nat) (show : bool) : M State received :=
  try_except
    (let* data := receive_size fuel [] in
     let packed_msg_size := take payload_size data in
     let data := drop payload_size data in
     let* bo := sys (gets byteorder) in
     let* msg_size := of_option StructError (Struct.unpack_Q bo packed_msg_size) in
     let* data := receive_payload fuel msg_size data in
     let frame_data := slice_to msg_size data in
     let data := slice_from msg_size data in
     let* frame := of_option PickleError (pickle_loads frame_data) in
     let* frame :=
       (if show then
          let* sres := attr screen_resolution in
          let frame := Video_resize frame sres in
          let* v := need_attr video in
          sys (Video_show v frame) ;; ret frame
        else ret frame) in
     ret (RxTuple true (Some frame)))
    (ret RxNone).

(** [_Socket.is_connected]: a socket object is always true. *)
Definition is_connected : M State bool :=
  let* _ := need_attr client_socket in ret true.

(** [_Socket.close] *)
Definition close : M State unit :=
  let* s := attr socket in
  sys (sock_close s) ;;
  try_except (sys Video_stop) (ret tt) ;;
  let* t := need_attr socket_type in
  sys (Logger TEXT (MsgStopped t)).

(** A socket object is closed by the interpreter when nothing refers to
    it any more.  The socket that [self.client_socket] held is in that
    case once the attribute is rebound, unless another attribute of the
    endpoint still names it: the methods hand out no socket, and the
    program is taken to keep no reference of its own. *)
Definition names (o : sock_id) (a : option sock_id) : bool :=
  match a with
  | Some l => Nat.eqb o l
  | None => false
  end.

Definition referenced (o : sock_id) (e : Endpoint) : bool :=
  Nat.eqb o (socket e) || names o (server_socket e) || names o (client_socket e).

Definition release (old : option sock_id) : M State unit :=
  match old with
  | None => ret tt
  | Some o =>
      let* kept := attr (referenced o) in
      if kept then ret tt else sys (sock_close o)
  end.

(** [Server.connect].  The retry of the blocking mode is a recursive call:
    [depth] is the number of nested activations of [connect] that the
    interpreter still allows, and a call made when none is left raises
    [RecursionError] at the call.  The calls that one activation makes
    itself are taken to fit. *)
Fixpoint Server_connect (depth : nat) (port : option Z) (timeout : Z)
  : M State unit :=
  match depth with
  | O => raise RecursionError
  | S depth' =>
      let blocking := timeout =? 0 in
      (if blocking then ret tt
       else let* ss := need_attr server_socket in
            sys (sock_settimeout ss timeout)) ;;
      let* t := attr timed_out in
      let* port :=
        (if negb t then
           let* p := (if negb (truthy_int port) then _set_port
                      else of_option TypeError port) in
           let* ss := need_attr server_socket in
           let* ip := attr host_ip in
           sys (sock_bind ss ip p) ;;
           sys (Logger TEXT (MsgListening ip p)) ;;
           ret (Some p)
         else ret port) in
      let* ss := need_attr server_socket in
      sys (sock_listen ss 5) ;;
      try_except
        (let* ss := need_attr server_socket in
         let* (c, address) := sys (sock_accept ss) in
         let* old := attr client_socket in
         assign (set_client_socket c) ;;
         release old ;;
         let* t := attr timed_out in
         if negb t then sys (Logger SUCCESS (MsgGotConnection address))
         else ret tt)
        (assign (set_timed_out true) ;;
         if negb blocking then sys (Logger ERROR MsgTimedOut)
         else sys (time_sleep 1) ;; Server_connect depth' port timeout)
  end.

(** What [Client.connect] hands back: [True] or [None]. *)
Inductive dialled := RetTrue | RetNone.

(** [Client.connect], with [depth] as in [Server.connect] *)
Fixpoint Client_connect (depth : nat) (ip : option string) (port : option Z)
    (timeout : Z) : M State dialled :=
  match depth with
  | O => raise RecursionError
  | S depth' =>
      let blocking := timeout =? 0 in
      (if blocking then ret tt
       else let* c := need_attr client_socket in
            sys (sock_settimeout c timeout)) ;;
      let* t := attr timed_out in
      let* (ip, port) :=
        (if negb t then
           let* ip := (if negb (truthy_str ip) then
                         let* i := _set_ip in ret (Some i)
                       else ret ip) in
           let* port := (if negb (truthy_int port) then
                           let* p := _set_port in ret (Some p)
                         else ret port) in
           sys (Logger TEXT (MsgConnecting ip port)) ;;
           ret (ip, port)
         else ret (ip, port)) in
      try_except
        (let* c := need_attr client_socket in
         sys (sock_connect c ip port) ;;
         let* t := attr timed_out in
         (if negb t then sys (Logger SUCCESS (MsgConnected ip)) else ret tt) ;;
         ret RetTrue)
        (assign (set_timed_out true) ;;
         if negb blocking then sys (Logger ERROR MsgTimedOut) ;; ret RetNone
         else sys (time_sleep 1) ;;
              let* _ := Client_connect depth' ip port timeout in
              ret RetNone)
  end.

(** [receiving, _ = self.receive(show=True)]: unpacking [None] raises. *)
Definition unpack_pair (r : received) : M State (bool * option ndarray) :=
  match r with
  | RxTuple ok frame => ret (ok, frame)
  | RxNone => raise TypeError
  end.

(** [Server.start] *)
Fixpoint Server_start (fuel : nat) : M State unit :=
  match fuel with
  | O => out_of_fuel
  | S fuel' =>
      let* on := is_connected in
      if on then
        let* r := receive fuel' true in
        let* (receiving, _) := unpack_pair r in
        (if receiving then send None default_resolution false else ret tt) ;;
        Server_start fuel'
      else ret tt
  end.

(** [Client.start] *)
Fixpoint Client_start (fuel : nat) : M State unit :=
  match fuel with
  | O => out_of_fuel
  | S fuel' =>
      let* on := is_connected in
      if on then
        send None default_resolution false ;;
        let* r := receive fuel' true in
        let* (receiving, _) := unpack_pair r in
        if negb receiving then ret tt
        else Client_start fuel'
      else ret tt
  end.

(** The display step of [receive], spelled out on a state. *)
Definition shown (frame : ndarray) (st : State) : outcome State received :=
  match video (self st) with
  | None => Done RxNone st
  | Some v =>
      let frame := Video_resize frame (screen_resolution (self st)) in
      match Video_show v frame (os st) with
      | Done _ w => Done (RxTuple true (Some frame)) {| self := self st; os := w |}
      | Raised _ w => Done RxNone {| self := self st; os := w |}
      | OutOfFuel => OutOfFuel
      end
  end.

(** A property of the state that a piece of code cannot break, whether
    it returns or raises. *)
Definition keeps {S A} (P : S -> Prop) (m : M S A) : Prop :=
  forall s, P s ->
    match m s with
    | Done _ s' | Raised _ s' => P s'
    | OutOfFuel => True
    end.

Definition on_self (Q : Endpoint -> Prop) (st : State) : Prop := Q (self st).

(** The class bodies assign to two attributes after construction,
    [timed_out] and [client_socket]. *)
Definition stable (Q : Endpoint -> Prop) : Prop :=
  (forall (b : bool) (e : Endpoint), Q e -> Q (set_timed_out b e)) /\
  (forall (c : sock_id) (e : Endpoint), Q e -> Q (set_client_socket c e)).

(** The state once socket [c], found as [sk], has [evs] left to deliver. *)
Definition rx_set (c : sock_id) (sk : SockState) (evs : list rx_event)
    (st : State) : State :=
  {| self := self st;
     os := set_sockets (<[c := with_inbound evs sk]> (sockets (os st))) (os st) |}.

(** A socket that exists and has not been closed. *)
Definition live (s : sock_id) (w : World) : Prop :=
  exists sk, sockets w !! s = Some sk /\ closed sk = false.

(** ** The calls a program can make on an endpoint *)

Inductive call :=
| CallSend (frame : option ndarray) (res : Resolution) (show : bool)
| CallReceive (show : bool)
| CallIsConnected
| CallClose
| CallServerConnect (port : option Z) (timeout : Z)
| CallClientConnect (ip : option string) (port : option Z) (timeout : Z)
| CallServerStart
| CallClientStart.

(** One call, given [fuel] for its loops; for [connect], which has no
    loop, the number stands for the depth of recursion still allowed. *)
Definition run (fuel : nat) (c : call) : M State unit :=
  match c with
  | CallSend frame res show => send frame res show
  | CallReceive show => receive fuel show ;; ret tt
  | CallIsConnected => is_connected ;; ret tt
  | CallClose => close
  | CallServerConnect port timeout => Server_connect fuel port timeout
  | CallClientConnect ip port timeout =>
      Client_connect fuel ip port timeout ;; ret tt
  | CallServerStart => Server_start fuel
  | CallClientStart => Client_start fuel
  end.

(** [st'] is where some call, returning or raising, leaves [st]. *)
Definition after (st st' : State) : Prop :=
  exists fuel c,
    match run fuel c st with
    | Done _ s | Raised _ s => s = st'
    | OutOfFuel => False
    end.

(** ** Measures on traces and sockets *)

Definition is_attempt (e : event) : bool :=
  match e with
  | EvAccept _ | EvConnect _ => true
  | _ => false
  end.

Definition is_sleep (e : event) : bool :=
  match e with
  | EvSleep _ => true
  | _ => false
  end.

Fixpoint count_events (p : event -> bool) (tr : list event) : nat :=
  match tr with
  | [] => 0
  | e :: t => ((if p e then 1 else 0) + count_events p t)%nat
  end.

Definition attempts (tr : list event) : nat := count_events is_attempt tr.
Definition sleeps (tr : list event) : nat := count_events is_sleep tr.

(** [k] failed attempts on socket [s], each followed by [sleep(1)];
    most recent first. *)
Fixpoint retries (attempt : event) (k : nat) : list event :=
  match k with
  | O => []
  | S k' => EvSleep 1 :: attempt :: retries attempt k'
  end.

(** *** Conditions under which [connect] reaches its attempt *)

Definition bind_will_succeed (w : World) : Prop :=
  head (bind_script w) <> Some false.

(** A port that is true as a Python value and that [bind] accepts *)
Definition valid_port (port : option Z) : Prop :=
  exists p, port = Some p /\ p <> 0 /\ 0 <= p <= 65535.

Definition can_listen (port : option Z) (st : State) : Prop :=
  timed_out (self st) = true \/ (valid_port port /\ bind_will_succeed (os st)).

Definition can_dial (ip : string) (port : Z) (st : State) : Prop :=
  timed_out (self st) = true \/ (ip <> EmptyString /\ port <> 0).

(** *** The states [connect] goes through *)

Definition bind_done (w : World) : World :=
  set_bind_script (tail (bind_script w)) w.

Definition accept_refused (s : sock_id) (w : World) : World :=
  set_accept_calls (S (accept_calls w)) (set_trace (EvAccept s :: trace w) w).

Definition accept_granted (s : sock_id) (peer : PeerScript) (w : World) : World :=
  set_sockets (<[length (sockets w) := established peer fresh_socket]>
                 (sockets w ++ [fresh_socket]))
    (accept_refused s w).

Definition dial_refused (s : sock_id) (w : World) : World :=
  set_dial_calls (S (dial_calls w)) (set_trace (EvConnect s :: trace w) w).

Definition logged (l : level) (m : message) (w : World) : World :=
  set_trace (EvLog l m :: trace w) w.

Definition slept (secs : Z) (w : World) : World :=
  set_trace (EvSleep secs :: trace w) w.

(** [Server.connect] up to [listen]: on a first call the socket is bound
    and the address logged. *)
Definition Server_prelude (port : option Z) (st : State) : State :=
  if timed_out (self st) then st
  else {| self := self st;
          os := logged TEXT (MsgListening (host_ip (self st)) (default 0 port))
                  (bind_done (os st)) |}.

(** [Client.connect] up to the [try]: on a first call the target is logged. *)
Definition Client_prelude (ip : option string) (port : option Z) (st : State)
  : State :=
  if timed_out (self st) then st
  else {| self := self st; os := logged TEXT (MsgConnecting ip port) (os st) |}.

(** After a failed attempt in blocking mode: flag set, one second slept. *)
Definition Server_retry (ss : sock_id) (st : State) : State :=
  {| self := set_timed_out true (self st);
     os := slept 1 (accept_refused ss (os st)) |}.

Definition Client_retry (c : sock_id) (st : State) : State :=
  {| self := set_timed_out true (self st);
     os := slept 1 (dial_refused c (os st)) |}.



Definition dial_granted (s : sock_id) (sk : SockState) (peer : PeerScript)
    (w : World) : World :=
  set_sockets (<[s := established peer sk]> (sockets w)) (dial_refused s w).

(** The world once socket [o] has been closed *)
Definition closed_at (o : sock_id) (w : World) : World :=
  match sockets w !! o with
  | Some sk => set_sockets (<[o := with_closed sk]> (sockets w)) w
  | None => w
  end.

(** The world once the socket [old] that [client_socket] held has been
    released, [e] being the endpoint after the assignment *)
Definition let_go (old : option sock_id) (e : Endpoint) (w : World) : World :=
  match old with
  | Some o => if referenced o e then w else closed_at o w
  | None => w
  end.

(** The endpoint's attributes after a successful [accept] *)
Definition rebound (st : State) : Endpoint :=
  set_client_socket (length (sockets (os st))) (self st).

(** After a successful attempt: the connection accepted before, if any,
    has been released; the success is logged on a first call only. *)
Definition Server_connected (ss : sock_id) (addr : string) (peer : PeerScript)
    (st : State) : State :=
  {| self := rebound st;
     os := if timed_out (self st)
           then let_go (client_socket (self st)) (rebound st)
                  (accept_granted ss peer (os st))
           else logged SUCCESS (MsgGotConnection addr)
                  (let_go (client_socket (self st)) (rebound st)
                     (accept_granted ss peer (os st))) |}.

Definition Client_connected (c : sock_id) (sk : SockState) (ip : option string)
    (peer : PeerScript) (st : State) : State :=
  {| self := self st;
     os := if timed_out (self st) then dial_granted c sk peer (os st)
           else logged SUCCESS (MsgConnected ip) (dial_granted c sk peer (os st)) |}.

(** What [Client.connect] returns after [k] failed attempts and a success:
    only the activation whose own attempt succeeds returns [True]. *)
Definition dial_result (k : nat) : dialled :=
  match k with
  | O => RetTrue
  | S _ => RetNone
  end.

(** The success message, which appears when the first attempt of a first
    call succeeds. *)
Definition greeting (k : nat) (st : State) (m : message) : list event :=
  match k with
  | O => if timed_out (self st) then [] else [EvLog SUCCESS m]
  | S _ => []
  end.


(** The bytes still to come on a socket, up to the first failing [recv]. *)
Fixpoint pending (evs : list rx_event) : bytes :=
  match evs with
  | Segment b bs :: rest => b :: bs ++ pending rest
  | _ => []
  end.

Definition unread (s : sock_id) (st : State) : bytes :=
  match sockets (os st) !! s with
  | Some sk => pending (inbound sk)
  | None => []
  end.

Definition final_state {A} (o : outcome State A) : option State :=
  match o with
  | Done _ s | Raised _ s => Some s
  | OutOfFuel => None
  end.

(** An endpoint whose [video] member exists whenever capture is on, as
    every constructor leaves it. *)
Definition video_ready (e : Endpoint) : Prop :=
  capture_video e = true -> is_Some (video e).

(** ** Scenarios *)

Definition quiet_world (socks : list SockState) : World :=
  {| byteorder := Struct.little; hostname := "host"; hostip := Some "127.0.0.1"%string;
     sockets := socks; bind_script := [];
     accept_script := fun _ => None; accept_calls := 0;
     dial_script := fun _ => None; dial_calls := 0;
     camera_opens := true; camera := []; keys := []; stdin := [];
     trace := [] |}.

Definition connection (rx : list rx_event) (tx : list (option nat)) : SockState :=
  {| closed := false; connected := true; so_timeout := None;
     inbound := rx; tx_script := tx; outbound := [] |}.

(** The attributes after [Client(show_ip=False, capture_video=False)]. *)
Definition plain_client : Endpoint :=
  {| socket := 0%nat; host_name := "host"; host_ip := "127.0.0.1";
     capture_video := false; screen_resolution := WH 640 480;
     video_source := 0; verbose := false; timed_out := false;
     video := None; socket_type := None;
     server_socket := None; client_socket := Some 0%nat |}.

(** The attributes after [Server(show_ip=False, capture_video=False)]
    and, with [peer] set, after a first successful [accept]. *)
Definition plain_server (peer : option sock_id) : Endpoint :=
  {| socket := 0%nat; host_name := "host"; host_ip := "127.0.0.1";
     capture_video := false; screen_resolution := WH 640 480;
     video_source := 0; verbose := false; timed_out := false;
     video := None; socket_type := None;
     server_socket := Some 0%nat; client_socket := peer |}.

(** A client whose connection will deliver [rx]. *)
Definition client_on (rx : list rx_event) : State :=
  {| self := plain_client; os := quiet_world [connection rx []] |}.

(** A server with its listening socket and one accepted connection. *)
Definition server_on (rx : list rx_event) : State :=
  {| self := plain_server (Some 1%nat);
     os := quiet_world [fresh_socket; connection rx []] |}.

Definition segment (bs : bytes) : list rx_event := requeue bs [].

(** A length prefix announcing 10 bytes, 4 bytes of payload, then the
    peer closes. *)
Definition truncated_wire : bytes :=
  Struct.le_bytes 8 10 ++ [Byte.x01; Byte.x02; Byte.x03; Byte.x04].

(** Two messages back to back, with payloads of 2 bytes and of 1 byte. *)
Definition first_message : bytes := Struct.le_bytes 8 2 ++ [Byte.x80; Byte.x07].
Definition second_message : bytes := Struct.le_bytes 8 1 ++ [Byte.x80].
Definition pipelined_wire : bytes := first_message ++ second_message.

(** The same bytes, the network delivering the first four on their own. *)
Definition pipelined_split : list rx_event :=
  segment (take 4 pipelined_wire) ++ segment (drop 4 pipelined_wire).

(** *** Connection attempts, for either role *)

Definition timeout_of (c : call) : Z :=
  match c with
  | CallServerConnect _ timeout | CallClientConnect _ _ timeout => timeout
  | _ => 0
  end.

(** The call is a [connect] that will get as far as its attempt: the
    socket is open and the arguments need no prompt. *)
Definition ready (c : call) (st : State) : Prop :=
  match c with
  | CallServerConnect port _ =>
      exists ss, server_socket (self st) = Some ss /\ live ss (os st) /\
                 can_listen port st
  | CallClientConnect ip port _ =>
      exists s i p, ip = Some i /\ port = Some p /\
                    client_socket (self st) = Some s /\ live s (os st) /\
                    can_dial i p st
  | _ => False
  end.

(** The [j]-th attempt from now fails, respectively succeeds. *)
Definition refused (c : call) (st : State) (j : nat) : Prop :=
  match c with
  | CallServerConnect _ _ =>
      accept_script (os st) (accept_calls (os st) + j)%nat = None
  | CallClientConnect _ _ _ =>
      dial_script (os st) (dial_calls (os st) + j)%nat = None
  | _ => False
  end.

Definition granted (c : call) (st : State) (j : nat) : Prop :=
  match c with
  | CallServerConnect _ _ =>
      is_Some (accept_script (os st) (accept_calls (os st) + j)%nat)
  | CallClientConnect _ _ _ =>
      is_Some (dial_script (os st) (dial_calls (os st) + j)%nat)
  | _ => False
  end.

(** A stretch of trace without attempts and without sleeps *)
Definition idle (tr : list event) : Prop :=
  attempts tr = 0%nat /\ sleeps tr = 0%nat.

(** [st] is an endpoint just built by [Server(...)] or [Client(...)]
    with the given [capture_video]. *)
Definition constructed (capture : bool) (st : State) : Prop :=
  exists name show_ip res src vb w0,
    Server_init name show_ip capture res src vb w0 = Done (self st) (os st) \/
    Client_init name show_ip capture res src vb w0 = Done (self st) (os st).

(** A server and a client before any connection, on a network where
    every attempt fails. *)
Definition lone_server : State :=
  {| self := plain_server None; os := quiet_world [fresh_socket] |}.

Definition lone_client : State :=
  {| self := plain_client; os := quiet_world [fresh_socket] |}.

(** The same endpoints on a network where the first [k] attempts fail and
    the next one reaches a peer that will send [rx]. *)
Definition after_refusals (k : nat) (rx : list rx_event) (w : World) : World :=
  {| byteorder := byteorder w; hostname := hostname w; hostip := hostip w;
     sockets := sockets w; bind_script := bind_script w;
     accept_script := fun n =>
       if (n <? k)%nat then None
       else Some ("192.168.1.20"%string, {| peer_rx := rx; peer_tx := [] |});
     accept_calls := accept_calls w;
     dial_script := fun n =>
       if (n <? k)%nat then None else Some {| peer_rx := rx; peer_tx := [] |};
     dial_calls := dial_calls w;
     camera_opens := camera_opens w; camera := camera w; keys := keys w;
     stdin := stdin w; trace := trace w |}.

Definition patient_server (k : nat) : State :=
  {| self := plain_server None;
     os := after_refusals k [] (quiet_world [fresh_socket]) |}.

Definition patient_client (k : nat) : State :=
  {| self := plain_client;
     os := after_refusals k [] (quiet_world [fresh_socket]) |}.

(** A client just built, whose first [connect] will reach a peer that
    sends one whole message. *)
Definition client_before_call : State :=
  {| self := plain_client;
     os := after_refusals 0 (segment first_message) (quiet_world [fresh_socket]) |}.

(** The calls [connect("192.168.1.20", 5000)] and [connect(5000)], with a
    time-out of [t] seconds. *)
Definition dial (t : Z) : call :=
  CallClientConnect (Some "192.168.1.20"%string) (Some 5000) t.

Definition listen (t : Z) : call := CallServerConnect (Some 5000) t.

(** That client once [connect] has succeeded, and once the message has
    been read. *)
Definition ringing_peer : PeerScript :=
  {| peer_rx := segment first_message; peer_tx := [] |}.

Definition client_after_call : State :=
  Client_connected 0%nat fresh_socket (Some "192.168.1.20"%string) ringing_peer
    (Client_prelude (Some "192.168.1.20"%string) (Some 5000) client_before_call).

Definition client_after_message : State :=
  rx_set 0%nat (established ringing_peer fresh_socket) [] client_after_call.

(** A client whose socket [close] has closed. *)
Definition client_closed : State :=
  {| self := plain_client;
     os := set_trace [EvDestroyAllWindows]
             (quiet_world [with_closed (connection [] [])]) |}.

(** A connected client whose next [sendall] breaks after 3 bytes. *)
Definition client_broken_pipe : State :=
  {| self := plain_client; os := quiet_world [connection [] [Some 3%nat]] |}.

(** ** Further notions and scenarios *)

(** The port that [_set_port] reads off a line typed at its prompt, if it
    takes the line: four characters that [int] converts. *)
Definition port_of_line (l : string) : option Z :=
  if Nat.eqb (String.length l) 4 then py_int l else None.

(** Socket [c] is not the endpoint's own [self.socket], it exists, and it
    is open for as long as [client_socket] names it. *)
Definition kept_open (c : sock_id) (st : State) : Prop :=
  socket (self st) <> c /\ (c < length (sockets (os st)))%nat /\
  (client_socket (self st) = Some c -> live c (os st)).

(** The [Video] member of [Client(show_ip=False)] when the camera opens. *)
Definition web_cam : VideoObj :=
  {| win_name := "Client"; source := 0; v_verbose := false;
     resolution := WH 640 480 |}.

Definition filming_client : Endpoint :=
  {| socket := 0%nat; host_name := "host"; host_ip := "127.0.0.1";
     capture_video := true; screen_resolution := WH 640 480;
     video_source := 0; verbose := false; timed_out := false;
     video := Some web_cam; socket_type := None;
     server_socket := None; client_socket := Some 0%nat |}.

(** A connected client with capture on: the peer will send [rx], the
    camera will deliver [cam] and the user's key presses are [ks]. *)
Definition studio (rx : list rx_event) (cam : list (option ndarray))
    (ks : list bool) : State :=
  {| self := filming_client;
     os := set_keys ks (set_camera cam (quiet_world [connection rx []])) |}.

(** A server on which the caller has set [socket_type] by hand, with
    [lines] waiting on standard input. *)
Definition named_server (lines : list string) : State :=
  {| self := {| socket := 0%nat; host_name := "host"; host_ip := "127.0.0.1";
                capture_video := false; screen_resolution := WH 640 480;
                video_source := 0; verbose := false; timed_out := false;
                video := None; socket_type := Some "Server"%string;
                server_socket := Some 0%nat; client_socket := None |};
     os := set_stdin lines (quiet_world [fresh_socket]) |}.

(** A server just built, on a machine where the port is taken. *)
Definition busy_port_server : State :=
  {| self := plain_server None;
     os := set_bind_script [false] (quiet_world [fresh_socket]) |}.

(** A server whose earlier [connect] has failed, with a peer now calling. *)
Definition late_server : State :=
  {| self := set_timed_out true (plain_server None);
     os := after_refusals 0 [] (quiet_world [fresh_socket]) |}.

(** Such a server that holds a connection accepted earlier. *)
Definition late_server_busy : State :=
  {| self := set_timed_out true (plain_server (Some 1%nat));
     os := after_refusals 0 [] (quiet_world [fresh_socket; connection [] []]) |}.

(** That server after [close]. *)
Definition late_server_closed : State :=
  {| self := set_timed_out true (plain_server None);
     os := set_trace [EvDestroyAllWindows]
             (after_refusals 0 [] (quiet_world [with_closed fresh_socket])) |}.

(** A machine whose camera does not open. *)
Definition no_camera : World :=
  {| byteorder := Struct.little; hostname := "host";
     hostip := Some "127.0.0.1"%string;
     sockets := []; bind_script := [];
     accept_script := fun _ => None; accept_calls := 0;
     dial_script := fun _ => None; dial_calls := 0;
     camera_opens := false; camera := []; keys := []; stdin := [];
     trace := [] |}.

(** A server with an accepted connection, after [close]. *)
Definition server_closed (rx : list rx_event) : State :=
  {| self := plain_server (Some 1%nat);
     os := set_trace [EvDestroyAllWindows]
             (quiet_world [with_closed fresh_socket; connection rx []]) |}.


End Model.

(** ** A stand-in for the collaborators, to run scenarios on

    A frame is a byte string, its pickle is the protocol marker [0x80]
    followed by the bytes, resizing keeps the first [w * h] bytes and
    [int] reads decimal digits. *)

Definition digit_value (a : Ascii.ascii) : option Z :=
  let n := Z.of_nat (Ascii.nat_of_ascii a) in
  if (48 <=? n) && (n <=? 57) then Some (n - 48) else None.

Fixpoint decimal (acc : Z) (s : string) : option Z :=
  match s with
  | EmptyString => Some acc
  | String a rest =>
      match digit_value a with
      | Some d => decimal (10 * acc + d) rest
      | None => None
      end
  end.

Definition raw_frames : Externals :=
  {| ndarray := bytes;
     pickle_dumps := fun f => Byte.x80 :: f;
     pickle_loads := fun d => match d with
                              | Byte.x80 :: f => Some f
                              | _ => None
                              end;
     cv2_resize := fun f w h =>
       if (0 <? w) && (0 <? h) then Some (slice_to (w * h) f) else None;
     py_int := fun s => match s with
                        | EmptyString => None
                        | _ => decimal 0 s
                        end |}.

(** A connected client with capture on that holds one whole message and
    whose camera has one frame to deliver. *)
Definition film_set : State (H := raw_frames) :=
  studio (H := raw_frames) (segment first_message) [Some [Byte.x09]] [].

(** * Properties *)

(** ** Slices and the length prefix *)

Lemma slice_to_from {A} (n : Z) (l : list A) :
  slice_to n l ++ slice_from n l = l.
Proof.
  revert n; induction l as [|x t IH]; intros n; simpl; [reflexivity|].
  destruct (n <=? 0); simpl; [reflexivity|]. now rewrite IH.
Qed.

Lemma slice_to_app {A} (a b : list A) : slice_to (len a) (a ++ b) = a.
Proof.
  unfold len. induction a as [|x t IH]; cbn [app length slice_to].
  - destruct b; reflexivity.
  - destruct (Z.leb_spec (Z.of_nat (S (length t))) 0) as [Hle|_]; [lia|].
    replace (Z.of_nat (S (length t)) - 1) with (Z.of_nat (length t)) by lia.
    now rewrite IH.
Qed.

Lemma slice_from_app {A} (a b : list A) : slice_from (len a) (a ++ b) = b.
Proof.
  unfold len. induction a as [|x t IH]; cbn [app length slice_from].
  - destruct b; reflexivity.
  - destruct (Z.leb_spec (Z.of_nat (S (length t))) 0) as [Hle|_]; [lia|].
    replace (Z.of_nat (S (length t)) - 1) with (Z.of_nat (length t)) by lia.
    exact IH.
Qed.

Lemma slice_to_all {A} (n : Z) (l : list A) : len l <= n -> slice_to n l = l.
Proof.
  unfold len. revert n; induction l as [|x t IH]; intros n Hn;
    cbn [length slice_to] in *; [reflexivity|].
  destruct (Z.leb_spec n 0); [lia|]. f_equal. apply IH. lia.
Qed.

Lemma byte_of_Z_inv (z : Z) :
  0 <= z < 256 -> Struct.Z_of_byte (Struct.byte_of_Z z) = z.
Proof.
  intros Hz. unfold Struct.Z_of_byte, Struct.byte_of_Z.
  destruct (Byte.of_N (Z.to_N z)) as [b|] eqn:E.
  - apply Byte.to_of_N in E. rewrite E. lia.
  - apply Byte.of_N_None_iff in E. lia.
Qed.

Lemma le_bytes_length (k : nat) (n : Z) : length (Struct.le_bytes k n) = k.
Proof. revert n; induction k; intros n; simpl; [reflexivity|]. now rewrite IHk. Qed.

Lemma le_value_le_bytes (k : nat) (n : Z) :
  0 <= n -> Struct.le_value (Struct.le_bytes k n) = n mod 256 ^ Z.of_nat k.
Proof.
  revert n; induction k as [|k IH]; intros n Hn.
  - simpl. now rewrite Z.mod_1_r.
  - cbn [Struct.le_bytes Struct.le_value].
    rewrite byte_of_Z_inv by (apply Z.mod_pos_bound; lia).
    rewrite IH by (apply Z.div_pos; lia).
    rewrite Nat2Z.inj_succ, Z.pow_succ_r by lia.
    rewrite Z.rem_mul_r; lia.
Qed.

(** [struct.pack("Q", n)] is 8 bytes long. *)
Lemma pack_Q_inv (bo : Struct.byteorder) (n : Z) (p : bytes) :
  Struct.pack_Q bo n = Some p ->
  0 <= n < 2 ^ 64 /\
  p = match bo with
      | Struct.little => Struct.le_bytes Struct.calcsize_Q n
      | Struct.big => rev (Struct.le_bytes Struct.calcsize_Q n)
      end.
Proof.
  unfold Struct.pack_Q.
  destruct (Z.leb_spec 0 n); destruct (Z.ltb_spec n (2 ^ 64));
    cbn [andb]; intros E; try discriminate.
  split; [lia|congruence].
Qed.

(** [struct.pack("Q", n)] is 8 bytes long. *)
Lemma pack_Q_length (bo : Struct.byteorder) (n : Z) (p : bytes) :
  Struct.pack_Q bo n = Some p -> length p = 8%nat.
Proof.
  intros Hp. apply pack_Q_inv in Hp as [_ ->].
  destruct bo; rewrite ?length_rev; apply le_bytes_length.
Qed.

(** [struct.pack("Q", n)] succeeds on every 64-bit unsigned [n]. *)
Lemma pack_Q_defined (bo : Struct.byteorder) (n : Z) :
  0 <= n < 2 ^ 64 -> exists p, Struct.pack_Q bo n = Some p.
Proof.
  intros Hn. unfold Struct.pack_Q.
  destruct (Z.leb_spec 0 n); destruct (Z.ltb_spec n (2 ^ 64)); try lia.
  cbn [andb]. eauto.
Qed.

(** [struct.unpack] undoes [struct.pack] under one byte order. *)
Lemma unpack_pack_Q (bo : Struct.byteorder) (n : Z) (p : bytes) :
  Struct.pack_Q bo n = Some p -> Struct.unpack_Q bo p = Some n.
Proof.
  intros Hp. unfold Struct.unpack_Q. rewrite (pack_Q_length _ _ _ Hp).
  change (Nat.eqb 8 Struct.calcsize_Q) with true. cbv iota.
  apply pack_Q_inv in Hp as [Hn ->]. f_equal.
  assert (E : Struct.le_value (Struct.le_bytes Struct.calcsize_Q n) = n).
  { rewrite le_value_le_bytes by lia. apply Z.mod_small.
    change (256 ^ Z.of_nat Struct.calcsize_Q) with (2 ^ 64). lia. }
  destruct bo; [exact E|]. now rewrite rev_involutive.
Qed.

Section Properties.
Context `{Externals}.

Ltac mon :=
  cbv beta iota zeta delta
    [bind ret raise gets modify of_option try_except out_of_fuel
     sys attr need_attr assign live_sock get_sock put_sock emit
     Logger time_sleep self os].

(** ** Combinators for [keeps] *)

Lemma keeps_ret {S A} (P : S -> Prop) (a : A) : keeps P (ret a).
Proof. intros s Hs; exact Hs. Qed.

Lemma keeps_raise {S A} (P : S -> Prop) (e : exn) : keeps P (raise (A:=A) e).
Proof. intros s Hs; exact Hs. Qed.

Lemma keeps_out_of_fuel {S A} (P : S -> Prop) : keeps P (out_of_fuel (A:=A)).
Proof. intros s Hs; exact I. Qed.

Lemma keeps_of_option {S A} (P : S -> Prop) (e : exn) (o : option A) :
  keeps P (of_option e o).
Proof. destruct o; intros s Hs; exact Hs. Qed.

Lemma keeps_bind {S A B} (P : S -> Prop) (m : M S A) (k : A -> M S B) :
  keeps P m -> (forall a, keeps P (k a)) -> keeps P (bind m k).
Proof.
  intros Hm Hk s Hs. unfold bind. specialize (Hm s Hs).
  destruct (m s) as [a s'| |]; auto. now apply Hk.
Qed.

Lemma keeps_try {S A} (P : S -> Prop) (body handler : M S A) :
  keeps P body -> keeps P handler -> keeps P (try_except body handler).
Proof.
  intros Hb Hh s Hs. unfold try_except. specialize (Hb s Hs).
  destruct (body s) as [a s'|e s'|]; auto. now apply Hh.
Qed.

Lemma keeps_sys {A} (Q : Endpoint -> Prop) (m : M World A) :
  keeps (on_self Q) (sys m).
Proof.
  intros [e w] Hs. unfold sys, on_self in *. cbn [self os] in *.
  destruct (m w); auto.
Qed.

Lemma keeps_attr {A} (Q : Endpoint -> Prop) (f : Endpoint -> A) :
  keeps (on_self Q) (attr f).
Proof. intros s Hs; exact Hs. Qed.

Lemma keeps_need_attr {A} (Q : Endpoint -> Prop) (f : Endpoint -> option A) :
  keeps (on_self Q) (need_attr f).
Proof.
  intros s Hs. unfold need_attr, attr, gets, bind. destruct (f (self s)); exact Hs.
Qed.

Lemma keeps_assign (Q : Endpoint -> Prop) (f : Endpoint -> Endpoint) :
  (forall e, Q e -> Q (f e)) -> keeps (on_self Q) (assign f).
Proof. intros Hf [e w] Hs. now apply Hf. Qed.

Create HintDb keeps_db.

Ltac keeps_step :=
  first
    [ assumption
    | solve [auto 1 with keeps_db nocore]
    | apply keeps_ret | apply keeps_raise | apply keeps_out_of_fuel
    | apply keeps_of_option | apply keeps_sys | apply keeps_attr
    | apply keeps_need_attr
    | apply keeps_try
    | apply keeps_bind; [|intros ?]
    | match goal with
      | |- keeps _ (if ?b then _ else _) => destruct b
      | |- keeps _ (match ?x with _ => _ end) => destruct x
      | |- keeps _ (let (_, _) := ?x in _) => destruct x
      end ].

Ltac keeps_all := repeat keeps_step.

(** ** No method but [connect] touches the attributes *)

Lemma send_keeps Q frame res show : keeps (on_self Q) (send frame res show).
Proof. unfold send. keeps_all. Qed.

Lemma receive_size_keeps Q fuel data : keeps (on_self Q) (receive_size fuel data).
Proof.
  revert data; induction fuel as [|fuel IH]; intros data; cbn [receive_size];
    keeps_all; apply IH.
Qed.

Lemma receive_payload_keeps Q fuel n data :
  keeps (on_self Q) (receive_payload fuel n data).
Proof.
  revert data; induction fuel as [|fuel IH]; intros data; cbn [receive_payload];
    keeps_all; apply IH.
Qed.

#[local] Hint Resolve receive_size_keeps receive_payload_keeps : keeps_db.

Lemma receive_keeps Q fuel show : keeps (on_self Q) (receive fuel show).
Proof. unfold receive. keeps_all. Qed.

Lemma is_connected_keeps Q : keeps (on_self Q) is_connected.
Proof. unfold is_connected. keeps_all. Qed.

Lemma close_keeps Q : keeps (on_self Q) close.
Proof. unfold close. keeps_all. Qed.

Lemma unpack_pair_keeps Q r : keeps (on_self Q) (unpack_pair r).
Proof. unfold unpack_pair. keeps_all. Qed.

#[local] Hint Resolve send_keeps receive_keeps is_connected_keeps close_keeps
  unpack_pair_keeps : keeps_db.

Lemma Server_start_keeps Q fuel : keeps (on_self Q) (Server_start fuel).
Proof. induction fuel as [|fuel IH]; cbn [Server_start]; keeps_all. Qed.

Lemma Client_start_keeps Q fuel : keeps (on_self Q) (Client_start fuel).
Proof. induction fuel as [|fuel IH]; cbn [Client_start]; keeps_all. Qed.

Lemma port_prompts_keeps Q n : keeps (on_self Q) (port_prompts n).
Proof. induction n as [|n IH]; cbn [port_prompts]; keeps_all. Qed.

#[local] Hint Resolve port_prompts_keeps : keeps_db.

Lemma set_port_keeps Q : keeps (on_self Q) _set_port.
Proof. unfold _set_port. keeps_all. Qed.

Lemma set_ip_keeps Q : keeps (on_self Q) _set_ip.
Proof. unfold _set_ip. keeps_all. Qed.

#[local] Hint Resolve set_port_keeps set_ip_keeps : keeps_db.

(** ** [connect] keeps what the two assignments keep *)

Lemma release_keeps Q old : keeps (on_self Q) (release old).
Proof. unfold release. keeps_all. Qed.

#[local] Hint Resolve release_keeps : keeps_db.

Lemma Server_connect_keeps Q fuel port timeout :
  stable Q -> keeps (on_self Q) (Server_connect fuel port timeout).
Proof.
  intros [Ht Hc]. revert port.
  induction fuel as [|fuel IH]; intros port; cbn [Server_connect]; keeps_all;
    try (apply keeps_assign; auto); apply IH.
Qed.

Lemma Client_connect_keeps Q fuel ip port timeout :
  stable Q -> keeps (on_self Q) (Client_connect fuel ip port timeout).
Proof.
  intros [Ht Hc]. revert ip port.
  induction fuel as [|fuel IH]; intros ip port; cbn [Client_connect]; keeps_all;
    try (apply keeps_assign; auto); apply IH.
Qed.

#[local] Hint Resolve Server_start_keeps Client_start_keeps : keeps_db.

Lemma run_keeps Q fuel c : stable Q -> keeps (on_self Q) (run fuel c).
Proof.
  intros HQ. destruct c; cbn [run]; keeps_all;
    auto using Server_connect_keeps, Client_connect_keeps.
Qed.

Lemma after_keeps Q st st' :
  stable Q -> rtc after st st' -> Q (self st) -> Q (self st').
Proof.
  intros HQ Hr. induction Hr as [|st st1 st2 (fuel & c & Hstep) _ IH]; [auto|].
  intros Hs. apply IH. pose proof (run_keeps Q fuel c HQ st Hs) as Hk.
  destruct (run fuel c st); subst; auto. contradiction.
Qed.

Lemma stable_client_socket : stable (fun e => is_Some (client_socket e)).
Proof. split; intros; cbn; eauto. Qed.

Lemma stable_no_video : stable (fun e => video e = None).
Proof. split; intros; cbn; auto. Qed.

(** ** [recv] on a stream in a known condition *)

Lemma recv_closed_stream (c : sock_id) (n : Z) (w : World) (sk : SockState) :
  sockets w !! c = Some sk -> closed sk = false -> connected sk = true ->
  inbound sk = [] -> 0 <= n <= PY_SSIZE_T_MAX ->
  sock_recv c n w = Done [] w.
Proof.
  intros Hs Hc Hn Hi Hr. unfold sock_recv.
  destruct (Z.ltb_spec n 0); [lia|].
  destruct (Z.ltb_spec PY_SSIZE_T_MAX n); [lia|].
  mon. rewrite Hs, Hc, Hn, Hi. reflexivity.
Qed.

(** Once the peer has closed with part of the payload delivered, the
    second loop of [receive] makes no progress: [recv] returns [b""],
    [data] stays non-empty and shorter than [msg_size]. *)
Lemma receive_payload_stalls (fuel : nat) (msg_size : Z) (data : bytes)
    (st : State) (c : sock_id) (sk : SockState) :
  client_socket (self st) = Some c ->
  sockets (os st) !! c = Some sk ->
  closed sk = false -> connected sk = true -> inbound sk = [] ->
  data <> [] -> len data < msg_size <= PY_SSIZE_T_MAX ->
  receive_payload fuel msg_size data st = OutOfFuel.
Proof.
  intros Hc Hs Hcl Hco Hi Hd Hm.
  induction fuel as [|fuel IH]; [reflexivity|].
  cbn [receive_payload].
  destruct (Z.ltb_spec (len data) msg_size); [|lia].
  destruct st as [e w]; cbn [self os] in *.
  mon. rewrite Hc.
  rewrite (recv_closed_stream c msg_size w sk) by (auto; unfold len in *; lia).
  rewrite app_nil_r. destruct data; [congruence|].
  exact IH.
Qed.

(** [receive], one decision at a time. *)
Lemma receive_eq (fuel : nat) (show : bool) (st : State) :
  receive fuel show st =
  match receive_size fuel [] st with
  | Done data st1 =>
      match Struct.unpack_Q (byteorder (os st1)) (take payload_size data) with
      | None => Done RxNone st1
      | Some msg_size =>
          match receive_payload fuel msg_size (drop payload_size data) st1 with
          | Done data st2 =>
              match pickle_loads (slice_to msg_size data) with
              | None => Done RxNone st2
              | Some frame =>
                  if show then shown frame st2
                  else Done (RxTuple true (Some frame)) st2
              end
          | Raised _ st2 => Done RxNone st2
          | OutOfFuel => OutOfFuel
          end
      end
  | Raised _ st1 => Done RxNone st1
  | OutOfFuel => OutOfFuel
  end.
Proof.
  unfold receive, shown. mon.
  destruct (receive_size fuel [] st) as [data [e1 w1]| |]; try reflexivity.
  destruct (Struct.unpack_Q _ _); try reflexivity.
  destruct (receive_payload _ _ _ _) as [data' [e2 w2]| |]; try reflexivity.
  destruct (pickle_loads _); try reflexivity.
  destruct show; try reflexivity.
  destruct (video e2); try reflexivity.
  destruct (Video_show _ _ _); reflexivity.
Qed.

Ltac innermost x :=
  lazymatch x with
  | context [match ?y with _ => _ end] => innermost y
  | _ => destruct x
  end.

Ltac split_cases :=
  repeat match goal with
         | |- context [match ?x with _ => _ end] => innermost x
         end.

(** [receive] hands back [(True, frame)] or [None], nothing else. *)
Lemma receive_result_shape fuel show st r st' :
  receive fuel show st = Done r st' ->
  r = RxNone \/ exists frame, r = RxTuple true (Some frame).
Proof.
  rewrite receive_eq. unfold shown.
  split_cases; intros [= <- <-]; eauto.
Qed.

(** The bare [except] lets nothing out of [receive]. *)
Lemma receive_never_raises fuel show st e st' :
  receive fuel show st <> Raised e st'.
Proof. rewrite receive_eq. unfold shown. split_cases; discriminate. Qed.

(** ** A message that is buffered whole *)

Lemma recv_segment (c : sock_id) (n : Z) (w : World) (sk : SockState) b bs rest :
  sockets w !! c = Some sk -> closed sk = false -> connected sk = true ->
  inbound sk = Segment b bs :: rest -> 0 <= n <= PY_SSIZE_T_MAX ->
  sock_recv c n w =
  Done (slice_to n (b :: bs))
       (set_sockets (<[c := with_inbound (requeue (slice_from n (b :: bs)) rest) sk]>
                       (sockets w)) w).
Proof.
  intros Hs Hc Hn Hi Hr. unfold sock_recv.
  destruct (Z.ltb_spec n 0); [lia|].
  destruct (Z.ltb_spec PY_SSIZE_T_MAX n); [lia|].
  mon. rewrite Hs, Hc, Hn, Hi. reflexivity.
Qed.

Lemma pending_requeue l rest : pending (requeue l rest) = l ++ pending rest.
Proof. destruct l; reflexivity. Qed.

Lemma unread_rx_set c sk evs st :
  (c < length (sockets (os st)))%nat -> unread c (rx_set c sk evs st) = pending evs.
Proof.
  intros Hc. unfold unread, rx_set. cbn.
  rewrite list_lookup_insert_eq by exact Hc. reflexivity.
Qed.

Lemma receive_size_buffered fuel st c sk prefix more rest :
  client_socket (self st) = Some c ->
  sockets (os st) !! c = Some sk ->
  closed sk = false -> connected sk = true ->
  inbound sk = requeue (prefix ++ more) rest ->
  length prefix = payload_size ->
  receive_size (S (S fuel)) [] st = Done prefix (rx_set c sk (requeue more rest) st).
Proof.
  intros Hc Hs Hcl Hco Hi Hl.
  destruct prefix as [|b bs]; [discriminate|].
  destruct st as [e w]; cbn [self os] in *.
  cbn [receive_size]. change (length [] <? payload_size)%nat with true. cbv iota.
  mon. rewrite Hc.
  rewrite (recv_segment c _ w sk b (bs ++ more) rest)
    by (auto; vm_compute; split; congruence).
  change (b :: bs ++ more) with ((b :: bs) ++ more).
  replace (Z.of_nat payload_size) with (len (b :: bs)) by (unfold len; now rewrite Hl).
  rewrite slice_to_app, slice_from_app. cbn [app].
  rewrite Hl. reflexivity.
Qed.

Lemma receive_payload_buffered fuel st c sk b bs more rest :
  client_socket (self st) = Some c ->
  sockets (os st) !! c = Some sk ->
  closed sk = false -> connected sk = true ->
  inbound sk = requeue ((b :: bs) ++ more) rest ->
  len (b :: bs) <= PY_SSIZE_T_MAX ->
  receive_payload (S (S fuel)) (len (b :: bs)) [] st
  = Done (b :: bs) (rx_set c sk (requeue more rest) st).
Proof.
  intros Hc Hs Hcl Hco Hi Hl.
  destruct st as [e w]; cbn [self os] in *.
  cbn [receive_payload].
  destruct (Z.ltb_spec (len (@nil byte)) (len (b :: bs))) as [_|Hn];
    [|unfold len in Hn; cbn [length] in Hn; lia].
  mon. rewrite Hc.
  rewrite (recv_segment c _ w sk b (bs ++ more) rest)
    by (auto; unfold len in *; lia).
  change (b :: bs ++ more) with ((b :: bs) ++ more).
  rewrite slice_to_app, slice_from_app. cbn [app].
  rewrite Z.ltb_irrefl. reflexivity.
Qed.

(** When the whole message [pack ++ payload] is at hand, [receive]
    takes exactly these bytes and leaves [more] for the next call. *)
Lemma receive_buffered fuel show st c sk pack payload more rest :
  client_socket (self st) = Some c ->
  sockets (os st) !! c = Some sk ->
  closed sk = false -> connected sk = true ->
  inbound sk = requeue (pack ++ payload ++ more) rest ->
  Struct.pack_Q (byteorder (os st)) (len payload) = Some pack ->
  len payload <= PY_SSIZE_T_MAX ->
  exists st2,
    self st2 = self st /\
    unread c st2 = more ++ pending rest /\
    receive (S (S fuel)) show st =
    match pickle_loads payload with
    | None => Done RxNone st2
    | Some frame =>
        if show then shown frame st2 else Done (RxTuple true (Some frame)) st2
    end.
Proof.
  intros Hc Hs Hcl Hco Hi Hp Hl.
  pose proof (pack_Q_length _ _ _ Hp) as Hlen.
  pose proof (lookup_lt_Some _ _ _ Hs) as Hlt.
  rewrite receive_eq.
  rewrite (receive_size_buffered fuel st c sk pack (payload ++ more) rest)
    by assumption.
  change (byteorder (os (rx_set c sk (requeue (payload ++ more) rest) st)))
    with (byteorder (os st)).
  rewrite take_ge by (rewrite Hlen; reflexivity).
  rewrite (unpack_pack_Q _ _ _ Hp).
  rewrite drop_ge by (rewrite Hlen; reflexivity).
  destruct payload as [|b bs].
  - exists (rx_set c sk (requeue more rest) st).
    split; [reflexivity|]. split.
    + rewrite unread_rx_set by exact Hlt. apply pending_requeue.
    + reflexivity.
  - set (st1 := rx_set c sk (requeue ((b :: bs) ++ more) rest) st).
    set (sk1 := with_inbound (requeue ((b :: bs) ++ more) rest) sk).
    assert (Hs1 : sockets (os st1) !! c = Some sk1).
    { unfold st1, rx_set. cbn. now rewrite list_lookup_insert_eq. }
    rewrite (receive_payload_buffered fuel st1 c sk1 b bs more rest)
      by (auto; destruct st; exact Hc).
    exists (rx_set c sk1 (requeue more rest) st1).
    split; [reflexivity|]. split.
    + rewrite unread_rx_set; [apply pending_requeue|].
      unfold st1, rx_set. cbn. now rewrite length_insert.
    + rewrite slice_to_all by lia. reflexivity.
Qed.

Ltac fields :=
  cbn [self os byteorder hostname hostip sockets bind_script accept_script
       accept_calls dial_script dial_calls camera_opens camera keys stdin trace
       set_sockets set_bind_script set_accept_calls set_dial_calls set_camera
       set_keys set_stdin set_trace
       socket host_name host_ip capture_video screen_resolution video_source
       verbose timed_out video socket_type server_socket client_socket
       set_timed_out set_client_socket set_server_socket
       closed connected so_timeout inbound tx_script outbound
       with_closed with_timeout with_inbound with_sent established
       negb andb orb] in *.

(** ** The socket calls of [connect] under known conditions *)

Lemma live_frame s w w' : sockets w' = sockets w -> live s w -> live s w'.
Proof. unfold live. now intros ->. Qed.

Lemma live_timeout s sk t w :
  sockets w !! s = Some sk -> closed sk = false ->
  live s (set_sockets (<[s := with_timeout t sk]> (sockets w)) w).
Proof.
  intros Hs Hc. exists (with_timeout t sk). fields.
  rewrite list_lookup_insert_eq by (eapply lookup_lt_Some; eauto). auto.
Qed.


Lemma listen_live s b w : live s w -> sock_listen s b w = Done tt w.
Proof. intros (sk & Hs & Hc). unfold sock_listen. mon. now rewrite Hs, Hc. Qed.

Lemma bind_succeeds s ip p w :
  live s w -> 0 <= p <= 65535 -> bind_will_succeed w ->
  sock_bind s ip p w = Done tt (bind_done w).
Proof.
  intros (sk & Hs & Hc) Hp Hb. unfold sock_bind, bind_done, bind_will_succeed in *.
  assert (Hr : ((p <? 0) || (65535 <? p)) = false) by lia. rewrite Hr.
  mon. rewrite Hs, Hc.
  destruct (bind_script w) as [|[|] bs] eqn:Hbs; cbn in *; try congruence.
  destruct w; cbn in *; now subst.
Qed.

Lemma accept_fails s w :
  live s w -> accept_script w (accept_calls w) = None ->
  sock_accept s w = Raised OSError (accept_refused s w).
Proof.
  intros (sk & Hs & Hc) Hn. unfold sock_accept. mon. rewrite Hs, Hc. fields.
  now rewrite Hn.
Qed.

Lemma accept_succeeds s w addr peer :
  live s w -> accept_script w (accept_calls w) = Some (addr, peer) ->
  sock_accept s w = Done (length (sockets w), addr) (accept_granted s peer w).
Proof.
  intros (sk & Hs & Hc) Hn. unfold sock_accept, socket_socket. mon.
  rewrite Hs, Hc. fields. now rewrite Hn.
Qed.

Lemma dial_fails s i p w :
  live s w -> dial_script w (dial_calls w) = None ->
  sock_connect s (Some i) (Some p) w = Raised OSError (dial_refused s w).
Proof.
  intros (sk & Hs & Hc) Hn. unfold sock_connect. mon. rewrite Hs, Hc. fields.
  now rewrite Hn.
Qed.

Lemma dial_succeeds s sk i p w peer :
  sockets w !! s = Some sk -> closed sk = false ->
  dial_script w (dial_calls w) = Some peer ->
  sock_connect s (Some i) (Some p) w = Done tt (dial_granted s sk peer w).
Proof.
  intros Hs Hc Hn. unfold sock_connect. mon. rewrite Hs, Hc. fields.
  now rewrite Hn.
Qed.

Lemma close_eq o w : sock_close o w = Done tt (closed_at o w).
Proof. unfold sock_close, closed_at. now destruct (sockets w !! o). Qed.

Lemma release_eq old e w :
  release old {| self := e; os := w |}
  = Done tt {| self := e; os := let_go old e w |}.
Proof.
  unfold release, let_go. destruct old as [o|]; [|reflexivity].
  mon. destruct (referenced o e); [reflexivity|]. now rewrite close_eq.
Qed.

Ltac side :=
  first [ assumption | lia | reflexivity
        | eapply live_frame; [|eassumption]; reflexivity
        | eapply live_timeout; eassumption
        | eapply live_frame; [|eapply live_timeout; eassumption]; reflexivity ].

(** ** One activation of [Server.connect] whose [accept] fails *)

Lemma Server_connect_retry port st ss fuel :
  server_socket (self st) = Some ss -> live ss (os st) -> can_listen port st ->
  accept_script (os st) (accept_calls (os st)) = None ->
  Server_connect (S fuel) port 0 st
  = Server_connect fuel port 0 (Server_retry ss (Server_prelude port st)).
Proof.
  intros Hss Hlive Hl Hn. destruct st as [e w].
  unfold can_listen, Server_prelude, Server_retry, slept, logged in *. fields.
  cbn [Server_connect]. change (0 =? 0) with true. mon.
  destruct (timed_out e) eqn:Ht; fields.
  - repeat (mon; progress rewrite ?Hss, ?listen_live, ?accept_fails by side).
    reflexivity.
  - destruct Hl as [|[(p & -> & Hp0 & Hp) Hb]]; [discriminate|].
    cbn [truthy_int default]. assert (Hz : (p =? 0) = false) by lia. rewrite Hz. fields.
    repeat (mon; progress rewrite ?Hss, ?bind_succeeds, ?listen_live, ?accept_fails by side).
    reflexivity.
Qed.



Lemma Server_connect_accepts port st ss addr peer fuel :
  server_socket (self st) = Some ss -> live ss (os st) -> can_listen port st ->
  accept_script (os st) (accept_calls (os st)) = Some (addr, peer) ->
  Server_connect (S fuel) port 0 st
  = Done tt (Server_connected ss addr peer (Server_prelude port st)).
Proof.
  intros Hss Hlive Hl Hn. destruct st as [e w].
  unfold can_listen, Server_prelude, Server_connected, slept, logged in *. fields.
  cbn [Server_connect]. change (0 =? 0) with true. mon.
  destruct (timed_out e) eqn:Ht; fields.
  - repeat (mon; progress rewrite ?Hss, ?listen_live, ?(accept_succeeds ss _ addr peer), ?release_eq by side).
    fields. rewrite Ht. reflexivity.
  - destruct Hl as [|[(p & -> & Hp0 & Hp) Hb]]; [discriminate|].
    cbn [truthy_int default]. assert (Hz : (p =? 0) = false) by lia. rewrite Hz. fields.
    repeat (mon; progress rewrite ?Hss, ?bind_succeeds, ?listen_live,
                            ?(accept_succeeds ss _ addr peer), ?release_eq by side).
    fields. rewrite Ht. reflexivity.
Qed.

Lemma closed_at_frame o w :
  trace (closed_at o w) = trace w /\
  accept_calls (closed_at o w) = accept_calls w /\
  accept_script (closed_at o w) = accept_script w /\
  length (sockets (closed_at o w)) = length (sockets w).
Proof.
  unfold closed_at. destruct (sockets w !! o); fields; repeat split; auto.
  apply length_insert.
Qed.

Lemma let_go_trace old e w : trace (let_go old e w) = trace w.
Proof.
  unfold let_go. destruct old as [o|]; [|reflexivity].
  destruct (referenced o e); [reflexivity|]. apply closed_at_frame.
Qed.

Lemma let_go_accept_calls old e w :
  accept_calls (let_go old e w) = accept_calls w.
Proof.
  unfold let_go. destruct old as [o|]; [|reflexivity].
  destruct (referenced o e); [reflexivity|]. apply closed_at_frame.
Qed.

Lemma closed_at_sockets o w :
  sockets (closed_at o w)
  = match sockets w !! o with
    | Some sk => <[o := with_closed sk]> (sockets w)
    | None => sockets w
    end.
Proof. unfold closed_at. now destruct (sockets w !! o). Qed.

Lemma let_go_accept old e ss peer w :
  client_socket e = Some (length (sockets w)) ->
  sockets (let_go old e (accept_granted ss peer w))
  = sockets (let_go old e w) ++ [established peer fresh_socket].
Proof.
  intros Hc.
  assert (Hnew : sockets (accept_granted ss peer w)
                 = sockets w ++ [established peer fresh_socket]).
  { unfold accept_granted. fields. rewrite insert_app_r_alt by lia.
    now rewrite Nat.sub_diag. }
  unfold let_go. destruct old as [o|]; [|exact Hnew].
  destruct (referenced o e) eqn:R; [exact Hnew|].
  assert (Ho : o <> length (sockets w)).
  { intros ->. unfold referenced in R. rewrite Hc in R. cbn [names] in R.
    rewrite Nat.eqb_refl in R. rewrite !orb_true_r in R. discriminate. }
  rewrite !closed_at_sockets, Hnew.
  destruct (Nat.lt_ge_cases o (length (sockets w))) as [Hlt|Hge].
  - rewrite lookup_app_l by exact Hlt. unfold sock_id in *.
    destruct (sockets w !! o) as [sk|]; [|reflexivity].
    now apply insert_app_l.
  - unfold sock_id in *.
    rewrite (lookup_ge_None_2 (sockets w ++ _) o)
      by (rewrite length_app; cbn [length]; lia).
    now rewrite (lookup_ge_None_2 (sockets w) o) by lia.
Qed.



Lemma retries_snoc a k t :
  retries a k ++ EvSleep 1 :: a :: t = EvSleep 1 :: a :: retries a k ++ t.
Proof. induction k as [|k IH]; cbn; [reflexivity|]. now rewrite IH. Qed.

Lemma Server_blocking_timed_out port ss addr peer k :
  forall st,
  server_socket (self st) = Some ss -> live ss (os st) ->
  timed_out (self st) = true ->
  (forall j, (j < k)%nat ->
     accept_script (os st) (accept_calls (os st) + j)%nat = None) ->
  accept_script (os st) (accept_calls (os st) + k)%nat = Some (addr, peer) ->
  (forall depth, (depth <= k)%nat ->
     exists st', Server_connect depth port 0 st = Raised RecursionError st') /\
  exists st',
    (forall fuel, Server_connect (S k + fuel) port 0 st = Done tt st') /\
    timed_out (self st') = true /\
    client_socket (self st') = Some (length (sockets (os st))) /\
    accept_calls (os st') = (accept_calls (os st) + k + 1)%nat /\
    trace (os st') = EvAccept ss :: retries (EvAccept ss) k ++ trace (os st).
Proof.
  induction k as [|k IH]; intros st Hss Hlive Ht Hfail Hok.
  - rewrite Nat.add_0_r in Hok. split.
    + intros fuel Hf. assert (fuel = 0%nat) as -> by lia. eexists; reflexivity.
    + eexists. split; [intros fuel; apply (Server_connect_accepts port st ss addr peer _ Hss Hlive (or_introl Ht) Hok)|].
      unfold Server_connected, rebound, Server_prelude. rewrite Ht. fields. rewrite Ht.
      rewrite let_go_accept_calls, let_go_trace.
      repeat split; try reflexivity. unfold accept_granted, accept_refused. fields. lia.
  - assert (Hn : accept_script (os st) (accept_calls (os st)) = None).
    { rewrite <- (Nat.add_0_r (accept_calls (os st))). apply Hfail. lia. }
    assert (Hstep : forall fuel, Server_connect (S fuel) port 0 st
                                 = Server_connect fuel port 0 (Server_retry ss st)).
    { intros fuel. rewrite (Server_connect_retry port st ss fuel Hss Hlive (or_introl Ht) Hn).
      unfold Server_prelude. now rewrite Ht. }
    destruct (IH (Server_retry ss st)) as (Hearly & st' & Hrun & Ht' & Hc' & Hn' & Htr').
    + exact Hss.
    + eapply live_frame; [|exact Hlive]. reflexivity.
    + reflexivity.
    + intros j Hj. unfold Server_retry, slept, accept_refused. fields.
      replace (S (accept_calls (os st)) + j)%nat with (accept_calls (os st) + S j)%nat by lia.
      apply Hfail. lia.
    + unfold Server_retry, slept, accept_refused. fields.
      replace (S (accept_calls (os st)) + k)%nat with (accept_calls (os st) + S k)%nat by lia.
      exact Hok.
    + split.
      * intros [|fuel] Hf; [eexists; reflexivity|]. rewrite Hstep. apply Hearly. lia.
      * exists st'. split; [intros fuel; cbn [Nat.add]; rewrite Hstep; apply Hrun|].
        split; [exact Ht'|]. split; [exact Hc'|]. split.
        -- rewrite Hn'. unfold Server_retry, slept, accept_refused. fields. lia.
        -- rewrite Htr'. unfold Server_retry, slept, accept_refused. fields.
           cbn [retries app]. now rewrite retries_snoc.
Qed.


Lemma Server_prelude_self port st : self (Server_prelude port st) = self st.
Proof. unfold Server_prelude. now destruct (timed_out (self st)). Qed.

Lemma Server_prelude_sockets port st :
  sockets (os (Server_prelude port st)) = sockets (os st).
Proof. unfold Server_prelude. now destruct (timed_out (self st)). Qed.

Lemma Server_prelude_accepts port st :
  accept_script (os (Server_prelude port st)) = accept_script (os st) /\
  accept_calls (os (Server_prelude port st)) = accept_calls (os st).
Proof. unfold Server_prelude. now destruct (timed_out (self st)). Qed.

Lemma Server_connect_blocking port ss addr peer k st :
  server_socket (self st) = Some ss -> live ss (os st) -> can_listen port st ->
  (forall j, (j < k)%nat ->
     accept_script (os st) (accept_calls (os st) + j)%nat = None) ->
  accept_script (os st) (accept_calls (os st) + k)%nat = Some (addr, peer) ->
  (forall depth, (depth <= k)%nat ->
     exists st', Server_connect depth port 0 st = Raised RecursionError st') /\
  exists st',
    (forall fuel, Server_connect (S k + fuel) port 0 st = Done tt st') /\
    client_socket (self st') = Some (length (sockets (os st))) /\
    accept_calls (os st') = (accept_calls (os st) + k + 1)%nat /\
    trace (os st') = greeting k st (MsgGotConnection addr) ++
                     EvAccept ss :: retries (EvAccept ss) k ++
                     trace (os (Server_prelude port st)).
Proof.
  intros Hss Hlive Hl Hfail Hok.
  destruct (Server_prelude_accepts port st) as [Hps Hpc].
  destruct k as [|k].
  - rewrite Nat.add_0_r in Hok. split.
    + intros fuel Hf. assert (fuel = 0%nat) as -> by lia. eexists; reflexivity.
    + eexists. split; [intros fuel; apply (Server_connect_accepts port st ss addr peer _ Hss Hlive Hl Hok)|].
      unfold Server_connected, rebound. rewrite Server_prelude_self, Server_prelude_sockets.
      fields. split; [reflexivity|]. split.
      * destruct (timed_out (self st)); unfold logged; fields;
          rewrite let_go_accept_calls; unfold accept_granted, accept_refused;
          fields; rewrite Hpc; lia.
      * unfold greeting.
        destruct (timed_out (self st)); unfold logged; fields;
          rewrite let_go_trace; unfold accept_granted, accept_refused;
          fields; reflexivity.
  - assert (Hn : accept_script (os st) (accept_calls (os st)) = None).
    { rewrite <- (Nat.add_0_r (accept_calls (os st))). apply Hfail. lia. }
    set (st1 := Server_retry ss (Server_prelude port st)).
    assert (Hstep : forall fuel, Server_connect (S fuel) port 0 st
                                 = Server_connect fuel port 0 st1).
    { intros fuel. apply Server_connect_retry; assumption. }
    assert (Hc1 : accept_calls (os st1) = S (accept_calls (os st))).
    { unfold st1, Server_retry, slept, accept_refused. fields. now rewrite Hpc. }
    assert (Hs1 : accept_script (os st1) = accept_script (os st)).
    { unfold st1, Server_retry, slept, accept_refused. fields. exact Hps. }
    assert (Hk1 : sockets (os st1) = sockets (os st)).
    { unfold st1, Server_retry, slept, accept_refused. fields.
      apply Server_prelude_sockets. }
    destruct (Server_blocking_timed_out port ss addr peer k st1)
      as (Hearly & st' & Hrun & Ht' & Hc' & Hn' & Htr').
    + unfold st1, Server_retry. fields. now rewrite Server_prelude_self.
    + eapply live_frame; [exact Hk1|exact Hlive].
    + reflexivity.
    + intros j Hj. rewrite Hs1, Hc1.
      replace (S (accept_calls (os st)) + j)%nat with (accept_calls (os st) + S j)%nat by lia.
      apply Hfail. lia.
    + rewrite Hs1, Hc1.
      replace (S (accept_calls (os st)) + k)%nat with (accept_calls (os st) + S k)%nat by lia.
      exact Hok.
    + split.
      * intros [|fuel] Hf; [eexists; reflexivity|]. rewrite Hstep. apply Hearly. lia.
      * exists st'. split; [intros fuel; cbn [Nat.add]; rewrite Hstep; apply Hrun|].
        split; [now rewrite Hc', Hk1|]. split; [rewrite Hn', Hc1; lia|].
        rewrite Htr'. unfold st1, Server_retry, slept, accept_refused. fields.
        cbn [greeting retries app]. now rewrite retries_snoc.
Qed.

Lemma Server_blocking_exhausts port ss depth :
  forall st,
  server_socket (self st) = Some ss -> live ss (os st) ->
  timed_out (self st) = true ->
  (forall j, (j < depth)%nat ->
     accept_script (os st) (accept_calls (os st) + j)%nat = None) ->
  exists st',
    Server_connect depth port 0 st = Raised RecursionError st' /\
    timed_out (self st') = true /\
    client_socket (self st') = client_socket (self st) /\
    sockets (os st') = sockets (os st) /\
    trace (os st') = retries (EvAccept ss) depth ++ trace (os st).
Proof.
  induction depth as [|depth IH]; intros st Hss Hlive Ht Hfail.
  - exists st. repeat split; auto.
  - assert (Hn : accept_script (os st) (accept_calls (os st)) = None).
    { rewrite <- (Nat.add_0_r (accept_calls (os st))). apply Hfail. lia. }
    rewrite (Server_connect_retry port st ss depth Hss Hlive (or_introl Ht) Hn).
    unfold Server_prelude. rewrite Ht.
    destruct (IH (Server_retry ss st)) as (st' & Hrun & Ht' & Hc' & Hs' & Htr').
    + exact Hss.
    + eapply live_frame; [|exact Hlive]. reflexivity.
    + reflexivity.
    + intros j Hj. unfold Server_retry, slept, accept_refused. fields.
      replace (S (accept_calls (os st)) + j)%nat with (accept_calls (os st) + S j)%nat by lia.
      apply Hfail. lia.
    + exists st'. split; [exact Hrun|]. split; [exact Ht'|].
      split; [exact Hc'|]. split; [exact Hs'|].
      rewrite Htr'. unfold Server_retry, slept, accept_refused. fields.
      cbn [retries app]. now rewrite retries_snoc.
Qed.

(** ** One activation of [Client.connect] whose attempt fails *)

Lemma truthy_str_nonempty i : i <> EmptyString -> truthy_str (Some i) = true.
Proof. destruct i; [congruence|reflexivity]. Qed.

Lemma Client_connect_retry i p st c fuel :
  client_socket (self st) = Some c -> live c (os st) -> can_dial i p st ->
  dial_script (os st) (dial_calls (os st)) = None ->
  Client_connect (S fuel) (Some i) (Some p) 0 st
  = (let* _ := Client_connect fuel (Some i) (Some p) 0 in ret RetNone)
      (Client_retry c (Client_prelude (Some i) (Some p) st)).
Proof.
  intros Hcs Hlive Hl Hn. destruct st as [e w].
  unfold can_dial, Client_prelude, Client_retry, slept, logged in *. fields.
  cbn [Client_connect]. change (0 =? 0) with true. mon.
  destruct (timed_out e) eqn:Ht; fields.
  - repeat (mon; progress rewrite ?Hcs, ?dial_fails by side).
    reflexivity.
  - destruct Hl as [|[Hi Hp]]; [discriminate|].
    rewrite (truthy_str_nonempty i Hi). cbn [truthy_int].
    assert (Hz : (p =? 0) = false) by lia. rewrite Hz. fields.
    repeat (mon; progress rewrite ?Hcs, ?dial_fails by side).
    reflexivity.
Qed.


Lemma Client_connect_dials i p st c sk peer fuel :
  client_socket (self st) = Some c ->
  sockets (os st) !! c = Some sk -> closed sk = false ->
  can_dial i p st ->
  dial_script (os st) (dial_calls (os st)) = Some peer ->
  Client_connect (S fuel) (Some i) (Some p) 0 st
  = Done RetTrue (Client_connected c sk (Some i) peer (Client_prelude (Some i) (Some p) st)).
Proof.
  intros Hcs Hs Hc Hl Hn. destruct st as [e w].
  unfold can_dial, Client_prelude, Client_connected, slept, logged in *. fields.
  cbn [Client_connect]. change (0 =? 0) with true. mon.
  destruct (timed_out e) eqn:Ht; fields.
  - repeat (mon; progress rewrite ?Hcs, ?(dial_succeeds c sk i p _ peer) by side).
    fields. rewrite Ht. reflexivity.
  - destruct Hl as [|[Hi Hp]]; [discriminate|].
    rewrite (truthy_str_nonempty i Hi). cbn [truthy_int].
    assert (Hz : (p =? 0) = false) by lia. rewrite Hz. fields.
    repeat (mon; progress rewrite ?Hcs, ?(dial_succeeds c sk i p _ peer) by side).
    fields. rewrite Ht. reflexivity.
Qed.

Lemma Client_prelude_self ip port st : self (Client_prelude ip port st) = self st.
Proof. unfold Client_prelude. now destruct (timed_out (self st)). Qed.

Lemma Client_prelude_sockets ip port st :
  sockets (os (Client_prelude ip port st)) = sockets (os st).
Proof. unfold Client_prelude. now destruct (timed_out (self st)). Qed.

Lemma Client_prelude_dials ip port st :
  dial_script (os (Client_prelude ip port st)) = dial_script (os st) /\
  dial_calls (os (Client_prelude ip port st)) = dial_calls (os st).
Proof. unfold Client_prelude. now destruct (timed_out (self st)). Qed.

Lemma Client_connect_blocking i p c sk peer k :
  forall st,
  client_socket (self st) = Some c ->
  sockets (os st) !! c = Some sk -> closed sk = false ->
  can_dial i p st ->
  (forall j, (j < k)%nat ->
     dial_script (os st) (dial_calls (os st) + j)%nat = None) ->
  dial_script (os st) (dial_calls (os st) + k)%nat = Some peer ->
  (forall depth, (depth <= k)%nat ->
     exists st', Client_connect depth (Some i) (Some p) 0 st
                 = Raised RecursionError st') /\
  exists st',
    (forall fuel, Client_connect (S k + fuel) (Some i) (Some p) 0 st
                  = Done (dial_result k) st') /\
    client_socket (self st') = Some c /\
    (exists sk', sockets (os st') !! c = Some sk' /\ connected sk' = true) /\
    dial_calls (os st') = (dial_calls (os st) + k + 1)%nat /\
    trace (os st') = greeting k st (MsgConnected (Some i)) ++
                     EvConnect c :: retries (EvConnect c) k ++
                     trace (os (Client_prelude (Some i) (Some p) st)).
Proof.
  induction k as [|k IH]; intros st Hcs Hs Hc Hl Hfail Hok;
    destruct (Client_prelude_dials (Some i) (Some p) st) as [Hps Hpc].
  - rewrite Nat.add_0_r in Hok. split.
    + intros fuel Hf. assert (fuel = 0%nat) as -> by lia. eexists; reflexivity.
    + eexists. split;
        [intros fuel; apply (Client_connect_dials i p st c sk peer _ Hcs Hs Hc Hl Hok)|].
      unfold Client_connected. rewrite Client_prelude_self.
      fields. split; [exact Hcs|]. split; [|split].
      * exists (established peer sk).
        destruct (timed_out (self st)); unfold logged, dial_granted, dial_refused;
          fields; rewrite Client_prelude_sockets;
          (rewrite list_lookup_insert_eq by (eapply lookup_lt_Some; eauto)); auto.
      * destruct (timed_out (self st)); unfold logged, dial_granted, dial_refused;
          fields; rewrite Hpc; lia.
      * unfold greeting.
        destruct (timed_out (self st)); unfold logged, dial_granted, dial_refused;
          fields; reflexivity.
  - assert (Hn : dial_script (os st) (dial_calls (os st)) = None).
    { rewrite <- (Nat.add_0_r (dial_calls (os st))). apply Hfail. lia. }
    assert (Hlive : live c (os st)) by (exists sk; auto).
    set (st1 := Client_retry c (Client_prelude (Some i) (Some p) st)).
    assert (Hstep : forall fuel, Client_connect (S fuel) (Some i) (Some p) 0 st
             = (let* _ := Client_connect fuel (Some i) (Some p) 0 in ret RetNone) st1).
    { intros fuel. apply Client_connect_retry; assumption. }
    assert (Hc1 : dial_calls (os st1) = S (dial_calls (os st))).
    { unfold st1, Client_retry, slept, dial_refused. fields. now rewrite Hpc. }
    assert (Hs1 : dial_script (os st1) = dial_script (os st)).
    { unfold st1, Client_retry, slept, dial_refused. fields. exact Hps. }
    assert (Hk1 : sockets (os st1) = sockets (os st)).
    { unfold st1, Client_retry, slept, dial_refused. fields.
      apply Client_prelude_sockets. }
    destruct (IH st1) as (Hearly & st' & Hrun & Hc' & Hco' & Hn' & Htr').
    + unfold st1, Client_retry. fields. now rewrite Client_prelude_self.
    + now rewrite Hk1.
    + exact Hc.
    + now left.
    + intros j Hj. rewrite Hs1, Hc1.
      replace (S (dial_calls (os st)) + j)%nat with (dial_calls (os st) + S j)%nat by lia.
      apply Hfail. lia.
    + rewrite Hs1, Hc1.
      replace (S (dial_calls (os st)) + k)%nat with (dial_calls (os st) + S k)%nat by lia.
      exact Hok.
    + split.
      * intros [|fuel] Hf; [eexists; reflexivity|]. rewrite Hstep. unfold bind.
        destruct (Hearly fuel) as [st0 ->]; [lia|]. eexists; reflexivity.
      * exists st'. split.
        { intros fuel. cbn [Nat.add]. rewrite Hstep. unfold bind.
          change (S (k + fuel)) with (S k + fuel)%nat. now rewrite Hrun. }
        split; [exact Hc'|]. split; [exact Hco'|]. split; [rewrite Hn', Hc1; lia|].
        rewrite Htr'.
        replace (greeting k st1 (MsgConnected (Some i))) with (@nil event)
          by (destruct k; reflexivity).
        change (Client_prelude (Some i) (Some p) st1) with st1.
        unfold st1, Client_retry, slept, dial_refused. fields.
        cbn [greeting retries app]. now rewrite retries_snoc.
Qed.

Lemma Client_blocking_exhausts i p c depth :
  forall st,
  client_socket (self st) = Some c -> live c (os st) ->
  timed_out (self st) = true ->
  (forall j, (j < depth)%nat ->
     dial_script (os st) (dial_calls (os st) + j)%nat = None) ->
  exists st',
    Client_connect depth (Some i) (Some p) 0 st = Raised RecursionError st' /\
    timed_out (self st') = true /\
    client_socket (self st') = client_socket (self st) /\
    sockets (os st') = sockets (os st) /\
    trace (os st') = retries (EvConnect c) depth ++ trace (os st).
Proof.
  induction depth as [|depth IH]; intros st Hcs Hlive Ht Hfail.
  - exists st. repeat split; auto.
  - assert (Hn : dial_script (os st) (dial_calls (os st)) = None).
    { rewrite <- (Nat.add_0_r (dial_calls (os st))). apply Hfail. lia. }
    rewrite (Client_connect_retry i p st c depth Hcs Hlive (or_introl Ht) Hn).
    unfold Client_prelude. rewrite Ht.
    destruct (IH (Client_retry c st)) as (st' & Hrun & Ht' & Hc' & Hs' & Htr').
    + exact Hcs.
    + eapply live_frame; [|exact Hlive]. reflexivity.
    + reflexivity.
    + intros j Hj. unfold Client_retry, slept, dial_refused. fields.
      replace (S (dial_calls (os st)) + j)%nat with (dial_calls (os st) + S j)%nat by lia.
      apply Hfail. lia.
    + exists st'. split; [unfold bind; now rewrite Hrun|]. split; [exact Ht'|].
      split; [exact Hc'|]. split; [exact Hs'|].
      rewrite Htr'. unfold Client_retry, slept, dial_refused. fields.
      cbn [retries app]. now rewrite retries_snoc.
Qed.

Lemma count_events_app p a b :
  count_events p (a ++ b) = (count_events p a + count_events p b)%nat.
Proof. induction a as [|e a IH]; cbn; [reflexivity|]. rewrite IH. lia. Qed.

Lemma attempts_retries a k : is_attempt a = true -> attempts (retries a k) = k.
Proof.
  intros Ha. unfold attempts. induction k as [|k IH]; cbn; [reflexivity|].
  rewrite Ha, IH. reflexivity.
Qed.

Lemma sleeps_retries a k : is_sleep a = false -> sleeps (retries a k) = k.
Proof.
  intros Ha. unfold sleeps. induction k as [|k IH]; cbn; [reflexivity|].
  rewrite Ha, IH. reflexivity.
Qed.

Lemma Server_prelude_trace port st :
  exists pre, trace (os (Server_prelude port st)) = pre ++ trace (os st) /\ idle pre.
Proof.
  unfold Server_prelude. destruct (timed_out (self st)).
  - exists []. now split.
  - eexists [_]. split; [reflexivity|]. now split.
Qed.

Lemma Client_prelude_trace ip port st :
  exists pre, trace (os (Client_prelude ip port st)) = pre ++ trace (os st) /\ idle pre.
Proof.
  unfold Client_prelude. destruct (timed_out (self st)).
  - exists []. now split.
  - eexists [_]. split; [reflexivity|]. now split.
Qed.

Lemma greeting_idle k st m : idle (greeting k st m).
Proof. unfold greeting. destruct k; [destruct (timed_out (self st))|]; now split. Qed.

(** In blocking mode, when the next [depth] attempts all fail, the call
    ends with [RecursionError] after [depth] attempts, each followed by
    [sleep(1)]. *)
Lemma Server_connect_exhausts port ss depth st :
  server_socket (self st) = Some ss -> live ss (os st) -> can_listen port st ->
  (forall j, (j < depth)%nat ->
     accept_script (os st) (accept_calls (os st) + j)%nat = None) ->
  exists st' pre,
    Server_connect depth port 0 st = Raised RecursionError st' /\
    client_socket (self st') = client_socket (self st) /\
    sockets (os st') = sockets (os st) /\
    idle pre /\
    trace (os st') = retries (EvAccept ss) depth ++ pre ++ trace (os st).
Proof.
  intros Hss Hlive Hl Hfail. destruct depth as [|depth].
  - exists st, []. repeat split; auto.
  - destruct (Server_prelude_accepts port st) as [Hps Hpc].
    assert (Hn : accept_script (os st) (accept_calls (os st)) = None).
    { rewrite <- (Nat.add_0_r (accept_calls (os st))). apply Hfail. lia. }
    rewrite (Server_connect_retry port st ss depth Hss Hlive Hl Hn).
    set (st1 := Server_retry ss (Server_prelude port st)).
    assert (Hk1 : sockets (os st1) = sockets (os st)).
    { unfold st1, Server_retry, slept, accept_refused. fields.
      apply Server_prelude_sockets. }
    destruct (Server_blocking_exhausts port ss depth st1)
      as (st' & Hrun & Ht' & Hc' & Hs' & Htr').
    + unfold st1, Server_retry. fields. now rewrite Server_prelude_self.
    + eapply live_frame; [exact Hk1|exact Hlive].
    + reflexivity.
    + intros j Hj. unfold st1, Server_retry, slept, accept_refused. fields.
      rewrite Hps, Hpc.
      replace (S (accept_calls (os st)) + j)%nat with (accept_calls (os st) + S j)%nat by lia.
      apply Hfail. lia.
    + destruct (Server_prelude_trace port st) as (pre & Hpre & Hidle).
      exists st', pre. split; [exact Hrun|].
      split; [rewrite Hc'; unfold st1, Server_retry; fields;
              now rewrite Server_prelude_self|].
      split; [now rewrite Hs'|]. split; [exact Hidle|].
      rewrite Htr'. unfold st1, Server_retry, slept, accept_refused. fields.
      rewrite Hpre. cbn [retries app]. now rewrite retries_snoc.
Qed.

Lemma Client_connect_exhausts i p c depth st :
  client_socket (self st) = Some c -> live c (os st) -> can_dial i p st ->
  (forall j, (j < depth)%nat ->
     dial_script (os st) (dial_calls (os st) + j)%nat = None) ->
  exists st' pre,
    Client_connect depth (Some i) (Some p) 0 st = Raised RecursionError st' /\
    client_socket (self st') = client_socket (self st) /\
    sockets (os st') = sockets (os st) /\
    idle pre /\
    trace (os st') = retries (EvConnect c) depth ++ pre ++ trace (os st).
Proof.
  intros Hcs Hlive Hl Hfail. destruct depth as [|depth].
  - exists st, []. repeat split; auto.
  - destruct (Client_prelude_dials (Some i) (Some p) st) as [Hps Hpc].
    assert (Hn : dial_script (os st) (dial_calls (os st)) = None).
    { rewrite <- (Nat.add_0_r (dial_calls (os st))). apply Hfail. lia. }
    rewrite (Client_connect_retry i p st c depth Hcs Hlive Hl Hn).
    set (st1 := Client_retry c (Client_prelude (Some i) (Some p) st)).
    assert (Hk1 : sockets (os st1) = sockets (os st)).
    { unfold st1, Client_retry, slept, dial_refused. fields.
      apply Client_prelude_sockets. }
    destruct (Client_blocking_exhausts i p c depth st1)
      as (st' & Hrun & Ht' & Hc' & Hs' & Htr').
    + unfold st1, Client_retry. fields. now rewrite Client_prelude_self.
    + eapply live_frame; [exact Hk1|exact Hlive].
    + reflexivity.
    + intros j Hj. unfold st1, Client_retry, slept, dial_refused. fields.
      rewrite Hps, Hpc.
      replace (S (dial_calls (os st)) + j)%nat with (dial_calls (os st) + S j)%nat by lia.
      apply Hfail. lia.
    + destruct (Client_prelude_trace (Some i) (Some p) st) as (pre & Hpre & Hidle).
      exists st', pre. split; [unfold bind; now rewrite Hrun|].
      split; [rewrite Hc'; unfold st1, Client_retry; fields;
              now rewrite Client_prelude_self|].
      split; [now rewrite Hs'|]. split; [exact Hidle|].
      rewrite Htr'. unfold st1, Client_retry, slept, dial_refused. fields.
      rewrite Hpre. cbn [retries app]. now rewrite retries_snoc.
Qed.



(** What a blocking [connect] does with the depth of recursion it is
    allowed.  If the next [k] attempts fail and the one after succeeds,
    a call that may nest more than [k] deep returns, [client_socket] is
    then set, and what it added to the trace is the [k + 1] attempts with
    exactly one [sleep(1)] between consecutive ones.  If the next [depth]
    attempts fail, a call that may nest [depth] deep makes these attempts,
    sleeps after each and ends with [RecursionError]. *)
Lemma connect_blocking_retries_to_depth (c : call) (st : State) :
  ready c st -> timeout_of c = 0 ->
  (forall k,
     (forall j, (j < k)%nat -> refused c st j) -> granted c st k ->
     exists st' a pre post,
       (forall fuel, run (S k + fuel) c st = Done tt st') /\
       is_Some (client_socket (self st')) /\
       is_attempt a = true /\ idle pre /\ idle post /\
       trace (os st') = post ++ a :: retries a k ++ pre ++ trace (os st)) /\
  (forall depth,
     (forall j, (j < depth)%nat -> refused c st j) ->
     exists st' a pre,
       run depth c st = Raised RecursionError st' /\
       is_attempt a = true /\ idle pre /\
       trace (os st') = retries a depth ++ pre ++ trace (os st)).
Proof.
  destruct c as [| | | |port timeout|ip port timeout| |]; cbn [ready]; try contradiction.
  - intros (ss & Hss & Hlive & Hl) Hto. cbn in Hto. subst timeout.
    cbn [run refused granted]. split.
    + intros k Hfail [[addr peer] Hok].
      destruct (Server_connect_blocking port ss addr peer k st Hss Hlive Hl Hfail Hok)
        as (_ & st' & Hrun & Hcs & _ & Htr).
      destruct (Server_prelude_trace port st) as (pre & Hpre & Hidle).
      exists st', (EvAccept ss), pre, (greeting k st (MsgGotConnection addr)).
      split; [exact Hrun|]. split; [rewrite Hcs; eauto|].
      split; [reflexivity|]. split; [exact Hidle|].
      split; [apply greeting_idle|]. now rewrite Htr, Hpre.
    + intros depth Hfail.
      destruct (Server_connect_exhausts port ss depth st Hss Hlive Hl Hfail)
        as (st' & pre & Hrun & _ & _ & Hidle & Htr).
      exists st', (EvAccept ss), pre. auto.
  - intros (s & i & p & -> & -> & Hcs & (sk & Hs & Hc) & Hl) Hto. cbn in Hto.
    subst timeout. cbn [run refused granted]. split.
    + intros k Hfail [peer Hok].
      destruct (Client_connect_blocking i p s sk peer k st Hcs Hs Hc Hl Hfail Hok)
        as (_ & st' & Hrun & Hcs' & _ & _ & Htr).
      destruct (Client_prelude_trace (Some i) (Some p) st) as (pre & Hpre & Hidle).
      exists st', (EvConnect s), pre, (greeting k st (MsgConnected (Some i))).
      split; [intros fuel; unfold bind; now rewrite Hrun|].
      split; [rewrite Hcs'; eauto|].
      split; [reflexivity|]. split; [exact Hidle|].
      split; [apply greeting_idle|]. now rewrite Htr, Hpre.
    + intros depth Hfail.
      assert (Hlive : live s (os st)) by (exists sk; auto).
      destruct (Client_connect_exhausts i p s depth st Hcs Hlive Hl Hfail)
        as (st' & pre & Hrun & _ & _ & Hidle & Htr).
      exists st', (EvConnect s), pre. unfold bind. rewrite Hrun. auto.
Qed.

Lemma lone_server_ready : ready (listen 0) lone_server.
Proof.
  exists 0%nat. split; [reflexivity|].
  split; [exists fresh_socket; split; reflexivity|].
  right. split; [exists 5000; repeat split; lia|]. discriminate.
Qed.

Lemma lone_client_ready : ready (dial 0) lone_client.
Proof.
  exists 0%nat, "192.168.1.20"%string, 5000. repeat split.
  - exists fresh_socket; split; reflexivity.
  - right. split; discriminate.
Qed.

Lemma patient_server_ready k : ready (listen 0) (patient_server k).
Proof.
  exists 0%nat. split; [reflexivity|].
  split; [exists fresh_socket; split; reflexivity|].
  right. split; [exists 5000; repeat split; lia|]. discriminate.
Qed.

Lemma exhausted_counts a depth pre :
  is_attempt a = true -> idle pre ->
  attempts (retries a depth ++ pre ++ []) = depth /\
  sleeps (retries a depth ++ pre ++ []) = depth.
Proof.
  intros Ha [Hpa Hps]. unfold attempts, sleeps in *.
  rewrite !count_events_app. cbn [count_events]. rewrite Hpa, Hps.
  pose proof (attempts_retries a depth Ha) as H1.
  assert (Hs : is_sleep a = false) by (destruct a; cbn in *; congruence).
  pose proof (sleeps_retries a depth Hs) as H2.
  unfold attempts, sleeps in *. lia.
Qed.

Lemma connected_counts a k pre post :
  is_attempt a = true -> idle pre -> idle post ->
  attempts (post ++ a :: retries a k ++ pre ++ []) = S k /\
  sleeps (post ++ a :: retries a k ++ pre ++ []) = k.
Proof.
  intros Ha Hpre [Hqa Hqs].
  destruct (exhausted_counts a k pre Ha Hpre) as [H1 H2].
  assert (Hs : is_sleep a = false) by (destruct a; cbn in *; congruence).
  unfold attempts, sleeps in *.
  rewrite !(count_events_app _ post). cbn [count_events].
  rewrite Hqa, Hqs, Ha, Hs, H1, H2. lia.
Qed.

(** Claim C5.  A [connect] called with [timeout == 0] does not retry
    indefinitely: the retry is a recursive call, so the number of
    attempts is bounded by the depth of recursion that the interpreter
    allows.  On a network where every attempt fails, a call that may nest
    [depth] deep makes [depth] attempts, sleeps one second after each and
    then ends with [RecursionError] at the caller, for the server and for
    the client alike.  When a peer arrives for the fourth attempt, a call
    allowed three activations ends with [RecursionError] before reaching
    it, while a call allowed four or more returns after it. *)
Theorem connect_blocking_mode_hits_recursion_limit (depth : nat) :
  (exists st',
     run depth (listen 0) lone_server = Raised RecursionError st' /\
     attempts (trace (os st')) = depth /\ sleeps (trace (os st')) = depth) /\
  (exists st',
     run depth (dial 0) lone_client = Raised RecursionError st' /\
     attempts (trace (os st')) = depth /\ sleeps (trace (os st')) = depth) /\
  (exists st',
     run 3 (listen 0) (patient_server 3) = Raised RecursionError st' /\
     attempts (trace (os st')) = 3%nat /\ sleeps (trace (os st')) = 3%nat) /\
  (exists st',
     (forall fuel, run (4 + fuel) (listen 0) (patient_server 3) = Done tt st') /\
     attempts (trace (os st')) = 4%nat /\ sleeps (trace (os st')) = 3%nat).
Proof.
  split; [|split; [|split]].
  - destruct (connect_blocking_retries_to_depth (listen 0) lone_server
                lone_server_ready eq_refl) as [_ Hex].
    destruct (Hex depth) as (st' & a & pre & Hrun & Ha & Hidle & Htr);
      [intros j _; reflexivity|].
    exists st'. split; [exact Hrun|]. rewrite Htr.
    now apply exhausted_counts.
  - destruct (connect_blocking_retries_to_depth (dial 0) lone_client
                lone_client_ready eq_refl) as [_ Hex].
    destruct (Hex depth) as (st' & a & pre & Hrun & Ha & Hidle & Htr);
      [intros j _; reflexivity|].
    exists st'. split; [exact Hrun|]. rewrite Htr.
    now apply exhausted_counts.
  - destruct (connect_blocking_retries_to_depth (listen 0) (patient_server 3)
                (patient_server_ready 3) eq_refl) as [_ Hex].
    destruct (Hex 3%nat) as (st' & a & pre & Hrun & Ha & Hidle & Htr).
    { intros j Hj. do 3 (destruct j as [|j]; [reflexivity|]). lia. }
    exists st'. split; [exact Hrun|]. rewrite Htr.
    now apply exhausted_counts.
  - destruct (connect_blocking_retries_to_depth (listen 0) (patient_server 3)
                (patient_server_ready 3) eq_refl) as [Hfin _].
    destruct (Hfin 3%nat) as (st' & a & pre & post & Hrun & _ & Ha & Hpre & Hpost & Htr).
    { intros j Hj. do 3 (destruct j as [|j]; [reflexivity|]). lia. }
    { cbn. eexists. reflexivity. }
    exists st'. split; [exact Hrun|]. rewrite Htr.
    now apply connected_counts.
Qed.

(** ** [send] *)

Lemma sendall_closed c w sk data :
  sockets w !! c = Some sk -> closed sk = true ->
  sock_sendall c data w = Raised OSError w.
Proof. intros Hs Hc. unfold sock_sendall. mon. now rewrite Hs, Hc. Qed.

Lemma sendall_fault c w sk data k rest :
  sockets w !! c = Some sk -> closed sk = false -> connected sk = true ->
  tx_script sk = Some k :: rest ->
  sock_sendall c data w
  = Raised OSError (set_sockets (<[c := with_sent rest (take k data) sk]> (sockets w)) w).
Proof.
  intros Hs Hc Hco Ht. unfold sock_sendall. mon. now rewrite Hs, Hc, Hco, Ht.
Qed.

Lemma sendall_delivers c w sk data :
  sockets w !! c = Some sk -> closed sk = false -> connected sk = true ->
  head (tx_script sk) = None \/ head (tx_script sk) = Some None ->
  sock_sendall c data w
  = Done tt (set_sockets (<[c := with_sent (tail (tx_script sk)) data sk]> (sockets w)) w).
Proof.
  intros Hs Hc Hco Ht. unfold sock_sendall. mon. rewrite Hs, Hc, Hco.
  destruct (tx_script sk) as [|[k|] rest]; cbn in *; try reflexivity.
  destruct Ht; congruence.
Qed.

Lemma sendall_total c data w : sock_sendall c data w <> OutOfFuel.
Proof. unfold sock_sendall. mon. split_cases; discriminate. Qed.

Lemma Video_show_total v f w : Video_show v f w <> OutOfFuel.
Proof. unfold Video_show. mon. split_cases; discriminate. Qed.

Lemma Video_read_total v w : exists r w', Video_read v w = Done r w'.
Proof. unfold Video_read. mon. destruct (camera w); eauto. Qed.

(** The [try] body of [send] returns or raises, and leaves the
    attributes alone. *)
Lemma transmit_total frame res show st :
  match transmit frame res show st with
  | Done _ st' | Raised _ st' => self st' = self st
  | OutOfFuel => False
  end.
Proof.
  destruct st as [e w]. unfold transmit. mon.
  destruct (Struct.pack_Q _ _) as [pack|]; [|reflexivity].
  destruct show.
  - destruct (video e); [|reflexivity].
    pose proof (Video_show_total v
      (Video_resize (Video_resize frame res) (screen_resolution e)) w).
    destruct (Video_show _ _ _) as [[] w1|e1 w1|]; [|reflexivity|congruence].
    destruct (client_socket e) as [c|]; [|reflexivity].
    pose proof (sendall_total c (pack ++ pickle_dumps (Video_resize frame res)) w1).
    destruct (sock_sendall _ _ _) as [[] w2|e2 w2|]; try reflexivity. congruence.
  - destruct (client_socket e) as [c|]; [|reflexivity].
    pose proof (sendall_total c (pack ++ pickle_dumps (Video_resize frame res)) w).
    destruct (sock_sendall _ _ _) as [[] w2|e2 w2|]; try reflexivity. congruence.
Qed.

(** With a frame in hand, [send] is its [try] body with exceptions
    turned into a plain return. *)
Lemma send_frame_eq frame res show st :
  send (Some frame) res show st =
  match transmit frame res show st with
  | Done _ st' | Raised _ st' => Done tt st'
  | OutOfFuel => OutOfFuel
  end.
Proof.
  destruct st as [e w]. unfold send. mon.
  destruct (transmit _ _ _ _) as [[] st'| |]; reflexivity.
Qed.

(** [send] always returns, and leaves the attributes alone. *)
Lemma send_returns frame res show st :
  video_ready (self st) ->
  exists w', send frame res show st = Done tt {| self := self st; os := w' |}.
Proof.
  intros Hv. destruct frame as [f|].
  - rewrite send_frame_eq. pose proof (transmit_total f res show st) as Ht.
    destruct (transmit _ _ _ _) as [[] [e' w']|x [e' w']|]; [| |contradiction];
      cbn [self] in Ht; subst e'; eauto.
  - destruct st as [e w]. unfold video_ready in Hv. fields.
    unfold send. mon. destruct (capture_video e) eqn:Hcap.
    + destruct (Hv eq_refl) as [v Hvid]. rewrite Hvid.
      destruct (Video_read_total v w) as (r & w1 & ->).
      destruct r as [f|]; [|eauto].
      pose proof (transmit_total f res show {| self := e; os := w1 |}) as Ht.
      mon. destruct (transmit _ _ _ _) as [[] [e' w']|x [e' w']|]; [| |contradiction];
        cbn [self] in Ht; subst e'; eauto.
    + eauto.
Qed.

(** Claim C7.  [send] never raises and never fails to return, whatever
    the frame and whatever the socket does; it hands back [None] and
    leaves every attribute of the endpoint as it was.  In particular,
    when the [try] body raises (a socket error of [sendall] included),
    [send] returns normally from the state the exception left. *)
Theorem send_swallows_socket_errors (frame : option ndarray) (res : Resolution)
    (show : bool) (st : State) :
  video_ready (self st) ->
  (exists w', send frame res show st = Done tt {| self := self st; os := w' |}) /\
  (forall f e st',
     frame = Some f -> transmit f res show st = Raised e st' ->
     send frame res show st = Done tt st' /\ self st' = self st).
Proof.
  intros Hv. split; [now apply send_returns|].
  intros f e st' -> Hs.
  pose proof (transmit_total f res show st) as Ht.
  rewrite send_frame_eq, Hs in *. auto.
Qed.

(** ** Construction *)

Lemma Socket_init_attrs name show_ip capture src vb res w0 e w :
  _Socket_init name show_ip capture src vb res w0 = Done e w ->
  capture_video e = capture /\ socket_type e = None /\
  client_socket e = None /\ server_socket e = None /\
  (capture = false -> video e = None) /\
  (capture = true -> is_Some (video e)).
Proof.
  unfold _Socket_init, Video_init, socket_socket. mon.
  destruct (hostip _); [|discriminate].
  destruct show_ip, capture, vb, res; fields;
    try destruct (camera_opens _); fields;
    intros [= <- <-]; fields; repeat split; eauto; discriminate.
Qed.

Lemma Client_init_attrs name show_ip capture res src vb w0 e w :
  Client_init name show_ip capture res src vb w0 = Done e w ->
  client_socket e = Some (socket e) /\ socket_type e = None /\
  (capture = false -> video e = None) /\ video_ready e.
Proof.
  unfold Client_init, bind.
  destruct (_Socket_init _ _ _ _ _ _ _) as [e0 w1| |] eqn:E; try discriminate.
  intros [= <- <-]. apply Socket_init_attrs in E as (Hc & Ht & _ & _ & Hv & Hv').
  unfold video_ready. fields. rewrite Hc. auto.
Qed.

Lemma Server_init_attrs name show_ip capture res src vb w0 e w :
  Server_init name show_ip capture res src vb w0 = Done e w ->
  server_socket e = Some (socket e) /\ client_socket e = None /\
  socket_type e = None /\
  (capture = false -> video e = None) /\ video_ready e.
Proof.
  unfold Server_init, bind.
  destruct (_Socket_init _ _ _ _ _ _ _) as [e0 w1| |] eqn:E; try discriminate.
  intros [= <- <-]. apply Socket_init_attrs in E as (Hc & Ht & Hcs & _ & Hv & Hv').
  unfold video_ready. fields. rewrite Hc. auto.
Qed.

Lemma constructed_no_video st : constructed false st -> video (self st) = None.
Proof.
  intros (name & show_ip & res & src & vb & w0 & [E|E]).
  - now apply Server_init_attrs in E as (_ & _ & _ & Hv & _); auto.
  - now apply Client_init_attrs in E as (_ & _ & Hv & _); auto.
Qed.

(** ** [is_connected] *)

Lemma is_connected_set st :
  is_Some (client_socket (self st)) -> is_connected st = Done true st.
Proof.
  destruct st as [e w]. intros [c Hc]. fields. unfold is_connected. mon.
  now rewrite Hc.
Qed.

(** Claim C9.  Once [client_socket] is set it stays set through every
    sequence of calls on the endpoint, returning or raising, [close]
    included, and [is_connected] answers [True] in every state so
    reached. *)
Theorem client_socket_never_unset (st st' : State) :
  is_Some (client_socket (self st)) -> rtc after st st' ->
  is_Some (client_socket (self st')) /\ is_connected st' = Done true st'.
Proof.
  intros Hs Hr.
  assert (Hs' : is_Some (client_socket (self st'))).
  { exact (after_keeps _ st st' stable_client_socket Hr Hs). }
  split; [exact Hs'|]. now apply is_connected_set.
Qed.

(** ** [receive] on an endpoint without a [video] member *)

Lemma receive_show_without_video fuel st :
  video (self st) = None ->
  receive fuel true st = OutOfFuel \/
  exists st', receive fuel true st = Done RxNone st'.
Proof.
  intros Hv. rewrite receive_eq.
  destruct (receive_size fuel [] st) as [data st1|e st1|] eqn:E1; eauto.
  destruct (Struct.unpack_Q _ _) as [n|]; eauto.
  destruct (receive_payload fuel n _ st1) as [data' st2|e st2|] eqn:E2; eauto.
  destruct (pickle_loads _); eauto.
  unfold shown.
  pose proof (receive_size_keeps (fun e => video e = None) fuel [] st Hv) as K1.
  rewrite E1 in K1.
  pose proof (receive_payload_keeps (fun e => video e = None) fuel n
                (drop payload_size data) st1 K1) as K2.
  rewrite E2 in K2. unfold on_self in K2. rewrite K2. eauto.
Qed.

Lemma receive_show_fails_where_plain_returns fuel st r st1 :
  video (self st) = None ->
  receive fuel false st = Done r st1 ->
  receive fuel true st = Done RxNone st1.
Proof.
  intros Hv. rewrite !receive_eq.
  destruct (receive_size fuel [] st) as [data s1|e s1|] eqn:E1; try discriminate.
  2:{ now intros [= <- <-]. }
  destruct (Struct.unpack_Q _ _) as [n|]; [|now intros [= <- <-]].
  destruct (receive_payload fuel n _ s1) as [data' s2|e s2|] eqn:E2; try discriminate.
  2:{ now intros [= <- <-]. }
  destruct (pickle_loads _); [|now intros [= <- <-]].
  intros [= <- <-]. unfold shown.
  pose proof (receive_size_keeps (fun e => video e = None) fuel [] st Hv) as K1.
  rewrite E1 in K1.
  pose proof (receive_payload_keeps (fun e => video e = None) fuel n
                (drop payload_size data) s1 K1) as K2.
  rewrite E2 in K2. unfold on_self in K2. now rewrite K2.
Qed.

(** Claim C10.  On an endpoint built with [capture_video = False], in
    any state reached afterwards, [receive(show=True)] never hands back a
    frame: whenever it returns, it returns [None]; wherever
    [receive(show=False)] returns anything, [receive(show=True)] returns
    [None]; and with a complete well-formed message buffered on the
    socket it returns [None]. *)
Theorem receive_show_fails_without_capture (st0 st : State) :
  constructed false st0 -> rtc after st0 st ->
  (forall fuel,
     receive fuel true st = OutOfFuel \/
     exists st', receive fuel true st = Done RxNone st') /\
  (forall fuel r st1,
     receive fuel false st = Done r st1 ->
     receive fuel true st = Done RxNone st1) /\
  (forall fuel c sk pack payload more rest,
     client_socket (self st) = Some c ->
     sockets (os st) !! c = Some sk ->
     closed sk = false -> connected sk = true ->
     inbound sk = requeue (pack ++ payload ++ more) rest ->
     Struct.pack_Q (byteorder (os st)) (len payload) = Some pack ->
     len payload <= PY_SSIZE_T_MAX ->
     exists st', receive (S (S fuel)) true st = Done RxNone st').
Proof.
  intros Hc Hr.
  assert (Hv : video (self st) = None).
  { exact (after_keeps _ st0 st stable_no_video Hr (constructed_no_video st0 Hc)). }
  split; [|split].
  - intros fuel. now apply receive_show_without_video.
  - intros fuel r st1. now apply receive_show_fails_where_plain_returns.
  - intros fuel c sk pack payload more rest Hcs Hs Hcl Hco Hi Hp Hl.
    destruct (receive_buffered fuel true st c sk pack payload more rest)
      as (st2 & Hself & _ & ->); try assumption.
    destruct (pickle_loads payload); [|eauto].
    unfold shown. rewrite Hself, Hv. eauto.
Qed.

(** Claim C3, evaluated on two messages back to back, of 10 and 9
    bytes, when the network delivers the first 4 bytes on their own:
    decoding the first message takes 12 bytes off the stream, the first
    2 bytes of the second message with it. *)
Theorem receive_takes_bytes_of_next_message :
  unread 0%nat (client_on pipelined_split) = first_message ++ second_message /\
  length first_message = 10%nat /\
  option_map (unread 0%nat) (final_state (receive 3 false (client_on pipelined_split)))
  = Some (drop 12 (first_message ++ second_message)).
Proof.
  split; [reflexivity|]. split; [reflexivity|].
  rewrite receive_eq.
  change (receive_size 3 [] (client_on pipelined_split))
    with (Done (A:=bytes) (take 12 pipelined_wire)
            (client_on (segment (drop 12 pipelined_wire)))).
  cbv iota beta.
  change (Struct.unpack_Q _ _) with (Some 2).
  cbv iota beta.
  change (receive_payload 3 2 _ _)
    with (Done (A:=bytes) (drop 8 (take 12 pipelined_wire))
            (client_on (segment (drop 12 pipelined_wire)))).
  cbv iota beta.
  destruct (pickle_loads _); reflexivity.
Qed.

Lemma close_without_socket_type st :
  socket_type (self st) = None ->
  exists w', close st = Raised AttributeError {| self := self st; os := w' |} /\
    forall sk, sockets (os st) !! socket (self st) = Some sk ->
               sockets w' !! socket (self st) = Some (with_closed sk).
Proof.
  destruct st as [e w]. fields. intros Ht. unfold close, sock_close, Video_stop. mon.
  destruct (sockets w !! socket e) as [sk|] eqn:Hs; fields; rewrite Ht; fields.
  - eexists. split; [reflexivity|]. intros sk' [= <-]. fields.
    apply list_lookup_insert_eq. eapply lookup_lt_Some; eauto.
  - eexists. split; [reflexivity|]. intros sk' [=].
Qed.

Lemma stable_no_socket_type : stable (fun e => socket_type e = None).
Proof. split; intros; cbn; auto. Qed.

Lemma Server_start_stops fuel st st1 :
  is_connected st = Done true st -> receive fuel true st = Done RxNone st1 ->
  Server_start (S fuel) st = Raised TypeError st1.
Proof.
  intros Hc Hr. cbn [Server_start]. unfold bind at 1. rewrite Hc.
  unfold bind at 1. rewrite Hr. reflexivity.
Qed.

Lemma Client_start_stops fuel st st0 st1 :
  is_connected st = Done true st ->
  send None default_resolution false st = Done tt st0 ->
  receive fuel true st0 = Done RxNone st1 ->
  Client_start (S fuel) st = Raised TypeError st1.
Proof.
  intros Hc Hs Hr. cbn [Client_start]. unfold bind at 1. rewrite Hc.
  unfold bind at 1. rewrite Hs. unfold bind at 1. rewrite Hr. reflexivity.
Qed.

Lemma transmit_sends (frame : ndarray) res st c sk pack :
  client_socket (self st) = Some c ->
  sockets (os st) !! c = Some sk -> closed sk = false -> connected sk = true ->
  head (tx_script sk) = None \/ head (tx_script sk) = Some None ->
  Struct.pack_Q (byteorder (os st)) (len (pickle_dumps (Video_resize frame res)))
    = Some pack ->
  transmit frame res false st =
  Done tt {| self := self st;
             os := set_sockets
                     (<[c := with_sent (tail (tx_script sk))
                               (pack ++ pickle_dumps (Video_resize frame res)) sk]>
                        (sockets (os st))) (os st) |} /\
  length (pack ++ pickle_dumps (Video_resize frame res))
  = (8 + length (pickle_dumps (Video_resize frame res)))%nat.
Proof.
  intros Hc Hs Hcl Hco Ht Hp. destruct st as [e w]. fields. split.
  - unfold transmit. mon. rewrite Hp, Hc.
    unfold sock_sendall. mon. rewrite Hs, Hcl, Hco.
    destruct (tx_script sk) as [|[k|] rest]; cbn in *; try reflexivity.
    destruct Ht; congruence.
  - rewrite length_app, (pack_Q_length _ _ _ Hp). reflexivity.
Qed.

Lemma transmit_socket_error (frame : ndarray) res st c pack e w' :
  client_socket (self st) = Some c ->
  Struct.pack_Q (byteorder (os st)) (len (pickle_dumps (Video_resize frame res)))
    = Some pack ->
  sock_sendall c (pack ++ pickle_dumps (Video_resize frame res)) (os st)
    = Raised e w' ->
  transmit frame res false st = Raised e {| self := self st; os := w' |}.
Proof.
  intros Hc Hp Hs. destruct st as [e0 w]. fields. unfold transmit. mon.
  now rewrite Hp, Hc, Hs.
Qed.


(** ** A stream that ends inside the length prefix *)

Lemma slice_from_all {A} (n : Z) (l : list A) : len l <= n -> slice_from n l = [].
Proof.
  unfold len. revert n; induction l as [|x t IH]; intros n Hn;
    cbn [length slice_from] in *; [reflexivity|].
  destruct (Z.leb_spec n 0); [lia|]. apply IH. lia.
Qed.

Lemma receive_size_short (evs : list rx_event) :
  forall (data : bytes) (st : State) (c : sock_id) (sk : SockState) (extra : nat),
  client_socket (self st) = Some c ->
  sockets (os st) !! c = Some sk ->
  closed sk = false -> connected sk = true -> inbound sk = evs ->
  Forall (fun ev => ev <> RxError) evs ->
  (length data + length (pending evs) < payload_size)%nat ->
  exists st',
    receive_size (S (length evs + extra)) data st = Done (data ++ pending evs) st' /\
    byteorder (os st') = byteorder (os st).
Proof.
  induction evs as [|ev rest IH]; intros data st c sk extra Hc Hs Hcl Hco Hi Hseg Hlen;
    destruct st as [e w]; fields.
  - cbn [receive_size length Nat.add pending] in *.
    destruct (Nat.ltb_spec (length data) payload_size); [|lia].
    mon. rewrite Hc.
    rewrite (recv_closed_stream c _ w sk) by (auto; vm_compute; split; congruence).
    rewrite app_nil_r. eauto.
  - inversion Hseg as [|? ? Hev Hrest]; subst.
    destruct ev as [b bs|]; [|congruence].
    cbn [pending length Nat.add] in *. rewrite length_app in Hlen.
    cbn [receive_size].
    destruct (Nat.ltb_spec (length data) payload_size); [|lia].
    mon. rewrite Hc.
    rewrite (recv_segment c _ w sk b bs rest)
      by (auto; vm_compute; split; congruence).
    assert (Hfit : len (b :: bs) <= Z.of_nat payload_size)
      by (unfold len; cbn [length]; lia).
    rewrite (slice_to_all _ _ Hfit), (slice_from_all _ _ Hfit). cbn [requeue].
    remember (data ++ b :: bs) as d eqn:Ed.
    destruct (IH d
                {| self := e;
                   os := set_sockets (<[c := with_inbound rest sk]> (sockets w)) w |}
                c (with_inbound rest sk) extra) as (st' & Hrun & Hbo);
      fields; auto.
    + apply list_lookup_insert_eq. eapply lookup_lt_Some; eauto.
    + subst d. rewrite length_app. cbn [length]. lia.
    + exists st'. split; [|exact Hbo].
      replace (data ++ b :: bs ++ pending rest) with (d ++ pending rest)
        by (subst d; now rewrite <- app_assoc).
      destruct d as [|b0 l]; [destruct data; discriminate|]. exact Hrun.
Qed.

(** A stream that delivers fewer than 8 bytes and closes makes
    [receive] return [None]. *)
Lemma receive_short_prefix_returns_None (evs : list rx_event) (show : bool)
    (st : State) (c : sock_id) (sk : SockState) (extra : nat) :
  client_socket (self st) = Some c ->
  sockets (os st) !! c = Some sk ->
  closed sk = false -> connected sk = true -> inbound sk = evs ->
  Forall (fun ev => ev <> RxError) evs ->
  (length (pending evs) < payload_size)%nat ->
  exists st', receive (S (length evs + extra)) show st = Done RxNone st'.
Proof.
  intros Hc Hs Hcl Hco Hi Hseg Hlen.
  destruct (receive_size_short evs [] st c sk extra) as (st' & Hrun & _); auto.
  rewrite receive_eq, Hrun. cbn [app].
  unfold Struct.unpack_Q.
  rewrite take_ge by (unfold payload_size in *; lia).
  destruct (Nat.eqb_spec (length (pending evs)) Struct.calcsize_Q) as [E|_];
    [unfold payload_size in Hlen; lia|].
  eauto.
Qed.

(** ** A payload that is cut short *)

Lemma receive_payload_truncated fuel n b bs st c sk :
  client_socket (self st) = Some c ->
  sockets (os st) !! c = Some sk ->
  closed sk = false -> connected sk = true ->
  inbound sk = [Segment b bs] ->
  len (b :: bs) < n <= PY_SSIZE_T_MAX ->
  receive_payload fuel n [] st = OutOfFuel.
Proof.
  intros Hc Hs Hcl Hco Hi Hn.
  destruct fuel as [|fuel]; [reflexivity|].
  destruct st as [e w]; fields. cbn [receive_payload].
  destruct (Z.ltb_spec (len (@nil byte)) n) as [_|Hlt];
    [|unfold len in *; cbn [length] in *; lia].
  mon. rewrite Hc.
  rewrite (recv_segment c n w sk b bs []) by (auto; unfold len in *; lia).
  assert (Hfit : len (b :: bs) <= n) by lia.
  rewrite (slice_to_all _ _ Hfit), (slice_from_all _ _ Hfit). cbn [app requeue].
  eapply (receive_payload_stalls fuel n (b :: bs) _ c (with_inbound [] sk));
    fields; auto; try discriminate.
  apply list_lookup_insert_eq. eapply lookup_lt_Some; eauto.
Qed.

(** Whatever length [n] up to 10 MB the prefix announces, a payload cut
    short after at least one byte keeps [receive] from returning. *)
Lemma receive_spins_on_truncated_payloads (n : Z) (b : byte) (bs : bytes)
    (fuel : nat) (show : bool) :
  len (b :: bs) < n <= 10485760 ->
  receive fuel show (client_on (segment (Struct.le_bytes 8 n ++ b :: bs)))
  = OutOfFuel.
Proof.
  intros Hn.
  assert (Hn0 : 0 <= n < 2 ^ 64).
  { unfold len in *. cbn [length] in Hn. lia. }
  destruct (pack_Q_defined Struct.little n Hn0) as [pack Hp].
  pose proof (pack_Q_inv _ _ _ Hp) as [_ Hpack].
  change (pack = Struct.le_bytes 8 n) in Hpack. rewrite <- Hpack.
  pose proof (pack_Q_length _ _ _ Hp) as Hlen.
  destruct fuel as [|[|fuel]]; [reflexivity| |].
  - rewrite receive_eq.
    destruct pack as [|p0 pack]; [discriminate|].
    assert (E : receive_size 1 [] (client_on (segment ((p0 :: pack) ++ b :: bs)))
                = OutOfFuel) by reflexivity.
    now rewrite E.
  - rewrite receive_eq.
    rewrite (receive_size_buffered fuel _ 0%nat
               (connection (segment (pack ++ b :: bs)) []) pack (b :: bs) []);
      try reflexivity; [|exact Hlen].
    change (byteorder (os (rx_set _ _ _ _))) with Struct.little.
    rewrite take_ge by (rewrite Hlen; reflexivity).
    rewrite (unpack_pack_Q _ _ _ Hp).
    rewrite drop_ge by (rewrite Hlen; reflexivity).
    erewrite (receive_payload_truncated _ n b bs _ 0%nat); try reflexivity.
    unfold PY_SSIZE_T_MAX. lia.
Qed.

(** The scenario of a prefix announcing 10 MB with only 4 bytes sent
    before the stream closes. *)
Lemma receive_spins_on_10MB_prefix (fuel : nat) (show : bool) :
  receive fuel show
    (client_on (segment (Struct.le_bytes 8 10485760 ++
                         [Byte.x01; Byte.x02; Byte.x03; Byte.x04])))
  = OutOfFuel.
Proof.
  apply receive_spins_on_truncated_payloads.
  unfold len. cbn [length]. lia.
Qed.

(** ** The prompt for a port *)

(** The turns given to the loop of [_set_port] are never used up. *)
Lemma port_prompts_total (turns : nat) :
  forall st, (length (stdin (os st)) <= turns)%nat ->
             port_prompts turns st <> OutOfFuel.
Proof.
  induction turns as [|turns IH]; intros [e w] Hlen; fields;
    cbn [port_prompts]; unfold Logger_input; mon; fields;
    (destruct (socket_type e) as [t|]; [|discriminate]);
    (destruct (stdin w) as [|line rest] eqn:Hin; [discriminate|]);
    cbn [length] in Hlen; try lia.
  fields.
  destruct (String.length line =? 4)%nat;
    [destruct (py_int line); [discriminate|]|]; apply IH; fields; lia.
Qed.

Lemma set_port_total st : _set_port st <> OutOfFuel.
Proof.
  destruct st as [e w]. unfold _set_port. mon. fields.
  apply (port_prompts_total _ {| self := e; os := w |}). reflexivity.
Qed.

(** Without [socket_type] the prompt text cannot be built. *)
Lemma set_port_without_socket_type st :
  socket_type (self st) = None -> _set_port st = Raised AttributeError st.
Proof.
  destruct st as [e w]. fields. intros Ht. unfold _set_port. mon. fields.
  destruct (length (stdin w)); cbn [port_prompts]; mon; now rewrite Ht.
Qed.

(** ** [video] is there whenever capture is on *)

Lemma stable_video_ready : stable video_ready.
Proof. split; intros; unfold video_ready in *; cbn; auto. Qed.

Lemma constructed_video_ready capture st :
  constructed capture st -> video_ready (self st).
Proof.
  intros (name & show_ip & res & src & vb & w0 & [E|E]).
  - now apply Server_init_attrs in E as (_ & _ & _ & _ & Hv).
  - now apply Client_init_attrs in E as (_ & _ & _ & Hv).
Qed.

Lemma video_ready_everywhere capture st0 st :
  constructed capture st0 -> rtc after st0 st -> video_ready (self st).
Proof.
  intros Hc Hr.
  exact (after_keeps _ st0 st stable_video_ready Hr
           (constructed_video_ready capture st0 Hc)).
Qed.

(** ** [close] on any endpoint the constructors produce *)

Lemma constructed_no_socket_type capture st :
  constructed capture st -> socket_type (self st) = None.
Proof.
  intros (name & show_ip & res & src & vb & w0 & [E|E]).
  - now apply Server_init_attrs in E as (_ & _ & Ht & _).
  - now apply Client_init_attrs in E as (_ & Ht & _).
Qed.

Lemma close_raises_everywhere capture st0 st :
  constructed capture st0 -> rtc after st0 st ->
  exists w', close st = Raised AttributeError {| self := self st; os := w' |}.
Proof.
  intros Hc Hr.
  assert (Ht : socket_type (self st) = None).
  { exact (after_keeps _ st0 st stable_no_socket_type Hr
             (constructed_no_socket_type capture st0 Hc)). }
  destruct (close_without_socket_type st Ht) as (w' & Hw & _). eauto.
Qed.

(** ** The failing scenarios *)

(** Claim C1, evaluated on three failures: the peer has closed, [recv]
    raises (time-out), the stream ends after 3 bytes.  [receive] does not
    raise, but what it returns is [None], not the pair [(False, None)]. *)
Theorem receive_failure_returns_None (fuel : nat) (show : bool) :
  receive (S fuel) show (client_on []) = Done RxNone (client_on []) /\
  receive (S fuel) show (client_on [RxError]) = Done RxNone (client_on []) /\
  receive (S (S fuel)) show (client_on (segment [Byte.x01; Byte.x02; Byte.x03]))
    = Done RxNone (client_on []) /\
  RxNone <> RxTuple false None.
Proof. repeat split; try reflexivity. discriminate. Qed.

(** Claim C2, evaluated on a prefix announcing 10 bytes followed by 4
    bytes and the end of the stream: [receive] does not return, on any
    amount of fuel. *)
Theorem receive_spins_on_truncated_payload (fuel : nat) (show : bool) :
  receive fuel show (client_on (segment truncated_wire)) = OutOfFuel.
Proof.
  destruct fuel as [|[|fuel]]; [reflexivity|reflexivity|].
  rewrite receive_eq.
  change (receive_size (S (S fuel)) [] (client_on (segment truncated_wire)))
    with (Done (A:=bytes) (Struct.le_bytes 8 10)
            (client_on (segment (drop 8 truncated_wire)))).
  cbv iota beta.
  change (Struct.unpack_Q _ _) with (Some 10).
  cbv iota beta.
  change (receive_payload (S (S fuel)) 10 _ _)
    with (receive_payload (S fuel) 10 (drop 8 truncated_wire) (client_on [])).
  erewrite receive_payload_stalls; try reflexivity;
    [discriminate | vm_compute; split; congruence].
Qed.

(** Claim C8, evaluated on a connection the peer has closed: the server
    loop ends on the first failed [receive], with [TypeError] from
    unpacking [None], although [is_connected] still answers [True]; the
    client loop ends the same way, by the exception and not by [break]. *)
Theorem start_loops_end_on_failed_receive (fuel : nat) :
  is_connected (server_on []) = Done true (server_on []) /\
  Server_start (S (S fuel)) (server_on []) = Raised TypeError (server_on []) /\
  Client_start (S (S fuel)) (client_on []) = Raised TypeError (client_on []).
Proof. repeat split; reflexivity. Qed.

(** Claim C6, evaluated on a freshly built client: [close] closes the
    socket and then raises [AttributeError], reading [socket_type]; a
    second [close] leaves the socket as it was and raises again. *)
Theorem close_raises_AttributeError :
  Client_init "Client" false false default_resolution 0 false (quiet_world [])
  = Done (self lone_client) (os lone_client) /\
  close lone_client
  = Raised AttributeError
      {| self := plain_client;
         os := set_trace [EvDestroyAllWindows]
                 (quiet_world [with_closed fresh_socket]) |} /\
  close {| self := plain_client;
           os := set_trace [EvDestroyAllWindows]
                   (quiet_world [with_closed fresh_socket]) |}
  = Raised AttributeError
      {| self := plain_client;
         os := set_trace [EvDestroyAllWindows; EvDestroyAllWindows]
                 (quiet_world [with_closed fresh_socket]) |}.
Proof. repeat split; reflexivity. Qed.

(** * Further properties of the code *)

(** ** What the constructors leave behind *)

Lemma constructed_capture capture st :
  constructed capture st -> capture_video (self st) = capture.
Proof.
  intros (name & show_ip & res & src & vb & w0 & [Hi|Hi]);
    unfold Server_init, Client_init in Hi; revert Hi; mon;
    destruct (_Socket_init _ _ _ _ _ _ _) as [e w| |] eqn:E; try discriminate;
    intros [= <- _]; apply Socket_init_attrs in E; fields; tauto.
Qed.

Lemma constructed_fresh capture st :
  constructed capture st -> timed_out (self st) = false.
Proof.
  intros (name & show_ip & res & src & vb & w0 & [Hi|Hi]);
    unfold Server_init, Client_init, _Socket_init, socket_socket in Hi;
    revert Hi; mon; split_cases; try discriminate; intros [= <- _]; reflexivity.
Qed.

Lemma no_capture_everywhere st0 st :
  constructed false st0 -> rtc after st0 st ->
  capture_video (self st) = false /\ video (self st) = None.
Proof.
  intros Hc Hr. split.
  - apply (after_keeps (fun e => capture_video e = false) st0 st); auto.
    + split; intros; cbn; auto.
    + now apply constructed_capture.
  - apply (after_keeps _ st0 st stable_no_video Hr). now apply constructed_no_video.
Qed.

Lemma send_nothing_at_hand res show st :
  capture_video (self st) = false -> send None res show st = Done tt st.
Proof. intros Hcap. destruct st as [e w]; fields. unfold send. mon. now rewrite Hcap. Qed.

Lemma is_connected_unset st :
  client_socket (self st) = None -> is_connected st = Raised AttributeError st.
Proof. intros Hn. destruct st as [e w]; fields. unfold is_connected. mon. now rewrite Hn. Qed.

(** ** [receive] and [send] *)

(** Property X1. [receive] never raises: from any state, with either value
    of [show], it returns [None] or a pair [(True, frame)], never a pair
    whose first component is [False], and it leaves every attribute of the
    endpoint as it was (hosting.py:92-113). *)
Theorem receive_returns_frame_or_None (fuel : nat) (show : bool) (st : State) :
  match receive fuel show st with
  | Done r st' =>
      (r = RxNone \/ exists frame, r = RxTuple true (Some frame)) /\
      self st' = self st
  | Raised _ _ => False
  | OutOfFuel => True
  end.
Proof.
  pose proof (receive_keeps (fun e => e = self st) fuel show st eq_refl) as Hk.
  destruct (receive fuel show st) as [r st'|e st'|] eqn:E; auto.
  - split; [eapply receive_result_shape; eauto | exact Hk].
  - now apply receive_never_raises in E.
Qed.

(** Property X2. Round trip. [send(frame, resolution)] on a healthy
    connection writes the 8-byte length followed by the pickle of the
    resized frame; when these bytes are at hand on the receiving side,
    whatever follows them, [receive(show=False)] there returns [(True,
    resized frame)] and leaves the bytes that follow unread. Both machines
    have the same byte order, [pickle.loads] inverts [pickle.dumps] on this
    frame and the pickle is shorter than [2^63] bytes (hosting.py:66-72,
    93-111). *)
Theorem send_then_receive_round_trip (frame : ndarray) (res : Resolution)
    (tx rx : State) (c c' : sock_id) (sk sk' : SockState) :
  client_socket (self tx) = Some c ->
  sockets (os tx) !! c = Some sk ->
  closed sk = false -> connected sk = true ->
  head (tx_script sk) = None \/ head (tx_script sk) = Some None ->
  len (pickle_dumps (Video_resize frame res)) <= PY_SSIZE_T_MAX ->
  pickle_loads (pickle_dumps (Video_resize frame res)) = Some (Video_resize frame res) ->
  byteorder (os rx) = byteorder (os tx) ->
  client_socket (self rx) = Some c' ->
  sockets (os rx) !! c' = Some sk' ->
  closed sk' = false -> connected sk' = true ->
  exists size tx' sk1,
    Struct.pack_Q (byteorder (os tx)) (len (pickle_dumps (Video_resize frame res)))
      = Some size /\
    send (Some frame) res false tx = Done tt tx' /\
    self tx' = self tx /\
    sockets (os tx') !! c = Some sk1 /\
    outbound sk1 = outbound sk ++ size ++ pickle_dumps (Video_resize frame res) /\
    forall fuel more rest,
      inbound sk' = requeue (size ++ pickle_dumps (Video_resize frame res) ++ more) rest ->
      exists rx',
        receive (S (S fuel)) false rx
        = Done (RxTuple true (Some (Video_resize frame res))) rx' /\
        self rx' = self rx /\
        unread c' rx' = more ++ pending rest.
Proof.
  intros Hc Hs Hcl Hco Htx Hlen Hpk Hbo Hc' Hs' Hcl' Hco'.
  destruct (pack_Q_defined (byteorder (os tx))
              (len (pickle_dumps (Video_resize frame res)))) as [pack Hp].
  { unfold PY_SSIZE_T_MAX, len in *. lia. }
  destruct (transmit_sends frame res tx c sk pack Hc Hs Hcl Hco Htx Hp) as [Ht Hl].
  exists pack. eexists _, _. rewrite send_frame_eq, Ht.
  split; [exact Hp|]. split; [reflexivity|]. split; [reflexivity|]. split.
  { fields. apply list_lookup_insert_eq. eapply lookup_lt_Some; eauto. }
  split; [reflexivity|].
  intros fuel more rest Hi.
  rewrite <- Hbo in Hp.
  destruct (receive_buffered fuel false rx c' sk' pack _ more rest
              Hc' Hs' Hcl' Hco' Hi Hp Hlen) as (rx' & Hself & Hun & Hr).
  exists rx'. rewrite Hr, Hpk. auto.
Qed.

(** Property X3. On an endpoint built with [capture_video=False], at any
    later moment: [send()] without a frame does nothing at all, and
    [send(frame, show=True)] does nothing either, because [self.video] does
    not exist and the bare [except] hides the [AttributeError]: the frame is
    never sent (hosting.py:58-74). *)
Theorem send_without_capture_sends_nothing (st0 st : State) (res : Resolution) :
  constructed false st0 -> rtc after st0 st ->
  (forall show, send None res show st = Done tt st) /\
  (forall frame, send (Some frame) res true st = Done tt st).
Proof.
  intros Hc Hr.
  destruct (no_capture_everywhere st0 st Hc Hr) as [Hcap Hv].
  split; [intros show; now apply send_nothing_at_hand|].
  destruct st as [e w]; fields.
  intros frame. unfold send, transmit. mon.
    destruct (Struct.pack_Q _ _); [|reflexivity]. mon. now rewrite Hv.
Qed.

(** Property X4. While [client_socket] is not assigned, as on a [Server]
    that has not accepted a connection yet, [is_connected] raises
    [AttributeError] (it does not return [False]), and so does
    [Server.start]; [receive] returns [None] and [send(frame)] returns
    without sending, the state unchanged (hosting.py:72, 94, 124, 207). *)
Theorem endpoint_without_connection (st : State) :
  client_socket (self st) = None ->
  is_connected st = Raised AttributeError st /\
  (forall fuel, Server_start (S fuel) st = Raised AttributeError st) /\
  (forall fuel show, receive (S fuel) show st = Done RxNone st) /\
  (forall frame res, send (Some frame) res false st = Done tt st).
Proof.
  intros Hn. pose proof (is_connected_unset st Hn) as Hi.
  destruct st as [e w]. fields.
  repeat split.
  - exact Hi.
  - intros fuel. cbn [Server_start]. unfold bind at 1. now rewrite Hi.
  - intros fuel show. rewrite receive_eq. cbn [receive_size].
    change (length [] <? payload_size)%nat with true. mon. now rewrite Hn.
  - intros frame res. unfold send, transmit. mon.
    destruct (Struct.pack_Q _ _); [|reflexivity]. mon. now rewrite Hn.
Qed.

(** Property X5. On an endpoint built with [capture_video=False], at any
    later moment, neither [Server.start] nor [Client.start] returns
    normally: the loop ends with [TypeError] ([receive(show=True)] gave
    [None]) or with [AttributeError] (no connection yet), or it does not end
    (hosting.py:203-210, 277-285). *)
Theorem start_without_capture_never_returns (st0 st : State) (fuel : nat) :
  constructed false st0 -> rtc after st0 st ->
  match Server_start fuel st with
  | Done _ _ => False
  | Raised e _ => e = TypeError \/ e = AttributeError
  | OutOfFuel => True
  end /\
  match Client_start fuel st with
  | Done _ _ => False
  | Raised e _ => e = TypeError \/ e = AttributeError
  | OutOfFuel => True
  end.
Proof.
  intros Hc Hr.
  destruct (no_capture_everywhere st0 st Hc Hr) as [Hcap Hv].
  destruct fuel as [|fuel]; [split; exact I|].
  cbn [Server_start Client_start].
  destruct (client_socket (self st)) as [c|] eqn:Hcs.
  - assert (Hon : is_connected st = Done true st)
      by (apply is_connected_set; rewrite Hcs; eauto).
    pose proof (send_nothing_at_hand default_resolution false st Hcap) as Hsend.
    unfold bind. rewrite Hon, Hsend.
    destruct (receive_show_without_video fuel st Hv) as [->|[st' ->]];
      [split; exact I|].
    split; left; reflexivity.
  - unfold bind. rewrite is_connected_unset by exact Hcs. split; right; reflexivity.
Qed.


(** ** [connect] and the prompts *)

Lemma no_socket_type_everywhere capture st0 st :
  constructed capture st0 -> rtc after st0 st -> socket_type (self st) = None.
Proof.
  intros Hc Hr. apply (after_keeps _ st0 st stable_no_socket_type Hr).
  now apply (constructed_no_socket_type capture).
Qed.

Lemma set_ip_without_socket_type st :
  socket_type (self st) = None -> _set_ip st = Raised AttributeError st.
Proof. intros Hn. destruct st as [e w]; fields. unfold _set_ip. mon. now rewrite Hn. Qed.

(** Property X6. On an endpoint the constructors built, as long as no
    [connect] has failed, [Server.connect()] without a port (or with port
    [0]) and [Client.connect()] without an address or without a port raise
    [AttributeError] in blocking mode, before any prompt or socket call and
    with the state unchanged: [_set_port] and [_set_ip] read
    [self.socket_type], which nothing assigns (hosting.py:30, 182-183, 238,
    259-262). *)
Theorem connect_without_port_raises (capture : bool) (st0 st : State) (fuel : nat) :
  constructed capture st0 -> rtc after st0 st -> timed_out (self st) = false ->
  (forall port, truthy_int port = false ->
     Server_connect (S fuel) port 0 st = Raised AttributeError st) /\
  (forall ip port, truthy_str ip = false \/ truthy_int port = false ->
     Client_connect (S fuel) ip port 0 st = Raised AttributeError st).
Proof.
  intros Hc Hr Ht.
  pose proof (no_socket_type_everywhere capture st0 st Hc Hr) as Hn.
  pose proof (set_port_without_socket_type st Hn) as Hp.
  pose proof (set_ip_without_socket_type st Hn) as Hi.
  destruct st as [e w]; fields. split.
  - intros port Hport. cbn [Server_connect]. change (0 =? 0) with true.
    rewrite Hport. mon. rewrite Ht. fields. mon. now rewrite Hp.
  - intros ip port Hor. cbn [Client_connect]. change (0 =? 0) with true.
    mon. rewrite Ht. fields.
    destruct (truthy_str ip) eqn:Hip; fields.
    + destruct Hor as [|Hport]; [discriminate|]. rewrite Hport. fields.
      mon. now rewrite Hp.
    + mon. now rewrite Hi.
Qed.

Lemma port_prompts_scan (t : string) (lines : list string) :
  forall (turns : nat) (st : State),
  socket_type (self st) = Some t -> stdin (os st) = lines ->
  (length lines <= turns)%nat ->
  match port_prompts turns st with
  | Done p st' =>
      self st' = self st /\
      exists skipped line,
        lines = skipped ++ line :: stdin (os st') /\
        Forall (fun l => port_of_line l = None) skipped /\
        port_of_line line = Some p
  | Raised e st' =>
      e = EOFError /\ self st' = self st /\ stdin (os st') = [] /\
      Forall (fun l => port_of_line l = None) lines
  | OutOfFuel => False
  end.
Proof.
  induction lines as [|l rest IH]; intros turns [e w] Ht Hin Hlen; fields.
  - destruct turns; cbn [port_prompts]; unfold Logger_input; mon; rewrite Ht;
      fields; rewrite Hin; auto.
  - destruct turns as [|turns]; [cbn in Hlen; lia|].
    cbn [port_prompts]. unfold Logger_input. mon. rewrite Ht. fields. rewrite Hin.
    fields.
    destruct (port_of_line l) as [p|] eqn:Hl.
    + pose proof Hl as Hl'. unfold port_of_line in Hl'.
      destruct (Nat.eqb _ 4); [|discriminate].
      rewrite Hl'. split; [reflexivity|]. exists [], l. fields. auto.
    + set (st1 := fun m =>
                    {| self := e;
                       os := set_trace (EvLog WARNING m :: EvPrompt (MsgSelectPort t) :: trace w)
                               (set_stdin rest w) |}).
      assert (Hgo : forall m,
                match port_prompts turns (st1 m) with
                | Done p st' =>
                    self st' = e /\
                    exists skipped line,
                      l :: rest = skipped ++ line :: stdin (os st') /\
                      Forall (fun l => port_of_line l = None) skipped /\
                      port_of_line line = Some p
                | Raised e' st' =>
                    e' = EOFError /\ self st' = e /\ stdin (os st') = [] /\
                    Forall (fun l => port_of_line l = None) (l :: rest)
                | OutOfFuel => False
                end).
      { intros m. specialize (IH turns (st1 m) Ht eq_refl ltac:(cbn in Hlen; lia)).
        destruct (port_prompts turns (st1 m)) as [p st'|e' st'|]; [| |exact IH].
        - destruct IH as (Hs & skipped & line & Heq & Hf & Hp).
          split; [exact Hs|]. exists (l :: skipped), line.
          rewrite Heq at 1. auto.
        - destruct IH as (-> & Hs & Hst & Hf). auto. }
      pose proof Hl as Hl'. unfold port_of_line in Hl'.
      destruct (Nat.eqb _ 4); [rewrite Hl'|]; mon; fields; apply Hgo.
Qed.

(** Property X7. Once the caller has assigned [socket_type] by hand (the
    package never does), [_set_port] terminates on every input: it returns
    the number on the first line that has exactly four characters and that
    [int] converts, having consumed that line and the lines before it, none
    of which qualified; if no line qualifies it raises [EOFError] with the
    input used up. The attributes are unchanged (hosting.py:28-39). *)
Theorem set_port_scans_the_input (st : State) (t : string) :
  socket_type (self st) = Some t ->
  match _set_port st with
  | Done p st' =>
      self st' = self st /\
      exists skipped line,
        stdin (os st) = skipped ++ line :: stdin (os st') /\
        Forall (fun l => port_of_line l = None) skipped /\
        port_of_line line = Some p
  | Raised e st' =>
      e = EOFError /\ self st' = self st /\ stdin (os st') = [] /\
      Forall (fun l => port_of_line l = None) (stdin (os st))
  | OutOfFuel => False
  end.
Proof.
  intros Ht. unfold _set_port.
  pose proof (port_prompts_scan t (stdin (os st)) (length (stdin (os st))) st
                Ht eq_refl (le_n _)) as Hs.
  destruct st as [e w]. mon. exact Hs.
Qed.

(** Property X8. On a first [Server.connect(port)] in blocking mode,
    whatever exception [bind] raises reaches the caller as it is, from the
    state [bind] left: there is no [listen], no [accept] (the trace and the
    count of [accept] calls are unchanged) and [timed_out] stays [False]
    (hosting.py:184-188). *)
Theorem Server_connect_reraises_bind_error (p : Z) (st : State) (ss : sock_id)
    (e : exn) (w' : World) (fuel : nat) :
  timed_out (self st) = false -> server_socket (self st) = Some ss -> p <> 0 ->
  sock_bind ss (host_ip (self st)) p (os st) = Raised e w' ->
  Server_connect (S fuel) (Some p) 0 st = Raised e {| self := self st; os := w' |} /\
  trace w' = trace (os st) /\ accept_calls w' = accept_calls (os st).
Proof.
  intros Ht Hss Hp Hb. destruct st as [s w]; fields. split.
  - cbn [Server_connect]. change (0 =? 0) with true. cbn [truthy_int].
    assert (Hz : (p =? 0) = false) by lia. rewrite Hz. mon. rewrite Ht. fields.
    mon. rewrite Hss. mon. now rewrite Hb.
  - revert Hb. unfold sock_bind. mon. split_cases; intros [= <- <-]; fields; auto.
Qed.

(** ** The [timed_out] flag *)

Lemma Server_connect_keeps_timed_out fuel port timeout :
  keeps (on_self (fun e => timed_out e = true)) (Server_connect fuel port timeout).
Proof.
  revert port.
  induction fuel as [|fuel IH]; intros port; cbn [Server_connect]; keeps_all;
    try (apply keeps_assign; intros; cbn; auto); apply IH.
Qed.

Lemma Client_connect_keeps_timed_out fuel ip port timeout :
  keeps (on_self (fun e => timed_out e = true)) (Client_connect fuel ip port timeout).
Proof.
  revert ip port.
  induction fuel as [|fuel IH]; intros ip port; cbn [Client_connect]; keeps_all;
    try (apply keeps_assign; intros; cbn; auto); apply IH.
Qed.

(** Property X9. Once [timed_out] is [True] it stays [True] over any
    sequence of calls, returning or raising: the only assignment after
    construction is [self.timed_out = True] (hosting.py:21, 196, 270). *)
Theorem timed_out_is_never_cleared (st st' : State) :
  timed_out (self st) = true -> rtc after st st' -> timed_out (self st') = true.
Proof.
  intros Ht Hr. induction Hr as [|st st1 st2 (fuel & c & Hstep) _ IH]; [exact Ht|].
  apply IH.
  assert (Hk : keeps (on_self (fun e => timed_out e = true)) (run fuel c)).
  { destruct c; cbn [run]; keeps_all;
      auto using Server_connect_keeps_timed_out, Client_connect_keeps_timed_out. }
  specialize (Hk st Ht). destruct (run fuel c st); subst; auto; contradiction.
Qed.

(** Property X10. After a failed [connect] ([timed_out] is [True]) a later
    [Server.connect] in blocking mode whose [accept] succeeds needs no port
    ([None] will do), does not prompt, does not [bind] again and logs
    nothing; it allocates a new socket for the connection and stores it in
    [client_socket], and the connection it held before, if any, is
    released (hosting.py:181-194). *)
Theorem Server_connect_after_timeout (port : option Z) (st : State) (ss : sock_id)
    (addr : string) (peer : PeerScript) (fuel : nat) :
  timed_out (self st) = true ->
  server_socket (self st) = Some ss -> live ss (os st) ->
  accept_script (os st) (accept_calls (os st)) = Some (addr, peer) ->
  exists st',
    Server_connect (S fuel) port 0 st = Done tt st' /\
    client_socket (self st') = Some (length (sockets (os st))) /\
    sockets (os st')
    = sockets (let_go (client_socket (self st)) (self st') (os st)) ++
      [established peer fresh_socket] /\
    trace (os st') = EvAccept ss :: trace (os st) /\
    bind_script (os st') = bind_script (os st) /\
    stdin (os st') = stdin (os st).
Proof.
  intros Ht Hss Hl Ha.
  rewrite (Server_connect_accepts port st ss addr peer fuel Hss Hl (or_introl Ht) Ha).
  eexists; split; [reflexivity|].
  unfold Server_connected, Server_prelude. rewrite Ht. fields. rewrite Ht.
  split; [reflexivity|]. split; [now apply let_go_accept|].
  rewrite let_go_trace. split; [reflexivity|].
  unfold let_go. destruct (client_socket (self st)) as [o|]; [|split; reflexivity].
  destruct (referenced o (rebound st)); [split; reflexivity|].
  unfold closed_at, accept_granted, accept_refused. fields.
  destruct (_ !! o); split; reflexivity.
Qed.

(** Property X11. [Client.connect] in blocking mode, when [k] attempts fail
    and the next one succeeds: a call that may nest more than [k] deep
    leaves the socket connected and returns [True] only if [k = 0], since
    after a retry the outer activation drops the result of the recursive
    call and returns [None]; a call that may nest [k] deep or less ends
    with [RecursionError] before the successful attempt
    (hosting.py:264-275). *)
Theorem Client_connect_returns_True_at_once (i : string) (p : Z) (c : sock_id)
    (sk : SockState) (peer : PeerScript) (k : nat) (st : State) :
  client_socket (self st) = Some c ->
  sockets (os st) !! c = Some sk -> closed sk = false ->
  can_dial i p st ->
  (forall j, (j < k)%nat ->
     dial_script (os st) (dial_calls (os st) + j)%nat = None) ->
  dial_script (os st) (dial_calls (os st) + k)%nat = Some peer ->
  (forall depth, (depth <= k)%nat ->
     exists st',
       Client_connect depth (Some i) (Some p) 0 st = Raised RecursionError st') /\
  exists st',
    (forall fuel,
       Client_connect (S k + fuel) (Some i) (Some p) 0 st
       = Done (match k with O => RetTrue | S _ => RetNone end) st') /\
    (exists sk', sockets (os st') !! c = Some sk' /\ connected sk' = true).
Proof.
  intros Hc Hs Hcl Hd Hr Hg.
  destruct (Client_connect_blocking i p c sk peer k st Hc Hs Hcl Hd Hr Hg)
    as (Hearly & st' & Hrun & _ & Hco & _).
  split; [exact Hearly|].
  exists st'. split; [exact Hrun | exact Hco].
Qed.

(** Property X12. When ESC is pressed while [send(frame, show=True)]
    displays the frame, [Video.show] closes the windows and calls [exit()],
    but the bare [except] of [send] catches the [SystemExit]: [send] returns
    normally, the process goes on and the frame is not sent
    (hosting.py:69-74, video.py:60-63). *)
Theorem send_show_escape_is_swallowed (frame : ndarray) (res : Resolution)
    (st : State) (v : VideoObj) (ks : list bool) :
  video (self st) = Some v -> keys (os st) = true :: ks ->
  len (pickle_dumps (Video_resize frame res)) < 2 ^ 64 ->
  exists st',
    send (Some frame) res true st = Done tt st' /\
    self st' = self st /\
    sockets (os st') = sockets (os st) /\
    keys (os st') = ks /\
    trace (os st')
    = EvDestroyAllWindows ::
      EvImshow (win_name v)
        (Video_resize (Video_resize frame res) (screen_resolution (self st))) ::
      trace (os st).
Proof.
  intros Hv Hk Hlen. destruct st as [e w]; fields.
  destruct (pack_Q_defined (byteorder w) (len (pickle_dumps (Video_resize frame res))))
    as [pack Hp]; [unfold len in *; lia|].
  unfold send, transmit, Video_show. mon. rewrite Hp. mon. rewrite Hv. fields.
  rewrite Hk. fields. eexists. split; [reflexivity|]. fields.
  repeat split; reflexivity.
Qed.

(** ** The connection in [client_socket] stays open *)

Lemma live_insert c s sk l w :
  closed sk = false -> live c (set_sockets l w) ->
  live c (set_sockets (<[s := sk]> l) w).
Proof.
  intros Hsk (sk0 & Hs & Hc). unfold live. fields.
  destruct (decide (s = c)) as [->|Hne].
  - exists sk. rewrite list_lookup_insert_eq by (eapply lookup_lt_Some; eauto). auto.
  - exists sk0. rewrite list_lookup_insert_ne by exact Hne. auto.
Qed.

Lemma live_app c l l' w :
  live c (set_sockets l w) -> live c (set_sockets (l ++ l') w).
Proof.
  intros (sk0 & Hs & Hc). exists sk0. fields. split; [|exact Hc].
  rewrite lookup_app_l by (eapply lookup_lt_Some; eauto). exact Hs.
Qed.

Ltac live_goal :=
  try exact I;
  try match goal with
      | Hw : live ?c ?w |- live ?c ?W =>
          let L := eval cbn [sockets set_sockets set_bind_script set_accept_calls
                             set_dial_calls set_camera set_keys set_stdin set_trace]
                   in (sockets W) in
          change (live c (set_sockets L w));
          repeat first
            [ exact Hw
            | apply live_app
            | apply live_insert; [fields; first [assumption|reflexivity]|] ]
      end.

Ltac innermost_eq x :=
  lazymatch x with
  | context [match ?y with _ => _ end] => innermost_eq y
  | _ => destruct x eqn:?
  end.

Ltac world_keeps :=
  intros w Hw; mon;
  repeat match goal with
         | |- context [match ?x with _ => _ end] => innermost_eq x
         end;
  live_goal.

Lemma recv_keeps_live c s n : keeps (live c) (sock_recv s n).
Proof. unfold sock_recv. world_keeps. Qed.

Lemma sendall_keeps_live c s data : keeps (live c) (sock_sendall s data).
Proof. unfold sock_sendall. world_keeps. Qed.

Lemma settimeout_keeps_live c s t : keeps (live c) (sock_settimeout s t).
Proof. unfold sock_settimeout. world_keeps. Qed.

Lemma bind_keeps_live c s ip p : keeps (live c) (sock_bind s ip p).
Proof. unfold sock_bind. world_keeps. Qed.

Lemma listen_keeps_live c s b : keeps (live c) (sock_listen s b).
Proof. unfold sock_listen. world_keeps. Qed.

Lemma accept_keeps_live c s : keeps (live c) (sock_accept s).
Proof. unfold sock_accept, socket_socket. world_keeps. Qed.

Lemma connect_keeps_live c s ip p : keeps (live c) (sock_connect s ip p).
Proof. unfold sock_connect. world_keeps. Qed.

Lemma Logger_keeps_live c l m : keeps (live c) (Logger l m).
Proof. world_keeps. Qed.

Lemma Logger_input_keeps_live c m : keeps (live c) (Logger_input m).
Proof. unfold Logger_input. world_keeps. Qed.

Lemma sleep_keeps_live c s : keeps (live c) (time_sleep s).
Proof. world_keeps. Qed.

Lemma Video_read_keeps_live c v : keeps (live c) (Video_read v).
Proof. unfold Video_read. world_keeps. Qed.

Lemma Video_show_keeps_live c v f : keeps (live c) (Video_show v f).
Proof. unfold Video_show. world_keeps. Qed.

Lemma Video_stop_keeps_live c : keeps (live c) Video_stop.
Proof. unfold Video_stop. world_keeps. Qed.

Lemma gets_keeps_live {A} c (f : World -> A) : keeps (live c) (gets f).
Proof. world_keeps. Qed.

Lemma close_keeps_live c s : s <> c -> keeps (live c) (sock_close s).
Proof.
  intros Hne w (sk0 & Hs & Hc). unfold sock_close.
  destruct (sockets w !! s); [|exists sk0; auto].
  exists sk0. fields. rewrite list_lookup_insert_ne by exact Hne. auto.
Qed.

Ltac has_keeps :=
  intros w Hw; mon;
  repeat match goal with
         | |- context [match ?x with _ => _ end] => innermost_eq x
         end;
  fields; rewrite ?length_insert, ?length_app, ?length_insert; cbn [length];
  first [exact I | lia].

Lemma recv_keeps_has (c : nat) s n :
  keeps (fun w => (c < length (sockets w))%nat) (sock_recv s n).
Proof. unfold sock_recv. has_keeps. Qed.

Lemma sendall_keeps_has (c : nat) s data :
  keeps (fun w => (c < length (sockets w))%nat) (sock_sendall s data).
Proof. unfold sock_sendall. has_keeps. Qed.

Lemma settimeout_keeps_has (c : nat) s t :
  keeps (fun w => (c < length (sockets w))%nat) (sock_settimeout s t).
Proof. unfold sock_settimeout. has_keeps. Qed.

Lemma bind_keeps_has (c : nat) s ip p :
  keeps (fun w => (c < length (sockets w))%nat) (sock_bind s ip p).
Proof. unfold sock_bind. has_keeps. Qed.

Lemma listen_keeps_has (c : nat) s b :
  keeps (fun w => (c < length (sockets w))%nat) (sock_listen s b).
Proof. unfold sock_listen. has_keeps. Qed.

Lemma accept_keeps_has (c : nat) s :
  keeps (fun w => (c < length (sockets w))%nat) (sock_accept s).
Proof. unfold sock_accept, socket_socket. has_keeps. Qed.

Lemma connect_keeps_has (c : nat) s ip p :
  keeps (fun w => (c < length (sockets w))%nat) (sock_connect s ip p).
Proof. unfold sock_connect. has_keeps. Qed.

Lemma Logger_keeps_has (c : nat) l m :
  keeps (fun w => (c < length (sockets w))%nat) (Logger l m).
Proof. has_keeps. Qed.

Lemma Logger_input_keeps_has (c : nat) m :
  keeps (fun w => (c < length (sockets w))%nat) (Logger_input m).
Proof. unfold Logger_input. has_keeps. Qed.

Lemma sleep_keeps_has (c : nat) s :
  keeps (fun w => (c < length (sockets w))%nat) (time_sleep s).
Proof. has_keeps. Qed.

Lemma Video_read_keeps_has (c : nat) v :
  keeps (fun w => (c < length (sockets w))%nat) (Video_read v).
Proof. unfold Video_read. has_keeps. Qed.

Lemma Video_show_keeps_has (c : nat) v f :
  keeps (fun w => (c < length (sockets w))%nat) (Video_show v f).
Proof. unfold Video_show. has_keeps. Qed.

Lemma Video_stop_keeps_has (c : nat) :
  keeps (fun w => (c < length (sockets w))%nat) Video_stop.
Proof. unfold Video_stop. has_keeps. Qed.

Lemma gets_keeps_has {A} (c : nat) (f : World -> A) :
  keeps (fun w => (c < length (sockets w))%nat) (gets f).
Proof. has_keeps. Qed.

Lemma closed_at_live c o w : o <> c -> live c w -> live c (closed_at o w).
Proof.
  intros Hne Hl. pose proof (close_keeps_live c o Hne w Hl) as Hk.
  now rewrite close_eq in Hk.
Qed.

Lemma kept_open_sys {A} c (m : M World A) :
  keeps (live c) m -> keeps (fun w => (c < length (sockets w))%nat) m ->
  keeps (kept_open c) (sys m).
Proof.
  intros Hm Hh [e w] (Hne & Hlen & Hl). specialize (Hh w Hlen).
  unfold sys. fields.
  destruct (m w) as [a w1|x w1|] eqn:E; [| |exact I];
    (split; [exact Hne|]; split; [exact Hh|]; intros Hcs; fields;
     specialize (Hm w (Hl Hcs)); now rewrite E in Hm).
Qed.

Lemma kept_open_attr {A} c (f : Endpoint -> A) : keeps (kept_open c) (attr f).
Proof. intros s Hs; exact Hs. Qed.

Lemma kept_open_need_attr {A} c (f : Endpoint -> option A) :
  keeps (kept_open c) (need_attr f).
Proof. intros [e w] Hs. unfold need_attr. mon. destruct (f e); exact Hs. Qed.

Lemma kept_open_assign c (f : Endpoint -> Endpoint) :
  (forall e, socket (f e) = socket e) ->
  (forall e, client_socket (f e) = client_socket e) ->
  keeps (kept_open c) (assign f).
Proof.
  intros Hf Hg [e w] (Hne & Hlen & Hl). unfold assign, modify, kept_open.
  fields. rewrite Hf, Hg. auto.
Qed.

(** Releasing a socket never closes the one [client_socket] names. *)
Lemma kept_open_release c old : keeps (kept_open c) (release old).
Proof.
  intros [e w] (Hne & Hlen & Hl). rewrite release_eq. unfold kept_open. fields.
  split; [exact Hne|]. unfold let_go. destruct old as [o|]; [|auto].
  destruct (referenced o e) eqn:R; [auto|].
  split; [now rewrite (proj2 (proj2 (proj2 (closed_at_frame o w))))|].
  intros Hcs. apply closed_at_live; [|auto].
  intros ->. unfold referenced in R. rewrite Hcs in R. cbn [names] in R.
  rewrite Nat.eqb_refl in R. rewrite !orb_true_r in R. discriminate.
Qed.

Lemma accept_fresh ss w n addr w1 :
  sock_accept ss w = Done (n, addr) w1 -> n = length (sockets w).
Proof.
  unfold sock_accept, socket_socket. mon.
  repeat match goal with
         | |- context [match ?x with _ => _ end] => innermost_eq x
         end; fields; intros [= <- _ _]; reflexivity.
Qed.

(** [self.client_socket, address = self.server_socket.accept()]: the
    socket stored is a new one. *)
Lemma accept_rebind_keeps c ss (k : option sock_id -> string -> M State unit) :
  (forall old addr, keeps (kept_open c) (k old addr)) ->
  keeps (kept_open c)
    (let* (n, address) := sys (sock_accept ss) in
     let* old := attr client_socket in
     assign (set_client_socket n) ;;
     k old address).
Proof.
  intros Hk [e w] (Hne & Hlen & Hl).
  pose proof (accept_keeps_has c ss w Hlen) as Hh.
  pose proof (accept_keeps_live c ss w) as Hm.
  unfold bind at 1. unfold sys. fields.
  destruct (sock_accept ss w) as [[n addr] w1|x w1|] eqn:E; [| |exact I].
  - apply accept_fresh in E. mon. fields.
    apply (Hk (client_socket e) addr
             {| self := set_client_socket n e; os := w1 |}).
    split; [exact Hne|]. split; [exact Hh|]. fields.
    intros [= Hn]. lia.
  - split; [exact Hne|]. split; [exact Hh|]. fields. intros Hcs.
    apply Hm. auto.
Qed.

Create HintDb live_db.
#[local] Hint Resolve recv_keeps_live sendall_keeps_live settimeout_keeps_live
  bind_keeps_live listen_keeps_live accept_keeps_live connect_keeps_live
  Logger_keeps_live Logger_input_keeps_live sleep_keeps_live Video_read_keeps_live
  Video_show_keeps_live Video_stop_keeps_live gets_keeps_live
  recv_keeps_has sendall_keeps_has settimeout_keeps_has bind_keeps_has
  listen_keeps_has accept_keeps_has connect_keeps_has Logger_keeps_has
  Logger_input_keeps_has sleep_keeps_has Video_read_keeps_has
  Video_show_keeps_has Video_stop_keeps_has gets_keeps_has
  kept_open_release : live_db.

Ltac kept_step :=
  first
    [ assumption
    | solve [auto 1 with live_db nocore]
    | apply keeps_ret | apply keeps_raise | apply keeps_out_of_fuel
    | apply keeps_of_option
    | apply kept_open_sys; solve [auto 1 with live_db nocore]
    | apply kept_open_attr
    | apply kept_open_need_attr
    | apply kept_open_assign; reflexivity
    | apply keeps_try
    | apply accept_rebind_keeps; intros ? ?
    | apply keeps_bind; [|intros ?]
    | match goal with
      | |- keeps _ (if ?b then _ else _) => destruct b
      | |- keeps _ (match ?x with _ => _ end) => destruct x
      | |- keeps _ (let (_, _) := ?x in _) => destruct x
      end ].

Ltac kept_all := repeat kept_step.

Lemma send_kept_open c frame res show : keeps (kept_open c) (send frame res show).
Proof. unfold send, transmit. kept_all. Qed.

Lemma receive_size_kept_open c fuel data : keeps (kept_open c) (receive_size fuel data).
Proof.
  revert data. induction fuel as [|fuel IH]; intros data; cbn [receive_size];
    kept_all; apply IH.
Qed.

Lemma receive_payload_kept_open c fuel n data :
  keeps (kept_open c) (receive_payload fuel n data).
Proof.
  revert data. induction fuel as [|fuel IH]; intros data; cbn [receive_payload];
    kept_all; apply IH.
Qed.

#[local] Hint Resolve receive_size_kept_open receive_payload_kept_open : live_db.

Lemma receive_kept_open c fuel show : keeps (kept_open c) (receive fuel show).
Proof. unfold receive. kept_all. Qed.

Lemma is_connected_kept_open c : keeps (kept_open c) is_connected.
Proof. unfold is_connected. kept_all. Qed.

Lemma close_kept_open c : keeps (kept_open c) close.
Proof.
  intros [e w] (Hne & Hlen & Hl). fields.
  assert (Hk : keeps (kept_open c)
                 (try_except (sys Video_stop) (ret tt) ;;
                  let* t := need_attr socket_type in
                  sys (Logger TEXT (MsgStopped t)))) by kept_all.
  unfold close. unfold bind at 1 2. unfold attr, gets, sys at 1. fields.
  rewrite close_eq.
  apply (Hk {| self := e; os := closed_at (socket e) w |}).
  split; [exact Hne|].
  split; [fields; now rewrite (proj2 (proj2 (proj2 (closed_at_frame (socket e) w))))|].
  intros Hcs. apply closed_at_live; auto.
Qed.

Lemma unpack_pair_kept_open c r : keeps (kept_open c) (unpack_pair r).
Proof. unfold unpack_pair. kept_all. Qed.

#[local] Hint Resolve send_kept_open receive_kept_open is_connected_kept_open
  close_kept_open unpack_pair_kept_open : live_db.

Lemma Server_start_kept_open c fuel : keeps (kept_open c) (Server_start fuel).
Proof. induction fuel as [|fuel IH]; cbn [Server_start]; kept_all. Qed.

Lemma Client_start_kept_open c fuel : keeps (kept_open c) (Client_start fuel).
Proof. induction fuel as [|fuel IH]; cbn [Client_start]; kept_all. Qed.

Lemma port_prompts_kept_open c n : keeps (kept_open c) (port_prompts n).
Proof. induction n as [|n IH]; cbn [port_prompts]; kept_all. Qed.

#[local] Hint Resolve port_prompts_kept_open : live_db.

Lemma set_port_kept_open c : keeps (kept_open c) _set_port.
Proof. unfold _set_port. kept_all. Qed.

Lemma set_ip_kept_open c : keeps (kept_open c) _set_ip.
Proof. unfold _set_ip. kept_all. Qed.

#[local] Hint Resolve set_port_kept_open set_ip_kept_open
  Server_start_kept_open Client_start_kept_open : live_db.

Lemma Server_connect_kept_open c fuel port timeout :
  keeps (kept_open c) (Server_connect fuel port timeout).
Proof.
  revert port.
  induction fuel as [|fuel IH]; intros port; cbn [Server_connect]; kept_all;
    apply IH.
Qed.

Lemma Client_connect_kept_open c fuel ip port timeout :
  keeps (kept_open c) (Client_connect fuel ip port timeout).
Proof.
  revert ip port.
  induction fuel as [|fuel IH]; intros ip port; cbn [Client_connect]; kept_all;
    apply IH.
Qed.

(** Property X13. No method closes the connection that [client_socket]
    names, unless it is [self.socket] itself: if a socket other than
    [self.socket] is open, then after any sequence of calls, [close]
    included, it is still open whenever [client_socket] names it.  Only a
    later successful [accept] lets go of it, by storing a new socket in
    [client_socket]; [self.socket] is never reassigned (hosting.py:133,
    192). *)
Theorem connection_in_use_is_never_closed (c : sock_id) (st st' : State) :
  socket (self st) <> c -> live c (os st) -> rtc after st st' ->
  socket (self st') = socket (self st) /\
  (client_socket (self st') = Some c -> live c (os st')).
Proof.
  intros Hne Hl Hr.
  assert (He : kept_open c st').
  { assert (He : kept_open c st).
    { split; [exact Hne|]. split; [|auto].
      destruct Hl as (sk & Hs & _). eapply lookup_lt_Some; eauto. }
    clear Hne Hl.
    induction Hr as [|st st1 st2 (fuel & k & Hstep) _ IH]; [exact He|].
    apply IH.
    assert (Hk : keeps (kept_open c) (run fuel k)).
    { destruct k; cbn [run]; kept_all;
        auto using Server_connect_kept_open, Client_connect_kept_open. }
    specialize (Hk st He). destruct (run fuel k st); subst; auto; contradiction. }
  split; [|apply He].
  symmetry. apply (after_keeps (fun e => socket (self st) = socket e) st st'); auto.
  split; intros; cbn; auto.
Qed.

(** ** ESC during display, a camera that does not open, closed sockets *)

Lemma receive_buffered_frame fuel show st c sk pack payload frame more rest :
  client_socket (self st) = Some c ->
  sockets (os st) !! c = Some sk ->
  closed sk = false -> connected sk = true ->
  inbound sk = requeue (pack ++ payload ++ more) rest ->
  Struct.pack_Q (byteorder (os st)) (len payload) = Some pack ->
  len payload <= PY_SSIZE_T_MAX ->
  pickle_loads payload = Some frame ->
  receive (S (S fuel)) show st =
  if show then shown frame (rx_set c sk (requeue more rest) st)
  else Done (RxTuple true (Some frame)) (rx_set c sk (requeue more rest) st).
Proof.
  intros Hc Hs Hcl Hco Hi Hp Hl Hf.
  pose proof (pack_Q_length _ _ _ Hp) as Hlen.
  pose proof (lookup_lt_Some _ _ _ Hs) as Hlt.
  rewrite receive_eq.
  rewrite (receive_size_buffered fuel st c sk pack (payload ++ more) rest)
    by assumption.
  change (byteorder (os (rx_set c sk (requeue (payload ++ more) rest) st)))
    with (byteorder (os st)).
  rewrite take_ge by (rewrite Hlen; reflexivity).
  rewrite (unpack_pack_Q _ _ _ Hp).
  rewrite drop_ge by (rewrite Hlen; reflexivity).
  destruct payload as [|b bs].
  - cbn [receive_payload]. change (len [] <? len []) with false. cbv iota.
    unfold ret. change (slice_to (len []) []) with (@nil byte).
    rewrite Hf. reflexivity.
  - set (st1 := rx_set c sk (requeue ((b :: bs) ++ more) rest) st).
    set (sk1 := with_inbound (requeue ((b :: bs) ++ more) rest) sk).
    assert (Hs1 : sockets (os st1) !! c = Some sk1).
    { unfold st1, rx_set. cbn. now rewrite list_lookup_insert_eq. }
    assert (Hc1 : client_socket (self st1) = Some c) by exact Hc.
    rewrite (receive_payload_buffered fuel st1 c sk1 b bs more rest
               Hc1 Hs1 Hcl Hco eq_refl Hl).
    rewrite slice_to_all by lia. rewrite Hf.
    assert (Hst : rx_set c sk1 (requeue more rest) st1
                  = rx_set c sk (requeue more rest) st).
    { unfold rx_set, st1, sk1. cbn. now rewrite list_insert_insert_eq. }
    now rewrite Hst.
Qed.

(** Property X14. When a whole message is at hand and ESC is pressed while
    [receive(show=True)] displays the decoded frame, the [SystemExit] of
    [Video.show] is caught by the bare [except]: [receive] returns [None]
    with the message consumed and the windows closed, and [Server.start]
    then ends with [TypeError] (hosting.py:108-113, 208, video.py:60-63). *)
Theorem receive_show_escape_returns_None (fuel : nat) (st : State) (c : sock_id)
    (sk : SockState) (pack payload : bytes) (frame : ndarray) (more : bytes)
    (rest : list rx_event) (v : VideoObj) (ks : list bool) :
  client_socket (self st) = Some c ->
  sockets (os st) !! c = Some sk ->
  closed sk = false -> connected sk = true ->
  inbound sk = requeue (pack ++ payload ++ more) rest ->
  Struct.pack_Q (byteorder (os st)) (len payload) = Some pack ->
  len payload <= PY_SSIZE_T_MAX ->
  pickle_loads payload = Some frame ->
  video (self st) = Some v -> keys (os st) = true :: ks ->
  exists st',
    receive (S (S fuel)) true st = Done RxNone st' /\
    unread c st' = more ++ pending rest /\
    trace (os st')
    = EvDestroyAllWindows ::
      EvImshow (win_name v) (Video_resize frame (screen_resolution (self st))) ::
      trace (os st) /\
    keys (os st') = ks /\
    Server_start (S (S (S fuel))) st = Raised TypeError st'.
Proof.
  intros Hc Hs Hcl Hco Hi Hp Hl Hf Hv Hk.
  pose proof (receive_buffered_frame fuel true st c sk pack payload frame more rest
                Hc Hs Hcl Hco Hi Hp Hl Hf) as Hr.
  cbv iota in Hr.
  pose proof (unread_rx_set c sk (requeue more rest) st
                (lookup_lt_Some _ _ _ Hs)) as Hun.
  rewrite pending_requeue in Hun.
  destruct st as [e w]; fields.
  unfold shown, rx_set, Video_show in Hr. revert Hr. fields. rewrite Hv. mon. fields.
  rewrite Hk. fields.
  intros Hr. eexists. split; [exact Hr|]. fields.
  split; [exact Hun|]. split; [reflexivity|]. split; [reflexivity|].
  apply Server_start_stops; [|exact Hr].
  apply is_connected_set. fields. rewrite Hc. eauto.
Qed.

(** Property X15. With [capture_video=True] on a machine whose camera does
    not open, [Server(...)] and [Client(...)] log the error and raise
    [SystemExit], leaving the socket they created open; with
    [capture_video=False] the camera is not consulted and the constructor
    returns an endpoint without [video] (hosting.py:14-26, 163,
    video.py:33-45). *)
Theorem constructor_exits_without_camera (name : string) (show_ip : bool)
    (res : Resolution) (src : Z) (vb : bool) (w : World) (ip : string) :
  hostip w = Some ip -> camera_opens w = false ->
  (exists w',
     Server_init name show_ip true res src vb w = Raised SystemExit w' /\
     Client_init name show_ip true res src vb w = Raised SystemExit w' /\
     head (trace w') = Some (EvLog ERROR (MsgUnableToOpen src)) /\
     sockets w' = sockets w ++ [fresh_socket]) /\
  (exists e w',
     Server_init name show_ip false res src vb w = Done e w' /\
     video e = None /\ client_socket e = None /\
     server_socket e = Some (length (sockets w))).
Proof.
  intros Hip Hcam. split.
  - unfold Server_init, Client_init, _Socket_init, Video_init, socket_socket.
    destruct show_ip, vb, res; mon; fields; rewrite Hip; mon; fields;
      rewrite Hcam; fields; eexists; repeat split; reflexivity.
  - unfold Server_init, _Socket_init, socket_socket.
    destruct show_ip; mon; fields; rewrite Hip; eexists _, _; repeat split;
      reflexivity.
Qed.

Lemma closed_socket_recv c sk n w :
  sockets w !! c = Some sk -> closed sk = true ->
  exists e, sock_recv c n w = Raised e w.
Proof.
  intros Hs Hc. unfold sock_recv.
  destruct (n <? 0); [eexists; reflexivity|].
  destruct (PY_SSIZE_T_MAX <? n); [eexists; reflexivity|].
  mon. rewrite Hs, Hc. eexists; reflexivity.
Qed.

(** Property X16. On a client, where [client_socket] is [self.socket],
    [close] closes the connection (and then raises [AttributeError] at the
    log line); afterwards [send(frame)] returns without sending, [receive]
    returns [None], both leaving the state as it is, and [is_connected]
    still returns [True] (hosting.py:129-138, 235). *)
Theorem closed_client_is_silent (st : State) (sk : SockState) :
  client_socket (self st) = Some (socket (self st)) ->
  sockets (os st) !! socket (self st) = Some sk ->
  socket_type (self st) = None ->
  exists st',
    close st = Raised AttributeError st' /\
    self st' = self st /\
    sockets (os st') !! socket (self st) = Some (with_closed sk) /\
    (forall frame res, send (Some frame) res false st' = Done tt st') /\
    (forall fuel show, receive (S fuel) show st' = Done RxNone st') /\
    is_connected st' = Done true st'.
Proof.
  intros Hc Hs Hn.
  destruct (close_without_socket_type st Hn) as (w' & Hclose & Hsk).
  specialize (Hsk sk Hs).
  exists {| self := self st; os := w' |}. split; [exact Hclose|].
  split; [reflexivity|]. split; [exact Hsk|].
  destruct st as [e w]; fields. repeat split.
  - intros frame res. unfold send, transmit. mon.
    destruct (Struct.pack_Q _ _); [|reflexivity]. mon. rewrite Hc. mon.
    now rewrite (sendall_closed _ _ _ _ Hsk eq_refl).
  - intros fuel show. rewrite receive_eq. cbn [receive_size].
    change (length [] <? payload_size)%nat with true. mon. fields. rewrite Hc.
    destruct (closed_socket_recv (socket e) (with_closed sk) (Z.of_nat payload_size)
                w' Hsk eq_refl) as [x ->].
    reflexivity.
  - apply is_connected_set. fields. rewrite Hc. eauto.
Qed.



(** Property X18. When the peer closes the stream before the 8 bytes of the
    length prefix are complete, [receive] terminates and returns [None]: the
    first loop leaves on the empty packet and [struct.unpack] rejects the
    short prefix. The attributes are unchanged (hosting.py:93-100). *)
Theorem receive_ends_on_short_prefix (evs : list rx_event) (show : bool)
    (st : State) (c : sock_id) (sk : SockState) (extra : nat) :
  client_socket (self st) = Some c ->
  sockets (os st) !! c = Some sk ->
  closed sk = false -> connected sk = true -> inbound sk = evs ->
  Forall (fun ev => ev <> RxError) evs ->
  (length (pending evs) < payload_size)%nat ->
  exists st',
    receive (S (length evs + extra)) show st = Done RxNone st' /\
    self st' = self st.
Proof.
  intros Hc Hs Hcl Hco Hi Hf Hlen.
  destruct (receive_short_prefix_returns_None evs show st c sk extra
              Hc Hs Hcl Hco Hi Hf Hlen) as [st' Hr].
  exists st'. split; [exact Hr|].
  pose proof (receive_keeps (fun e => e = self st) (S (length evs + extra)) show st
                eq_refl) as Hk.
  rewrite Hr in Hk. exact Hk.
Qed.


(** ** One turn of the [start] loops *)

Lemma show_without_escape v frame w :
  head (keys w) <> Some true ->
  Video_show v frame w
  = Done tt (set_trace (EvImshow (win_name v) frame :: trace w)
               (set_keys (tail (keys w)) w)).
Proof.
  intros Hk. unfold Video_show. mon. fields.
  destruct (keys w) as [|[|] ks] eqn:E; cbn in Hk; try congruence; fields.
  - destruct w; cbn in *; now subst.
  - reflexivity.
Qed.


Lemma send_captured_frame res st v shot cam c sk size :
  capture_video (self st) = true -> video (self st) = Some v ->
  camera (os st) = Some shot :: cam ->
  client_socket (self st) = Some c ->
  sockets (os st) !! c = Some sk -> closed sk = false -> connected sk = true ->
  head (tx_script sk) = None \/ head (tx_script sk) = Some None ->
  Struct.pack_Q (byteorder (os st)) (len (pickle_dumps (Video_resize shot res)))
    = Some size ->
  send None res false st
  = Done tt
      {| self := self st;
         os := set_sockets
                 (<[c := with_sent (tail (tx_script sk))
                           (size ++ pickle_dumps (Video_resize shot res)) sk]>
                    (sockets (os st)))
                 (set_camera cam (os st)) |}.
Proof.
  intros Hcap Hv Hcam Hc Hs Hcl Hco Htx Hp.
  pose proof (transmit_sends shot res
                {| self := self st; os := set_camera cam (os st) |} c sk size
                Hc Hs Hcl Hco Htx Hp) as [Ht _].
  destruct st as [e w]; fields.
  unfold send, Video_read. mon. rewrite Hcap, Hv. fields. rewrite Hcam. fields.
  now rewrite Ht.
Qed.

(** Property X20. One healthy turn of [Server.start]: with a whole message
    at hand, capture on, no ESC and a camera that delivers a frame, the loop
    displays the decoded frame at the screen resolution, reads one camera
    frame, sends it at 640 x 480 behind its 8-byte length and goes round
    again; the message is consumed and what follows it stays unread
    (hosting.py:207-210). *)
Theorem Server_start_cycle (fuel : nat) (st : State) (c : sock_id) (sk : SockState)
    (pack payload : bytes) (frame shot : ndarray) (more : bytes)
    (rest : list rx_event) (v : VideoObj) (cam : list (option ndarray)) :
  client_socket (self st) = Some c ->
  sockets (os st) !! c = Some sk ->
  closed sk = false -> connected sk = true ->
  inbound sk = requeue (pack ++ payload ++ more) rest ->
  Struct.pack_Q (byteorder (os st)) (len payload) = Some pack ->
  len payload <= PY_SSIZE_T_MAX ->
  pickle_loads payload = Some frame ->
  capture_video (self st) = true -> video (self st) = Some v ->
  head (keys (os st)) <> Some true ->
  camera (os st) = Some shot :: cam ->
  head (tx_script sk) = None \/ head (tx_script sk) = Some None ->
  len (pickle_dumps (Video_resize shot default_resolution)) < 2 ^ 64 ->
  exists st' sk' size,
    Server_start (S (S (S fuel))) st = Server_start (S (S fuel)) st' /\
    self st' = self st /\
    sockets (os st') !! c = Some sk' /\
    inbound sk' = requeue more rest /\
    Struct.pack_Q (byteorder (os st))
      (len (pickle_dumps (Video_resize shot default_resolution))) = Some size /\
    outbound sk'
    = outbound sk ++ size ++ pickle_dumps (Video_resize shot default_resolution) /\
    camera (os st') = cam /\
    keys (os st') = tail (keys (os st)) /\
    trace (os st')
    = EvImshow (win_name v) (Video_resize frame (screen_resolution (self st))) ::
      trace (os st).
Proof.
  intros Hc Hs Hcl Hco Hi Hp Hl Hf Hcap Hv Hk Hcam Htx Hlen.
  pose proof (receive_buffered_frame fuel true st c sk pack payload frame more rest
                Hc Hs Hcl Hco Hi Hp Hl Hf) as Hr.
  cbv iota in Hr.
  destruct (pack_Q_defined (byteorder (os st))
              (len (pickle_dumps (Video_resize shot default_resolution))))
    as [size Hsize]; [unfold len in *; lia|].
  assert (Hon : is_connected st = Done true st)
    by (apply is_connected_set; rewrite Hc; eauto).
  pose proof (lookup_lt_Some _ _ _ Hs) as Hlt.
  destruct st as [e w]; fields.
  unfold shown, rx_set in Hr. fields. rewrite Hv in Hr.
  rewrite show_without_escape in Hr by exact Hk. fields.
  set (sk1 := with_inbound (requeue more rest) sk) in *.
  set (st1 := {| self := e;
                 os := set_trace
                         (EvImshow (win_name v) (Video_resize frame (screen_resolution e))
                          :: trace w)
                         (set_keys (tail (keys w))
                            (set_sockets (<[c := sk1]> (sockets w)) w)) |}) in *.
  assert (Hs1 : sockets (os st1) !! c = Some sk1)
    by (unfold st1; fields; now apply list_lookup_insert_eq).
  pose proof (send_captured_frame default_resolution st1 v shot cam c sk1 size
                Hcap Hv Hcam Hc Hs1 Hcl Hco Htx Hsize) as Hsend.
  eexists _, _, size. split.
  { cbn [Server_start]. unfold bind at 1. rewrite Hon. cbv iota beta.
    unfold bind at 1. rewrite Hr. cbn [unpack_pair]. unfold bind at 1, ret at 1.
    cbv iota beta. unfold bind at 1. rewrite Hsend. reflexivity. }
  fields. split; [reflexivity|]. split.
  { unfold st1. fields. rewrite list_insert_insert_eq.
    now apply list_lookup_insert_eq. }
  repeat split; auto.
Qed.

(** Property X21. One healthy turn of [Client.start]: with capture on, a
    camera that delivers a frame, a whole message at hand and no ESC, the
    loop first sends the camera frame at 640 x 480 behind its 8-byte length,
    then displays the decoded frame and goes round again
    (hosting.py:281-285). *)
Theorem Client_start_cycle (fuel : nat) (st : State) (c : sock_id) (sk : SockState)
    (pack payload : bytes) (frame shot : ndarray) (more : bytes)
    (rest : list rx_event) (v : VideoObj) (cam : list (option ndarray)) :
  client_socket (self st) = Some c ->
  sockets (os st) !! c = Some sk ->
  closed sk = false -> connected sk = true ->
  inbound sk = requeue (pack ++ payload ++ more) rest ->
  Struct.pack_Q (byteorder (os st)) (len payload) = Some pack ->
  len payload <= PY_SSIZE_T_MAX ->
  pickle_loads payload = Some frame ->
  capture_video (self st) = true -> video (self st) = Some v ->
  head (keys (os st)) <> Some true ->
  camera (os st) = Some shot :: cam ->
  head (tx_script sk) = None \/ head (tx_script sk) = Some None ->
  len (pickle_dumps (Video_resize shot default_resolution)) < 2 ^ 64 ->
  exists st' sk' size,
    Client_start (S (S (S fuel))) st = Client_start (S (S fuel)) st' /\
    self st' = self st /\
    sockets (os st') !! c = Some sk' /\
    inbound sk' = requeue more rest /\
    Struct.pack_Q (byteorder (os st))
      (len (pickle_dumps (Video_resize shot default_resolution))) = Some size /\
    outbound sk'
    = outbound sk ++ size ++ pickle_dumps (Video_resize shot default_resolution) /\
    camera (os st') = cam /\
    keys (os st') = tail (keys (os st)) /\
    trace (os st')
    = EvImshow (win_name v) (Video_resize frame (screen_resolution (self st))) ::
      trace (os st).
Proof.
  intros Hc Hs Hcl Hco Hi Hp Hl Hf Hcap Hv Hk Hcam Htx Hlen.
  destruct (pack_Q_defined (byteorder (os st))
              (len (pickle_dumps (Video_resize shot default_resolution))))
    as [size Hsize]; [unfold len in *; lia|].
  assert (Hon : is_connected st = Done true st)
    by (apply is_connected_set; rewrite Hc; eauto).
  pose proof (lookup_lt_Some _ _ _ Hs) as Hlt.
  pose proof (send_captured_frame default_resolution st v shot cam c sk size
                Hcap Hv Hcam Hc Hs Hcl Hco Htx Hsize) as Hsend.
  destruct st as [e w]; fields.
  set (sk1 := with_sent (tail (tx_script sk))
                (size ++ pickle_dumps (Video_resize shot default_resolution)) sk) in *.
  set (st1 := {| self := e;
                 os := set_sockets (<[c := sk1]> (sockets w)) (set_camera cam w) |}) in *.
  assert (Hs1 : sockets (os st1) !! c = Some sk1)
    by (unfold st1; fields; now apply list_lookup_insert_eq).
  pose proof (receive_buffered_frame fuel true st1 c sk1 pack payload frame more rest
                Hc Hs1 Hcl Hco Hi Hp Hl Hf) as Hr.
  cbv iota in Hr.
  unfold shown, rx_set, st1 in Hr. fields. rewrite Hv in Hr.
  rewrite show_without_escape in Hr by exact Hk. fields.
  eexists _, _, size. split.
  { cbn [Client_start]. unfold bind at 1. rewrite Hon. cbv iota beta.
    unfold bind at 1. rewrite Hsend. unfold bind at 1. unfold st1. rewrite Hr.
    cbn [unpack_pair]. unfold bind at 1, ret at 1. cbv iota beta.
    cbn [negb]. reflexivity. }
  fields. split; [reflexivity|]. split.
  { unfold st1. fields. rewrite list_insert_insert_eq.
    now apply list_lookup_insert_eq. }
  repeat split; auto.
Qed.

(** ** A successful attempt in time-out mode *)





End Properties.

(** * Runs on the stand-in collaborators *)

Section Runs.
#[local] Existing Instance raw_frames.

(** A payload that [pickle.loads] rejects: [receive] returns [None]. *)
Lemma receive_corrupt_payload_returns_None (show : bool) :
  receive 2 show (client_on (segment (Struct.le_bytes 8 1 ++ [Byte.x00])))
  = Done RxNone (client_on []).
Proof. destruct show; reflexivity. Qed.

(** Two messages delivered in one piece are decoded one after the other. *)
Lemma pipelined_messages_decoded :
  receive 2 false (client_on (segment pipelined_wire))
  = Done (RxTuple true (Some [Byte.x07])) (client_on (segment second_message)) /\
  receive 2 false (client_on (segment second_message))
  = Done (RxTuple true (Some [])) (client_on []).
Proof. split; reflexivity. Qed.

(** The same bytes with the first four delivered on their own: the first
    message is decoded, the second is lost. *)
Lemma pipelined_message_lost (fuel : nat) :
  receive 3 false (client_on pipelined_split)
  = Done (RxTuple true (Some [Byte.x07]))
      (client_on (segment (drop 2 second_message))) /\
  receive (S (S fuel)) false (client_on (segment (drop 2 second_message)))
  = Done RxNone (client_on []).
Proof. split; reflexivity. Qed.

End Runs.

(** * The theorems at work on the scenarios *)

Section Witnesses.
#[local] Existing Instance raw_frames.


Lemma send_swallows_socket_errors_witness :
  video_ready (self client_broken_pipe) /\
  transmit [Byte.x01; Byte.x02] default_resolution false client_broken_pipe
  = Raised OSError
      {| self := plain_client;
         os := quiet_world
                 [with_sent [] [Byte.x03; Byte.x00; Byte.x00]
                    (connection [] [Some 3%nat])] |} /\
  send (Some [Byte.x01; Byte.x02]) default_resolution false client_broken_pipe
  = Done tt
      {| self := plain_client;
         os := quiet_world
                 [with_sent [] [Byte.x03; Byte.x00; Byte.x00]
                    (connection [] [Some 3%nat])] |}.
Proof.
  assert (Hv : video_ready (self client_broken_pipe))
    by (intros Hcap; discriminate Hcap).
  split; [exact Hv|]. split; [reflexivity|].
  destruct (send_swallows_socket_errors (H := raw_frames)
              (Some [Byte.x01; Byte.x02]) default_resolution false
              client_broken_pipe Hv) as [_ Hdrop].
  apply (Hdrop [Byte.x01; Byte.x02] OSError); reflexivity.
Defined.

Lemma client_socket_never_unset_witness :
  is_Some (client_socket (self (client_on []))) /\
  rtc after (client_on []) client_closed /\
  (exists sk, sockets (os client_closed) !! 0%nat = Some sk /\ closed sk = true) /\
  is_Some (client_socket (self client_closed)) /\
  is_connected client_closed = Done true client_closed.
Proof.
  assert (Hs : is_Some (client_socket (self (client_on []))))
    by (eexists; reflexivity).
  assert (Hr : rtc after (client_on []) client_closed).
  { apply rtc_once. exists 0%nat, CallClose. reflexivity. }
  split; [exact Hs|]. split; [exact Hr|].
  split; [eexists; split; reflexivity|].
  exact (client_socket_never_unset _ _ Hs Hr).
Defined.

Lemma receive_show_fails_without_capture_witness :
  constructed false client_before_call /\
  rtc after client_before_call client_after_call /\
  unread 0%nat client_after_call = first_message /\
  receive 2 false client_after_call
  = Done (RxTuple true (Some [Byte.x07])) client_after_message /\
  receive 2 true client_after_call = Done RxNone client_after_message.
Proof.
  assert (Hc : constructed false client_before_call).
  { exists "Client"%string, false, default_resolution, 0, false,
      (after_refusals 0 (segment first_message) (quiet_world [])).
    right. reflexivity. }
  assert (Hr : rtc after client_before_call client_after_call).
  { apply rtc_once. exists 1%nat, (dial 0). reflexivity. }
  assert (Hp : receive 2 false client_after_call
               = Done (RxTuple true (Some [Byte.x07])) client_after_message)
    by reflexivity.
  split; [exact Hc|]. split; [exact Hr|]. split; [reflexivity|].
  split; [exact Hp|].
  destruct (receive_show_fails_without_capture _ _ Hc Hr) as (_ & Hplain & _).
  exact (Hplain 2%nat _ _ Hp).
Defined.

(** ** The further properties at work *)

Lemma lone_client_constructed : constructed false lone_client.
Proof.
  exists "Client"%string, false, default_resolution, 0, false, (quiet_world []).
  right. reflexivity.
Qed.

Lemma client_before_call_constructed : constructed false client_before_call.
Proof.
  exists "Client"%string, false, default_resolution, 0, false,
    (after_refusals 0 (segment first_message) (quiet_world [])).
  right. reflexivity.
Qed.

Lemma client_call_reached : rtc after client_before_call client_after_call.
Proof. apply rtc_once. exists 1%nat, (dial 0). reflexivity. Qed.

Lemma send_then_receive_round_trip_witness :
  pickle_loads (pickle_dumps (Video_resize [Byte.x01; Byte.x02] default_resolution))
  = Some [Byte.x01; Byte.x02] /\
  send (Some [Byte.x01; Byte.x02]) default_resolution false (client_on [])
  = Done tt
      {| self := plain_client;
         os := quiet_world
                 [with_sent [] (Struct.le_bytes 8 3 ++ [Byte.x80; Byte.x01; Byte.x02])
                    (connection [] [])] |} /\
  receive 2 false
    (client_on (segment (Struct.le_bytes 8 3 ++ [Byte.x80; Byte.x01; Byte.x02])))
  = Done (RxTuple true (Some [Byte.x01; Byte.x02])) (client_on []) /\
  exists size tx' sk1,
    Struct.pack_Q Struct.little 3 = Some size /\
    send (Some [Byte.x01; Byte.x02]) default_resolution false (client_on [])
    = Done tt tx' /\
    self tx' = plain_client /\
    sockets (os tx') !! 0%nat = Some sk1 /\
    outbound sk1 = [] ++ size ++ [Byte.x80; Byte.x01; Byte.x02] /\
    forall fuel more rest,
      inbound (connection (segment (Struct.le_bytes 8 3 ++
                                    [Byte.x80; Byte.x01; Byte.x02])) [])
      = requeue (size ++ [Byte.x80; Byte.x01; Byte.x02] ++ more) rest ->
      exists rx',
        receive (S (S fuel)) false
          (client_on (segment (Struct.le_bytes 8 3 ++ [Byte.x80; Byte.x01; Byte.x02])))
        = Done (RxTuple true (Some [Byte.x01; Byte.x02])) rx' /\
        self rx' = plain_client /\
        unread 0%nat rx' = more ++ pending rest.
Proof.
  split; [reflexivity|]. split; [reflexivity|]. split; [reflexivity|].
  apply (send_then_receive_round_trip (H := raw_frames)
           [Byte.x01; Byte.x02] default_resolution (client_on [])
           (client_on (segment (Struct.le_bytes 8 3 ++ [Byte.x80; Byte.x01; Byte.x02])))
           0%nat 0%nat (connection [] [])
           (connection (segment (Struct.le_bytes 8 3 ++
                                 [Byte.x80; Byte.x01; Byte.x02])) []));
    try reflexivity.
  - now left.
  - vm_compute. discriminate.
Defined.

Lemma send_without_capture_sends_nothing_witness :
  constructed false client_before_call /\
  rtc after client_before_call client_after_call /\
  (forall show, send None default_resolution show client_after_call
                = Done tt client_after_call) /\
  (forall frame, send (Some frame) default_resolution true client_after_call
                 = Done tt client_after_call).
Proof.
  split; [exact client_before_call_constructed|].
  split; [exact client_call_reached|].
  exact (send_without_capture_sends_nothing client_before_call client_after_call
           default_resolution client_before_call_constructed client_call_reached).
Defined.

Lemma endpoint_without_connection_witness :
  Server_init "Server" false false default_resolution 0 false (quiet_world [])
  = Done (self lone_server) (os lone_server) /\
  client_socket (self lone_server) = None /\
  is_connected lone_server = Raised AttributeError lone_server /\
  (forall fuel, Server_start (S fuel) lone_server = Raised AttributeError lone_server) /\
  (forall fuel show, receive (S fuel) show lone_server = Done RxNone lone_server) /\
  (forall frame res, send (Some frame) res false lone_server = Done tt lone_server).
Proof.
  split; [reflexivity|]. split; [reflexivity|].
  exact (endpoint_without_connection lone_server eq_refl).
Defined.

Lemma start_without_capture_never_returns_witness :
  constructed false client_before_call /\
  rtc after client_before_call client_after_call /\
  Client_start 3 client_after_call = Raised TypeError client_after_message /\
  match Server_start 3 client_after_call with
  | Done _ _ => False
  | Raised e _ => e = TypeError \/ e = AttributeError
  | OutOfFuel => True
  end /\
  match Client_start 3 client_after_call with
  | Done _ _ => False
  | Raised e _ => e = TypeError \/ e = AttributeError
  | OutOfFuel => True
  end.
Proof.
  split; [exact client_before_call_constructed|].
  split; [exact client_call_reached|]. split; [reflexivity|].
  exact (start_without_capture_never_returns client_before_call client_after_call 3
           client_before_call_constructed client_call_reached).
Defined.

Lemma connect_without_port_raises_witness :
  constructed false lone_client /\ rtc after lone_client lone_client /\
  timed_out (self lone_client) = false /\
  (forall port, truthy_int port = false ->
     Server_connect 1 port 0 lone_client = Raised AttributeError lone_client) /\
  (forall ip port, truthy_str ip = false \/ truthy_int port = false ->
     Client_connect 1 ip port 0 lone_client = Raised AttributeError lone_client).
Proof.
  split; [exact lone_client_constructed|]. split; [apply rtc_refl|].
  split; [reflexivity|].
  exact (connect_without_port_raises false lone_client lone_client 0
           lone_client_constructed (rtc_refl _ _) eq_refl).
Defined.

Lemma set_port_scans_the_input_witness :
  socket_type (self (named_server ["80"; "http"; "5000"; "6000"]%string))
  = Some "Server"%string /\
  port_of_line "80" = None /\ port_of_line "http" = None /\
  port_of_line "5000" = Some 5000 /\
  match _set_port (named_server ["80"; "http"; "5000"; "6000"]%string) with
  | Done p st' => p = 5000 /\ stdin (os st') = ["6000"%string]
  | _ => False
  end /\
  match _set_port (named_server ["80"; "http"; "5000"; "6000"]%string) with
  | Done p st' =>
      self st' = self (named_server ["80"; "http"; "5000"; "6000"]%string) /\
      exists skipped line,
        stdin (os (named_server ["80"; "http"; "5000"; "6000"]%string))
        = skipped ++ line :: stdin (os st') /\
        Forall (fun l => port_of_line l = None) skipped /\
        port_of_line line = Some p
  | Raised e st' =>
      e = EOFError /\
      self st' = self (named_server ["80"; "http"; "5000"; "6000"]%string) /\
      stdin (os st') = [] /\
      Forall (fun l => port_of_line l = None)
        (stdin (os (named_server ["80"; "http"; "5000"; "6000"]%string)))
  | OutOfFuel => False
  end.
Proof.
  split; [reflexivity|]. split; [reflexivity|]. split; [reflexivity|].
  split; [reflexivity|]. split; [vm_compute; split; reflexivity|].
  exact (set_port_scans_the_input
           (named_server ["80"; "http"; "5000"; "6000"]%string) "Server" eq_refl).
Defined.

Lemma Server_connect_reraises_bind_error_witness :
  sock_bind 0%nat "127.0.0.1" 5000 (os busy_port_server)
  = Raised OSError (set_bind_script [] (quiet_world [fresh_socket])) /\
  Server_connect 1 (Some 5000) 0 busy_port_server
  = Raised OSError
      {| self := self busy_port_server;
         os := set_bind_script [] (quiet_world [fresh_socket]) |} /\
  trace (set_bind_script [] (quiet_world [fresh_socket])) = trace (os busy_port_server) /\
  accept_calls (set_bind_script [] (quiet_world [fresh_socket]))
  = accept_calls (os busy_port_server).
Proof.
  split; [reflexivity|].
  apply (Server_connect_reraises_bind_error 5000 busy_port_server 0%nat OSError
           (set_bind_script [] (quiet_world [fresh_socket])) 0);
    [reflexivity|reflexivity|lia|reflexivity].
Defined.

Lemma late_server_close_reached : rtc after late_server late_server_closed.
Proof. apply rtc_once. exists 0%nat, CallClose. reflexivity. Qed.

Lemma timed_out_is_never_cleared_witness :
  timed_out (self late_server) = true /\
  rtc after late_server late_server_closed /\
  timed_out (self late_server_closed) = true.
Proof.
  split; [reflexivity|]. split; [exact late_server_close_reached|].
  exact (timed_out_is_never_cleared late_server late_server_closed eq_refl
           late_server_close_reached).
Defined.

Lemma Server_connect_after_timeout_witness :
  timed_out (self late_server) = true /\
  (exists st',
     Server_connect 1 None 0 late_server = Done tt st' /\
     client_socket (self st') = Some (length (sockets (os late_server))) /\
     sockets (os st')
     = sockets (os late_server) ++
       [established {| peer_rx := []; peer_tx := [] |} fresh_socket] /\
     trace (os st') = EvAccept 0%nat :: trace (os late_server) /\
     bind_script (os st') = bind_script (os late_server) /\
     stdin (os st') = stdin (os late_server)) /\
  Server_connect 1 None 0 late_server_busy
  = Done tt
      {| self := set_client_socket 2%nat (self late_server_busy);
         os := set_trace [EvAccept 0%nat]
                 (set_accept_calls 1
                    (set_sockets
                       [fresh_socket; with_closed (connection [] []);
                        established {| peer_rx := []; peer_tx := [] |} fresh_socket]
                       (os late_server_busy))) |}.
Proof.
  split; [reflexivity|]. split; [|reflexivity].
  apply (Server_connect_after_timeout None late_server 0%nat "192.168.1.20"
           {| peer_rx := []; peer_tx := [] |} 0); try reflexivity.
  exists fresh_socket. split; reflexivity.
Defined.

Lemma Client_connect_returns_True_at_once_witness :
  ((forall depth, (depth <= 0)%nat ->
      exists st',
        Client_connect depth (Some "192.168.1.20"%string) (Some 5000) 0
          (patient_client 0) = Raised RecursionError st') /\
   exists st',
     (forall fuel,
        Client_connect (1 + fuel) (Some "192.168.1.20"%string) (Some 5000) 0
          (patient_client 0) = Done RetTrue st') /\
     (exists sk', sockets (os st') !! 0%nat = Some sk' /\ connected sk' = true)) /\
  ((forall depth, (depth <= 2)%nat ->
      exists st',
        Client_connect depth (Some "192.168.1.20"%string) (Some 5000) 0
          (patient_client 2) = Raised RecursionError st') /\
   exists st',
     (forall fuel,
        Client_connect (3 + fuel) (Some "192.168.1.20"%string) (Some 5000) 0
          (patient_client 2) = Done RetNone st') /\
     (exists sk', sockets (os st') !! 0%nat = Some sk' /\ connected sk' = true)).
Proof.
  split.
  - apply (Client_connect_returns_True_at_once "192.168.1.20" 5000 0%nat fresh_socket
             {| peer_rx := []; peer_tx := [] |} 0 (patient_client 0));
      try reflexivity.
    + right. split; [discriminate|lia].
    + intros j Hj. lia.
  - apply (Client_connect_returns_True_at_once "192.168.1.20" 5000 0%nat fresh_socket
             {| peer_rx := []; peer_tx := [] |} 2 (patient_client 2));
      try reflexivity.
    + right. split; [discriminate|lia].
    + intros j Hj. do 2 (destruct j as [|j]; [reflexivity|]). lia.
Defined.

Lemma send_show_escape_is_swallowed_witness :
  video (self (studio [] [] [true])) = Some web_cam /\
  keys (os (studio [] [] [true])) = [true] /\
  exists st',
    send (Some [Byte.x01]) default_resolution true (studio [] [] [true])
    = Done tt st' /\
    self st' = self (studio [] [] [true]) /\
    sockets (os st') = sockets (os (studio [] [] [true])) /\
    keys (os st') = [] /\
    trace (os st')
    = EvDestroyAllWindows ::
      EvImshow (win_name web_cam)
        (Video_resize (Video_resize [Byte.x01] default_resolution)
           (screen_resolution (self (studio [] [] [true])))) ::
      trace (os (studio [] [] [true])).
Proof.
  split; [reflexivity|]. split; [reflexivity|].
  apply (send_show_escape_is_swallowed (H := raw_frames) [Byte.x01] default_resolution
           (studio [] [] [true]) web_cam []); [reflexivity|reflexivity|].
  vm_compute. reflexivity.
Defined.

Lemma server_close_reached : rtc after (server_on []) (server_closed []).
Proof. apply rtc_once. exists 0%nat, CallClose. reflexivity. Qed.

Lemma connection_in_use_is_never_closed_witness :
  socket (self (server_on [])) <> 1%nat /\
  live 1%nat (os (server_on [])) /\
  rtc after (server_on []) (server_closed []) /\
  (exists sk, sockets (os (server_closed [])) !! 0%nat = Some sk /\ closed sk = true) /\
  client_socket (self (server_closed [])) = Some 1%nat /\
  socket (self (server_closed [])) = socket (self (server_on [])) /\
  (client_socket (self (server_closed [])) = Some 1%nat ->
   live 1%nat (os (server_closed []))).
Proof.
  assert (Hne : socket (self (server_on [])) <> 1%nat) by discriminate.
  assert (Hl : live 1%nat (os (server_on [])))
    by (exists (connection [] []); split; reflexivity).
  split; [exact Hne|]. split; [exact Hl|].
  split; [exact server_close_reached|].
  split; [eexists; split; reflexivity|]. split; [reflexivity|].
  exact (connection_in_use_is_never_closed 1%nat (server_on []) (server_closed [])
           Hne Hl server_close_reached).
Defined.

Lemma receive_show_escape_returns_None_witness :
  pickle_loads [Byte.x80; Byte.x07] = Some [Byte.x07] /\
  keys (os (studio (segment first_message) [] [true])) = [true] /\
  exists st',
    receive 2 true (studio (segment first_message) [] [true]) = Done RxNone st' /\
    unread 0%nat st' = [] ++ pending [] /\
    trace (os st')
    = [EvDestroyAllWindows;
       EvImshow "Client" (Video_resize [Byte.x07] (WH 640 480))] /\
    keys (os st') = [] /\
    Server_start 3 (studio (segment first_message) [] [true]) = Raised TypeError st'.
Proof.
  split; [reflexivity|]. split; [reflexivity|].
  apply (receive_show_escape_returns_None (H := raw_frames) 0
           (studio (segment first_message) [] [true]) 0%nat
           (connection (segment first_message) [])
           (Struct.le_bytes 8 2) [Byte.x80; Byte.x07] [Byte.x07] [] [] web_cam []);
    try reflexivity.
  vm_compute. discriminate.
Defined.

Lemma constructor_exits_without_camera_witness :
  hostip no_camera = Some "127.0.0.1"%string /\ camera_opens no_camera = false /\
  (exists w',
     Server_init "Server" true true default_resolution 0 false no_camera
     = Raised SystemExit w' /\
     Client_init "Server" true true default_resolution 0 false no_camera
     = Raised SystemExit w' /\
     head (trace w') = Some (EvLog ERROR (MsgUnableToOpen 0)) /\
     sockets w' = sockets no_camera ++ [fresh_socket]) /\
  (exists e w',
     Server_init "Server" true false default_resolution 0 false no_camera = Done e w' /\
     video e = None /\ client_socket e = None /\
     server_socket e = Some (length (sockets no_camera))).
Proof.
  split; [reflexivity|]. split; [reflexivity|].
  exact (constructor_exits_without_camera "Server" true default_resolution 0 false
           no_camera "127.0.0.1" eq_refl eq_refl).
Defined.

Lemma closed_client_is_silent_witness :
  close (client_on []) = Raised AttributeError client_closed /\
  exists st',
    close (client_on []) = Raised AttributeError st' /\
    self st' = self (client_on []) /\
    sockets (os st') !! socket (self (client_on [])) = Some (with_closed (connection [] [])) /\
    (forall frame res, send (Some frame) res false st' = Done tt st') /\
    (forall fuel show, receive (S fuel) show st' = Done RxNone st') /\
    is_connected st' = Done true st'.
Proof.
  split; [reflexivity|].
  exact (closed_client_is_silent (client_on []) (connection [] [])
           eq_refl eq_refl eq_refl).
Defined.


Lemma receive_ends_on_short_prefix_witness :
  (length (pending (segment [Byte.x01; Byte.x02; Byte.x03])) < payload_size)%nat /\
  exists st',
    receive 2 true (client_on (segment [Byte.x01; Byte.x02; Byte.x03]))
    = Done RxNone st' /\
    self st' = self (client_on (segment [Byte.x01; Byte.x02; Byte.x03])).
Proof.
  assert (Hlen : (length (pending (segment [Byte.x01; Byte.x02; Byte.x03]))
                  < payload_size)%nat) by (vm_compute; lia).
  split; [exact Hlen|].
  apply (receive_ends_on_short_prefix (segment [Byte.x01; Byte.x02; Byte.x03]) true
           (client_on (segment [Byte.x01; Byte.x02; Byte.x03])) 0%nat
           (connection (segment [Byte.x01; Byte.x02; Byte.x03]) []) 0);
    try reflexivity; [|exact Hlen].
  repeat constructor. discriminate.
Defined.


Lemma Server_start_cycle_witness :
  capture_video (self film_set) = true /\
  camera (os film_set)
  = [Some [Byte.x09]] /\
  exists st' sk' size,
    Server_start 3 film_set
    = Server_start 2 st' /\
    self st' = filming_client /\
    sockets (os st') !! 0%nat = Some sk' /\
    inbound sk' = requeue [] [] /\
    Struct.pack_Q Struct.little 2 = Some size /\
    outbound sk' = [] ++ size ++ [Byte.x80; Byte.x09] /\
    camera (os st') = [] /\
    keys (os st') = [] /\
    trace (os st') = [EvImshow "Client" [Byte.x07]].
Proof.
  split; [reflexivity|]. split; [reflexivity|].
  apply (Server_start_cycle (H := raw_frames) 0
           film_set 0%nat
           (connection (segment first_message) [])
           (Struct.le_bytes 8 2) [Byte.x80; Byte.x07] [Byte.x07] [Byte.x09] [] []
           web_cam []);
    first [reflexivity | discriminate | now left | (vm_compute; discriminate)].
Defined.

Lemma Client_start_cycle_witness :
  capture_video (self film_set) = true /\
  camera (os film_set)
  = [Some [Byte.x09]] /\
  exists st' sk' size,
    Client_start 3 film_set
    = Client_start 2 st' /\
    self st' = filming_client /\
    sockets (os st') !! 0%nat = Some sk' /\
    inbound sk' = requeue [] [] /\
    Struct.pack_Q Struct.little 2 = Some size /\
    outbound sk' = [] ++ size ++ [Byte.x80; Byte.x09] /\
    camera (os st') = [] /\
    keys (os st') = [] /\
    trace (os st') = [EvImshow "Client" [Byte.x07]].
Proof.
  split; [reflexivity|]. split; [reflexivity|].
  apply (Client_start_cycle (H := raw_frames) 0
           film_set 0%nat
           (connection (segment first_message) [])
           (Struct.le_bytes 8 2) [Byte.x80; Byte.x07] [Byte.x07] [Byte.x09] [] []
           web_cam []);
    first [reflexivity | discriminate | now left | (vm_compute; discriminate)].
Defined.



End Witnesses.
